(** * A state container: store, reducer composition, function pipe, middleware

    A shallow embedding of [createStore], [combineReducers], [compose] and
    [applyMiddleware] and the properties their specification states.

    The file has three parts: the embedding (modules [JS], [Compose],
    [CombineReducers], [Store], [CreateStoreArguments],
    [ApplyMiddleware]), the vocabulary and the scenarios the theorems
    speak of, and the theorems.

    How the JavaScript is read:
    - a value is a primitive, a function identity or a reference to an
      object on a heap, so that [===] on objects is identity of
      references; a property read finds the object's own property or,
      on a plain object, the one [Object.prototype] has under that name;
    - code that can throw is a computation, a function from the world to
      an outcome and a world; [try], [catch] and [finally] are
      combinators on computations;
    - the variables a closure captures and writes to ([currentState],
      [isDispatching], the listener arrays, [isSubscribed]) are fields of
      the world; arrays are held by reference, since [currentListeners]
      and [nextListeners] may be one array or two;
    - the callbacks of the store (reducer, listeners, an observer's
      [next]) are programs over the store's operations, so that they
      reach the store's variables through these only; calls nest, and a
      fuel bounds the nesting;
    - the reducers given to [combineReducers] and the middleware given to
      [applyMiddleware] are functions of the embedding. *)

From Stdlib Require Import ZArith Lia.
From stdpp Require Import base option list strings.

Local Open Scope string_scope.
Local Open Scope list_scope.

(* ===================================================================== *)
(** * Part I. The embedding                                               *)
(* ===================================================================== *)

(** ** JavaScript values, objects and effects *)

Module JS.

(** Identity of a function value.  Two function values are [===] exactly
    when they are the same function object; application functions are
    numbered, and the closures the store creates are numbered by the call
    that created them. *)
Inductive fnid : Type :=
| UserFn (n : nat)
| UnsubscribeFn (k : nat)
| ObserveStateFn (k : nat).

(** What the engine provides and no program here builds: the function
    [Object], the object [Object.prototype], and the methods of
    [Object.prototype], by name. *)
Inductive engine_value : Type :=
| ObjectFunction
| ObjectPrototype
| PrototypeMethod (name : string).

(** Values.  Objects are references into the heap, so [VObj l = VObj l']
    is reference identity; numbers are integers (no NaN, whose [!==] with
    itself is outside this model). *)
Inductive value : Type :=
| VUndefined
| VNull
| VBool (b : bool)
| VNum (n : Z)
| VStr (s : string)
| VObj (l : nat)
| VFun (f : fnid)
| VEngine (e : engine_value).

#[global] Instance fnid_eq_dec : EqDecision fnid.
Proof. solve_decision. Defined.

#[global] Instance engine_value_eq_dec : EqDecision engine_value.
Proof. solve_decision. Defined.

#[global] Instance value_eq_dec : EqDecision value.
Proof. solve_decision. Defined.

(** [a === b] and [a !== b]. *)
Definition strict_eq (a b : value) : bool := bool_decide (a = b).
Definition strict_ne (a b : value) : bool := negb (strict_eq a b).

(** The result of [typeof]. *)
Inductive type_tag : Type :=
| TUndefined | TObject | TBoolean | TNumber | TString | TFunction.

#[global] Instance type_tag_eq_dec : EqDecision type_tag.
Proof. solve_decision. Defined.

Definition typeof (v : value) : type_tag :=
  match v with
  | VUndefined => TUndefined
  | VNull => TObject
  | VBool _ => TBoolean
  | VNum _ => TNumber
  | VStr _ => TString
  | VObj _ => TObject
  | VFun _ => TFunction
  | VEngine ObjectPrototype => TObject
  | VEngine _ => TFunction
  end.

(** Truthiness, as [if (v)], [v && ...] and [v || ...] test it. *)
Definition truthy (v : value) : bool :=
  match v with
  | VUndefined | VNull => false
  | VBool b => b
  | VNum n => negb (n =? 0)%Z
  | VStr s => negb (bool_decide (s = ""))
  | VObj _ | VFun _ | VEngine _ => true
  end.

(** *** Property lists

    An object's own enumerable properties, in the order [Object.keys]
    lists them.  Assignment replaces an existing property in place and
    appends a new one.  A property holds a value.  (Keys that are array
    indices, which JavaScript lists first, are not modelled; nor are
    accessors, whose read runs code, nor an assignment under the name
    [__proto__], which sets the prototype and adds no property.) *)
Section Properties.
Context {V : Type}.

Fixpoint lookup_key (k : string) (ps : list (string * V)) : option V :=
  match ps with
  | [] => None
  | (k', v) :: ps' => if bool_decide (k' = k) then Some v else lookup_key k ps'
  end.

Fixpoint assign (k : string) (v : V) (ps : list (string * V)) : list (string * V) :=
  match ps with
  | [] => [(k, v)]
  | (k', v') :: ps' =>
      if bool_decide (k' = k) then (k, v) :: ps' else (k', v') :: assign k v ps'
  end.

Definition keys (ps : list (string * V)) : list string := map fst ps.

Definition hasOwnProperty (ps : list (string * V)) (k : string) : bool :=
  bool_decide (is_Some (lookup_key k ps)).

End Properties.

(** A heap object: whether it is a plain object (what the absent helper
    [isPlainObject] tests), and its properties.  A plain object inherits
    from [Object.prototype]; what another object inherits is listed among
    its properties, which are read and never enumerated. *)
Record object : Type := Object {
  plain : bool;
  props : list (string * value)
}.

(** The properties of [Object.prototype] (ECMAScript and its Annex B),
    which a read finds on a plain object that has no property of its own
    under that name. *)
Definition object_prototype : list (string * value) :=
  [("constructor", VEngine ObjectFunction);
   ("__defineGetter__", VEngine (PrototypeMethod "__defineGetter__"));
   ("__defineSetter__", VEngine (PrototypeMethod "__defineSetter__"));
   ("hasOwnProperty", VEngine (PrototypeMethod "hasOwnProperty"));
   ("__lookupGetter__", VEngine (PrototypeMethod "__lookupGetter__"));
   ("__lookupSetter__", VEngine (PrototypeMethod "__lookupSetter__"));
   ("isPrototypeOf", VEngine (PrototypeMethod "isPrototypeOf"));
   ("propertyIsEnumerable", VEngine (PrototypeMethod "propertyIsEnumerable"));
   ("toString", VEngine (PrototypeMethod "toString"));
   ("valueOf", VEngine (PrototypeMethod "valueOf"));
   ("__proto__", VEngine ObjectPrototype);
   ("toLocaleString", VEngine (PrototypeMethod "toLocaleString"))].

(** What a read of [k] finds when [o] has no property [k] of its own. *)
Definition inherited (o : object) (k : string) : value :=
  if plain o then default VUndefined (lookup_key k object_prototype) else VUndefined.

(** Errors.  The constructors are the error kinds of the specification;
    an [Error] of the sources is the constructor of its message.
    [ReducerReturnedUndefined] keeps what the message names. *)
Inductive probe : Type :=
| DuringInitialization
| DuringRandomProbe
| DuringDispatch (actionType : option value).

Inductive exn : Type :=
| InvalidReducer
| InvalidListener
| InvalidObserver
| InvalidAction
| MissingActionType
| ReentrantDispatch
| ReentrantRead
| ReentrantSubscribe
| ReentrantUnsubscribe
| ReducerReturnedUndefined (when : probe) (key : string)
| NativeTypeError (culprit : value)
| UserError (thrown : value).

#[global] Instance probe_eq_dec : EqDecision probe.
Proof. solve_decision. Defined.

#[global] Instance exn_eq_dec : EqDecision exn.
Proof. solve_decision. Defined.

(** [if (e)] on a caught value: an [Error] object is truthy, a value the
    application threw is as truthy as it is. *)
Definition exn_truthy (e : exn) : bool :=
  match e with
  | UserError v => truthy v
  | _ => true
  end.

(** *** Computations

    A computation over a world [W] returns, throws, or has no outcome
    here: it runs out of fuel, or it calls one of the engine's functions,
    which are not modelled.  The world it leaves is kept in each case. *)
Inductive result (A : Type) : Type :=
| Returned (a : A)
| Thrown (e : exn)
| OutOfFuel.
Arguments Returned {A} a.
Arguments Thrown {A} e.
Arguments OutOfFuel {A}.

Definition Comp (W A : Type) : Type := W -> result A * W.

Section Comp.
Context {W : Type}.

Definition ret {A} (a : A) : Comp W A := fun w => (Returned a, w).

Definition throw {A} (e : exn) : Comp W A := fun w => (Thrown e, w).

Definition out_of_fuel {A} : Comp W A := fun w => (OutOfFuel, w).

Definition bind {A B} (c : Comp W A) (k : A -> Comp W B) : Comp W B :=
  fun w =>
    match c w with
    | (Returned a, w') => k a w'
    | (Thrown e, w') => (Thrown e, w')
    | (OutOfFuel, w') => (OutOfFuel, w')
    end.

(** [try { body } catch (e) { handler }] *)
Definition try_catch {A} (body : Comp W A) (handler : exn -> Comp W A) : Comp W A :=
  fun w =>
    match body w with
    | (Thrown e, w') => handler e w'
    | other => other
    end.

(** [try { body } finally { finalizer }]: the finalizer runs on return and
    on throw, and the body's outcome stands unless the finalizer has one
    of its own. *)
Definition try_finally {A} (body : Comp W A) (finalizer : Comp W unit) : Comp W A :=
  fun w =>
    match body w with
    | (OutOfFuel, w') => (OutOfFuel, w')
    | (outcome, w') =>
        match finalizer w' with
        | (Returned _, w'') => (outcome, w'')
        | (Thrown e, w'') => (Thrown e, w'')
        | (OutOfFuel, w'') => (OutOfFuel, w'')
        end
    end.

Definition get_world : Comp W W := fun w => (Returned w, w).

Definition modify (f : W -> W) : Comp W unit := fun w => (Returned tt, f w).

End Comp.

Declare Scope comp_scope.
Delimit Scope comp_scope with comp.
Notation "'let!' x ':=' c 'in' k" := (bind c (fun x => k))
  (at level 10, x name, c at level 100, k at level 200) : comp_scope.
Notation "c ';;;' k" := (bind c (fun _ => k))
  (at level 100, k at level 200, right associativity) : comp_scope.

(** *** The memory applications share

    The heap of objects grows at its end and never shrinks: a reference
    is an index.  [console] is the sink of the absent helper [warning];
    [draws] counts the calls of [Math.random]. *)
Inductive warning_message : Type :=
| NoReducerForKey (key : string)
| NoValidReducer
| UnexpectedStateType (preloaded : bool) (inputState : value) (reducerKeys : list string)
| UnexpectedStateKeys (unexpectedKeys : list string) (preloaded : bool) (reducerKeys : list string).

(** The reserved action types of [utils/actionTypes], which is not among
    the sources: they are parameters of what follows. *)
Record action_types : Type := ActionTypes {
  INIT : string;
  REPLACE : string
}.

Record memory : Type := Memory {
  heap : list object;
  console : list warning_message;
  keyCaches : list (list string);
  draws : nat
}.

Definition set_heap (h : list object) (m : memory) : memory :=
  Memory h (console m) (keyCaches m) (draws m).

(** [{ k1: v1, ... }]: a fresh plain object. *)
Definition new_object (ps : list (string * value)) : Comp memory value :=
  fun m => (Returned (VObj (length (heap m))), set_heap (heap m ++ [Object true ps]) m).

(** [v[k]]: a property read, of the object's own property or else of the
    one it inherits.  Reading a property of [null] or [undefined] is a
    [TypeError]; [Object.prototype] itself has its own properties, its
    [__proto__] being [null]; a primitive or a function has no property
    here. *)
Definition get_property (h : list object) (v : value) (k : string) : result value :=
  match v with
  | VUndefined | VNull => Thrown (NativeTypeError v)
  | VObj l =>
      match h !! l with
      | Some o => Returned (default (inherited o k) (lookup_key k (props o)))
      | None => Returned VUndefined
      end
  | VEngine ObjectPrototype =>
      Returned (if bool_decide (k = "__proto__") then VNull
                else default VUndefined (lookup_key k object_prototype))
  | _ => Returned VUndefined
  end.

Definition get (v : value) (k : string) : Comp memory value :=
  fun m => (get_property (heap m) v k, m).

(** [o[k] = v] (an ES module is strict code: assigning to a property of a
    primitive throws). *)
Definition set_property (o : value) (k : string) (v : value) : Comp memory unit :=
  fun m =>
    match o with
    | VObj l =>
        match heap m !! l with
        | Some ob =>
            (Returned tt,
             set_heap (<[l := Object (plain ob) (assign k v (props ob))]> (heap m)) m)
        | None => (Returned tt, m)
        end
    | _ => (Thrown (NativeTypeError o), m)
    end.

(** [Object.keys(o)] of an object. *)
Definition object_keys (h : list object) (o : value) : list string :=
  match o with
  | VObj l => match h !! l with Some ob => keys (props ob) | None => [] end
  | _ => []
  end.

(** [array.forEach(f)] *)
Fixpoint forEach {W A} (f : A -> Comp W unit) (l : list A) : Comp W unit :=
  match l with
  | [] => ret tt
  | x :: l' => bind (f x) (fun _ => forEach f l')
  end.

(** Modelled from the spec: [isPlainObject] of [utils/isPlainObject], which
    is not among the sources; an action or state "must be a plain
    structured record, not an opaque/exotic object, not a primitive". *)
Definition isPlainObject (h : list object) (v : value) : bool :=
  match v with
  | VObj l => match h !! l with Some o => plain o | None => false end
  | _ => false
  end.

(** Modelled from the spec: [warning] of [utils/warning], which is not
    among the sources; diagnostics "are reported through a side channel
    and must not alter control flow". *)
Definition warning (msg : warning_message) : Comp memory unit :=
  fun m => (Returned tt, Memory (heap m) (console m ++ [msg]) (keyCaches m) (draws m)).

End JS.

(** ** compose *)

Module Compose.

(** What a function call is: functions may be pure ([T -> T]) or have
    effects ([T -> Comp W T]); [call_then c k] evaluates the call [c] and
    hands its result to [k], and [value_of x] is the call that returns [x]
    at once. *)
Class Calls (M : Type -> Type) : Type := {
  value_of : forall {A}, A -> M A;
  call_then : forall {A B}, M A -> (A -> M B) -> M B
}.

#[global] Instance pure_calls : Calls (fun A => A) := {|
  value_of := fun A a => a;
  call_then := fun A B a k => k a
|}.

#[global] Instance comp_calls {W} : Calls (JS.Comp W) := {|
  value_of := fun A a => JS.ret a;
  call_then := fun A B c k => JS.bind c k
|}.

Section Compose.
Context {M : Type -> Type} `{Calls M} {T : Type}.

(** [funcs.reduce((a, b) => (...args) => a(b(...args)))]: with no initial
    value, [reduce] starts from the first function and folds the others
    in from the left. *)
Definition reduce (f : (T -> M T) -> (T -> M T) -> (T -> M T))
    (funcs : list (T -> M T)) (first : T -> M T) : T -> M T :=
  fold_left f funcs first.

(** [(a, b) => (...args) => a(b(...args))] *)
Definition pipe (a b : T -> M T) : T -> M T :=
  fun args => call_then (b args) a.

Definition compose (funcs : list (T -> M T)) : T -> M T :=
  match funcs with
  | [] => fun arg => value_of arg
  | [f] => f
  | f :: rest => reduce pipe rest f
  end.

End Compose.

End Compose.

(** ** combineReducers *)

Module CombineReducers.
Import JS.
Local Open Scope comp_scope.

(** A reducer: a function of the previous state and the action, which may
    allocate, throw, or (against its contract) write to memory. *)
Definition reducer : Type := value -> value -> Comp memory value.

(** An entry of the mapping given to [combineReducers]: a function, or a
    value [v] that is not one. *)
Inductive candidate : Type :=
| Callable (r : reducer)
| NotCallable (v : value).

Section CombineReducers.
(** [process.env.NODE_ENV === 'production'] *)
Variable production : bool.
Variable actionTypes : action_types.
(** The text [Math.random().toString(36).substring(7).split('').join('.')]
    has at the n-th call of [Math.random]. *)
Variable random_suffix : nat -> string.

Definition getUndefinedStateErrorMessage (key : string) (action : value) : Comp memory exn :=
  let! actionType := (if truthy action then get action "type" else ret action) in
  ret (ReducerReturnedUndefined
         (DuringDispatch (if truthy actionType then Some actionType else None)) key).

(** [action && action.type === t] *)
Definition action_is (action : value) (t : string) : Comp memory bool :=
  if truthy action
  then let! type := get action "type" in ret (strict_eq type (VStr t))
  else ret false.

(** [unexpectedKeyCache[key]], as a condition, and
    [unexpectedKeyCache[key] = true], on the cache object of a composed
    reducer (undefined in production).  The cache is an object [{}], of
    which [keyCaches] lists the keys set so far: a read of a key that was
    not set finds what [Object.prototype] has under that name, and
    setting [__proto__] to [true] changes nothing. *)
Definition cache_has (cache : option nat) (key : string) : Comp memory bool :=
  fun m =>
    match cache with
    | Some c =>
        (Returned
           (truthy (if bool_decide (key ∈ default [] (keyCaches m !! c)) then VBool true
                    else default VUndefined (lookup_key key object_prototype))), m)
    | None => (Thrown (NativeTypeError VUndefined), m)
    end.

Definition cache_add (cache : option nat) (key : string) : Comp memory unit :=
  fun m =>
    match cache with
    | Some c =>
        (Returned tt,
         Memory (heap m) (console m)
           (alter (fun ks => if bool_decide (key ∈ ks) || bool_decide (key = "__proto__")
                             then ks else ks ++ [key]) c (keyCaches m))
           (draws m))
    | None => (Thrown (NativeTypeError VUndefined), m)
    end.

(** [reducers.hasOwnProperty(key)]: the method is looked up on
    [reducers], so that a reducer of the name [hasOwnProperty] is what
    gets called, with the key in the place of the state and no action. *)
Definition reducers_hasOwnProperty (reducers : list (string * reducer)) (key : string)
    : Comp memory bool :=
  match lookup_key "hasOwnProperty" reducers with
  | Some r => let! owned := r (VStr key) VUndefined in ret (truthy owned)
  | None => ret (hasOwnProperty reducers key)
  end.

(** [keys.filter(key => !reducers.hasOwnProperty(key) && !unexpectedKeyCache[key])] *)
Fixpoint filter_unexpected (reducers : list (string * reducer)) (cache : option nat)
    (stateKeys : list string) : Comp memory (list string) :=
  match stateKeys with
  | [] => ret []
  | key :: rest =>
      let! keep :=
        (let! owned := reducers_hasOwnProperty reducers key in
         if negb owned
         then let! cached := cache_has cache key in ret (negb cached)
         else ret false) in
      let! others := filter_unexpected reducers cache rest in
      ret (if keep then key :: others else others)
  end.

Definition getUnexpectedStateShapeWarningMessage (inputState : value)
    (reducers : list (string * reducer)) (action : value) (unexpectedKeyCache : option nat)
    : Comp memory (option warning_message) :=
  let reducerKeys := keys reducers in
  let! preloaded := action_is action (INIT actionTypes) in
  if (length reducerKeys =? 0)%nat then ret (Some NoValidReducer)
  else
    let! m := get_world in
    if negb (isPlainObject (heap m) inputState)
    then ret (Some (UnexpectedStateType preloaded inputState reducerKeys))
    else
      let! unexpectedKeys :=
        filter_unexpected reducers unexpectedKeyCache (object_keys (heap m) inputState) in
      forEach (cache_add unexpectedKeyCache) unexpectedKeys ;;;
      let! replacing := action_is action (REPLACE actionTypes) in
      if replacing then ret None
      else if (0 <? length unexpectedKeys)%nat
           then ret (Some (UnexpectedStateKeys unexpectedKeys preloaded reducerKeys))
           else ret None.

(** ['@@redux/PROBE_UNKNOWN_ACTION_' + Math.random()...] *)
Definition probe_type : Comp memory string :=
  fun m =>
    (Returned ("@@redux/PROBE_UNKNOWN_ACTION_" +:+ random_suffix (draws m)),
     Memory (heap m) (console m) (keyCaches m) (S (draws m))).

(** The body of the [forEach] of [assertReducerShape]. *)
Definition assertReducerShape_key (reducers : list (string * reducer)) (key : string)
    : Comp memory unit :=
  match lookup_key key reducers with
  | None => throw (NativeTypeError VUndefined)
  | Some reducer =>
      let! initAction := new_object [("type", VStr (INIT actionTypes))] in
      let! initialState := reducer VUndefined initAction in
      if bool_decide (typeof initialState = TUndefined)
      then throw (ReducerReturnedUndefined DuringInitialization key)
      else
        let! type := probe_type in
        let! probeAction := new_object [("type", VStr type)] in
        let! probed := reducer VUndefined probeAction in
        if bool_decide (typeof probed = TUndefined)
        then throw (ReducerReturnedUndefined DuringRandomProbe key)
        else ret tt
  end.

Definition assertReducerShape (reducers : list (string * reducer)) : Comp memory unit :=
  forEach (assertReducerShape_key reducers) (keys reducers).

(** What the closure [combination] captures. *)
Record composed : Type := Composed {
  finalReducers : list (string * reducer);
  finalReducerKeys : list string;
  unexpectedKeyCache : option nat;
  shapeAssertionError : option exn
}.

(** The first loop of [combineReducers], over [reducerKeys]. *)
Fixpoint collect (reducers : list (string * candidate)) (reducerKeys : list string)
    (finalReducers : list (string * reducer)) : Comp memory (list (string * reducer)) :=
  match reducerKeys with
  | [] => ret finalReducers
  | key :: rest =>
      (if negb production
       then match lookup_key key reducers with
            | Some (NotCallable VUndefined) | None => warning (NoReducerForKey key)
            | _ => ret tt
            end
       else ret tt) ;;;
      match lookup_key key reducers with
      | Some (Callable r) => collect reducers rest (assign key r finalReducers)
      | _ => collect reducers rest finalReducers
      end
  end.

(** [unexpectedKeyCache = {}] *)
Definition new_key_cache : Comp memory (option nat) :=
  fun m =>
    (Returned (Some (length (keyCaches m))),
     Memory (heap m) (console m) (keyCaches m ++ [[]]) (draws m)).

Definition combineReducers (reducers : list (string * candidate)) : Comp memory composed :=
  let reducerKeys := keys reducers in
  let! finalReducers := collect reducers reducerKeys [] in
  let finalReducerKeys := keys finalReducers in
  let! unexpectedKeyCache := (if negb production then new_key_cache else ret None) in
  let! shapeAssertionError :=
    try_catch (assertReducerShape finalReducers ;;; ret None) (fun e => ret (Some e)) in
  ret (Composed finalReducers finalReducerKeys unexpectedKeyCache shapeAssertionError).

(** The loop of [combination], over [finalReducerKeys]; it returns
    [hasChanged]. *)
Fixpoint combination_loop (c : composed) (state action nextState : value)
    (finalKeys : list string) (hasChanged : bool) : Comp memory bool :=
  match finalKeys with
  | [] => ret hasChanged
  | key :: rest =>
      let reducer := lookup_key key (finalReducers c) in
      let! previousStateForKey := get state key in
      let! nextStateForKey :=
        match reducer with
        | Some r => r previousStateForKey action
        | None => throw (NativeTypeError VUndefined)
        end in
      if bool_decide (typeof nextStateForKey = TUndefined)
      then let! errorMessage := getUndefinedStateErrorMessage key action in throw errorMessage
      else
        set_property nextState key nextStateForKey ;;;
        combination_loop c state action nextState rest
          (hasChanged || strict_ne nextStateForKey previousStateForKey)
  end.

(** [combination(state = {}, action)], the reducer [combineReducers]
    returns. *)
Definition combination (c : composed) (state action : value) : Comp memory value :=
  let! state := (if strict_eq state VUndefined then new_object [] else ret state) in
  (match shapeAssertionError c with
   | Some e => if exn_truthy e then throw e else ret tt
   | None => ret tt
   end) ;;;
  (if negb production
   then
     let! warningMessage :=
       getUnexpectedStateShapeWarningMessage state (finalReducers c) action
         (unexpectedKeyCache c) in
     match warningMessage with
     | Some msg => warning msg
     | None => ret tt
     end
   else ret tt) ;;;
  let! nextState := new_object [] in
  let! hasChanged :=
    combination_loop c state action nextState (finalReducerKeys c) false in
  ret (if hasChanged then nextState else state).

End CombineReducers.

End CombineReducers.

(** ** createStore *)

Module Store.
Import JS.
Local Open Scope comp_scope.

(** The variables [createStore] closes over, with the memory around them.
    [currentListeners] and [nextListeners] are references into [arrays],
    the listener arrays created so far, so that the two can be one array
    or two.  [subscriptions] holds, per call of [subscribe], the
    [listener] and [isSubscribed] its [unsubscribe] closure captures;
    [observers] holds, per call of the observable's [subscribe], the
    [observer] its [observeState] closure captures. *)
Record store : Type := MkStore {
  mem : memory;
  currentReducer : value;
  currentState : value;
  currentListeners : nat;
  nextListeners : nat;
  isDispatching : bool;
  arrays : list (list value);
  subscriptions : list (value * bool);
  observers : list value
}.

Definition set_mem (m : memory) (s : store) : store :=
  MkStore m (currentReducer s) (currentState s) (currentListeners s) (nextListeners s)
    (isDispatching s) (arrays s) (subscriptions s) (observers s).
Definition set_currentReducer (r : value) (s : store) : store :=
  MkStore (mem s) r (currentState s) (currentListeners s) (nextListeners s)
    (isDispatching s) (arrays s) (subscriptions s) (observers s).
Definition set_currentState (v : value) (s : store) : store :=
  MkStore (mem s) (currentReducer s) v (currentListeners s) (nextListeners s)
    (isDispatching s) (arrays s) (subscriptions s) (observers s).
Definition set_currentListeners (r : nat) (s : store) : store :=
  MkStore (mem s) (currentReducer s) (currentState s) r (nextListeners s)
    (isDispatching s) (arrays s) (subscriptions s) (observers s).
Definition set_nextListeners (r : nat) (s : store) : store :=
  MkStore (mem s) (currentReducer s) (currentState s) (currentListeners s) r
    (isDispatching s) (arrays s) (subscriptions s) (observers s).
Definition set_isDispatching (b : bool) (s : store) : store :=
  MkStore (mem s) (currentReducer s) (currentState s) (currentListeners s) (nextListeners s)
    b (arrays s) (subscriptions s) (observers s).
Definition set_arrays (a : list (list value)) (s : store) : store :=
  MkStore (mem s) (currentReducer s) (currentState s) (currentListeners s) (nextListeners s)
    (isDispatching s) a (subscriptions s) (observers s).
Definition set_subscriptions (l : list (value * bool)) (s : store) : store :=
  MkStore (mem s) (currentReducer s) (currentState s) (currentListeners s) (nextListeners s)
    (isDispatching s) (arrays s) l (observers s).
Definition set_observers (l : list value) (s : store) : store :=
  MkStore (mem s) (currentReducer s) (currentState s) (currentListeners s) (nextListeners s)
    (isDispatching s) (arrays s) (subscriptions s) l.

(** A computation on memory, run inside the store's world. *)
Definition lift_mem {A} (f : Comp memory A) : Comp store A :=
  fun s => let (r, m) := f (mem s) in (r, set_mem m s).

(** The array a reference denotes. *)
Definition array (s : store) (r : nat) : list value := default [] (arrays s !! r).

(** *** Application code

    What a reducer, a listener or an observer's [next] can do: compute on
    memory, call a function value, call the store's operations, catch
    what they throw.  The store's own variables are reached through the
    operations only. *)
Inductive prog : Type :=
| Ret (v : value)
| Throw (e : exn)
| Mem (f : Comp memory value) (k : value -> prog)
| Call (f : value) (args : list value) (k : value -> prog)
| GetState (k : value -> prog)
| Subscribe (listener : value) (k : value -> prog)
| Dispatch (action : value) (k : value -> prog)
| ReplaceReducer (nextReducer : value) (k : value -> prog)
| Observe (observer : value) (k : value -> prog)
| Try (body : prog) (handler : exn -> prog) (k : value -> prog).

(** [array.indexOf(x)], by [===]; -1 when absent. *)
Fixpoint indexOf_from (i : Z) (x : value) (l : list value) : Z :=
  match l with
  | [] => (-1)%Z
  | y :: l' => if strict_eq y x then i else indexOf_from (i + 1)%Z x l'
  end.
Definition indexOf (x : value) (l : list value) : Z := indexOf_from 0%Z x l.

(** [array.splice(index, 1)]: a negative index counts from the end. *)
Definition splice1 (index : Z) (l : list value) : list value :=
  let len := Z.of_nat (length l) in
  let start := if (index <? 0)%Z then Z.max (len + index) 0 else Z.min index len in
  take (Z.to_nat start) l ++ drop (S (Z.to_nat start)) l.

Section Store.
Variable actionTypes : action_types.
(** How a function value is called: the store's operations take it as a
    parameter, and [invoke] below ties the knot. *)
Variable call : value -> list value -> Comp store value.

Definition ensureCanMutateNextListeners : Comp store unit :=
  fun s =>
    if bool_decide (nextListeners s = currentListeners s)
    then (Returned tt,
          set_nextListeners (length (arrays s))
            (set_arrays (arrays s ++ [array s (currentListeners s)]) s))
    else (Returned tt, s).

Definition getState : Comp store value :=
  fun s =>
    if isDispatching s then (Thrown ReentrantRead, s)
    else (Returned (currentState s), s).

(** The closure [unsubscribe] of the k-th call of [subscribe]. *)
Definition unsubscribe (k : nat) : Comp store value :=
  fun s =>
    match subscriptions s !! k with
    | None => (Thrown (NativeTypeError VUndefined), s)
    | Some (listener, isSubscribed) =>
        if negb isSubscribed then (Returned VUndefined, s)
        else if isDispatching s then (Thrown ReentrantUnsubscribe, s)
        else
          let s1 := set_subscriptions (<[k := (listener, false)]> (subscriptions s)) s in
          let s2 := snd (ensureCanMutateNextListeners s1) in
          let index := indexOf listener (array s2 (nextListeners s2)) in
          (Returned VUndefined,
           set_arrays (alter (splice1 index) (nextListeners s2) (arrays s2)) s2)
    end.

Definition subscribe (listener : value) : Comp store value :=
  fun s =>
    if negb (bool_decide (typeof listener = TFunction)) then (Thrown InvalidListener, s)
    else if isDispatching s then (Thrown ReentrantSubscribe, s)
    else
      let k := length (subscriptions s) in
      let s1 := set_subscriptions (subscriptions s ++ [(listener, true)]) s in
      let s2 := snd (ensureCanMutateNextListeners s1) in
      (Returned (VFun (UnsubscribeFn k)),
       set_arrays (alter (fun a => a ++ [listener]) (nextListeners s2) (arrays s2)) s2).

(** The loop [for (let i = 0; i < listeners.length; i++) listeners[i]()]
    over the array [listeners] refers to; the length is read at every
    turn.  The list returned is a record of the listeners the loop
    called, in the order of the calls. *)
Fixpoint notify (gas : nat) (listeners : nat) (i : nat) : Comp store (list value) :=
  fun s =>
    if (i <? length (array s listeners))%nat
    then
      match gas with
      | 0 => (OutOfFuel, s)
      | S gas' =>
          let listener := default VUndefined (array s listeners !! i) in
          (call listener [] ;;;
           let! called := notify gas' listeners (S i) in
           ret (listener :: called)) s
      end
    else (Returned [], s).

(** [const listeners = (currentListeners = nextListeners)] and the loop. *)
Definition notifyListeners (gas : nat) : Comp store (list value) :=
  modify (fun s => set_currentListeners (nextListeners s) s) ;;;
  let! s := get_world in
  notify gas (currentListeners s) 0.

(** The [try ... finally] of [dispatch]. *)
Definition applyReducer (action : value) : Comp store unit :=
  try_finally
    (modify (set_isDispatching true) ;;;
     let! s := get_world in
     let! nextState := call (currentReducer s) [currentState s; action] in
     modify (set_currentState nextState))
    (modify (set_isDispatching false)).

Definition dispatch (gas : nat) (action : value) : Comp store value :=
  let! s := get_world in
  if negb (isPlainObject (heap (mem s)) action) then throw InvalidAction
  else
    let! type := lift_mem (get action "type") in
    if bool_decide (typeof type = TUndefined) then throw MissingActionType
    else if isDispatching s then throw ReentrantDispatch
    else
      applyReducer action ;;;
      notifyListeners gas ;;;
      ret action.

Definition replaceReducer (gas : nat) (nextReducer : value) : Comp store value :=
  if negb (bool_decide (typeof nextReducer = TFunction)) then throw InvalidReducer
  else
    modify (set_currentReducer nextReducer) ;;;
    let! action := lift_mem (new_object [("type", VStr (REPLACE actionTypes))]) in
    dispatch gas action ;;;
    ret VUndefined.

(** The closure [observeState] of the k-th call of the observable's
    [subscribe]. *)
Definition observeState (k : nat) : Comp store value :=
  let! s := get_world in
  let observer := default VUndefined (observers s !! k) in
  let! next := lift_mem (get observer "next") in
  if truthy next
  then
    let! state := getState in
    call next [state] ;;;
    ret VUndefined
  else ret VUndefined.

(** [store[$$observable]().subscribe(observer)] *)
Definition observable_subscribe (observer : value) : Comp store value :=
  if negb (bool_decide (typeof observer = TObject)) then throw InvalidObserver
  else
    let! s := get_world in
    let k := length (observers s) in
    modify (set_observers (observers s ++ [observer])) ;;;
    observeState k ;;;
    let! unsubscribe := subscribe (VFun (ObserveStateFn k)) in
    lift_mem (new_object [("unsubscribe", unsubscribe)]).

(** [createStore(reducer, preloadedState)], from the check of [reducer]
    on: the store it makes, in the memory it is given.  (With an
    enhancer, [createStore] hands the whole construction over to it.) *)
Definition createStore (gas : nat) (reducer preloadedState : value) : Comp memory store :=
  fun m =>
    if negb (bool_decide (typeof reducer = TFunction)) then (Thrown InvalidReducer, m)
    else
      let s0 := MkStore m reducer preloadedState 0 0 false [[]] [] [] in
      match
        (let! action := lift_mem (new_object [("type", VStr (INIT actionTypes))]) in
         dispatch gas action) s0
      with
      | (Returned _, s) => (Returned s, mem s)
      | (Thrown e, s) => (Thrown e, mem s)
      | (OutOfFuel, s) => (OutOfFuel, mem s)
      end.

(** Running application code. *)
Fixpoint run (gas : nat) (p : prog) : Comp store value :=
  match p with
  | Ret v => ret v
  | Throw e => throw e
  | Mem f k => let! v := lift_mem f in run gas (k v)
  | Call f args k => let! v := call f args in run gas (k v)
  | GetState k => let! v := getState in run gas (k v)
  | Subscribe listener k => let! v := subscribe listener in run gas (k v)
  | Dispatch action k => let! v := dispatch gas action in run gas (k v)
  | ReplaceReducer nextReducer k => let! v := replaceReducer gas nextReducer in run gas (k v)
  | Observe observer k => let! v := observable_subscribe observer in run gas (k v)
  | Try body handler k =>
      let! v := try_catch (run gas body) (fun e => run gas (handler e)) in run gas (k v)
  end.

End Store.

Section Invoke.
Variable actionTypes : action_types.
(** The body of the n-th function of the application, given its
    arguments. *)
Variable code : nat -> list value -> prog.

(** Calling a function value.  Every call of application code takes one
    unit of fuel from the calls nested in it; what a call of [Object] or
    of a method of [Object.prototype] does is left out. *)
Fixpoint invoke (fuel : nat) (f : value) (args : list value) : Comp store value :=
  match f with
  | VFun (UnsubscribeFn k) => unsubscribe k
  | VFun (UserFn n) =>
      match fuel with
      | 0 => out_of_fuel
      | S fuel' => run actionTypes (invoke fuel') fuel' (code n args)
      end
  | VFun (ObserveStateFn k) =>
      match fuel with
      | 0 => out_of_fuel
      | S fuel' => observeState (invoke fuel') k
      end
  | VEngine ObjectFunction | VEngine (PrototypeMethod _) => out_of_fuel
  | _ => throw (NativeTypeError f)
  end.

End Invoke.

End Store.

(** ** createStore: what becomes of its arguments

    Before it makes a store, [createStore] sorts its arguments out: a
    function in the place of the preloaded state, with no third
    argument, is taken for the enhancer; with an enhancer, the whole
    construction is handed to it; without one, the store is made here,
    as in [Store.createStore].  The call
    [enhancer(createStore)(reducer, preloadedState)] itself is not part
    of the embedding. *)
Module CreateStoreArguments.
Import JS.

Inductive route : Type :=
| EnhancerIsNotAFunction
| HandedToEnhancer (enhancer reducer preloadedState : value)
| MadeHere (reducer preloadedState : value).

Definition createStore_route (reducer preloadedState enhancer : value) : route :=
  let swap :=
    bool_decide (typeof preloadedState = TFunction)
    && bool_decide (typeof enhancer = TUndefined) in
  let enhancer' := if swap then preloadedState else enhancer in
  let preloadedState' := if swap then VUndefined else preloadedState in
  if negb (bool_decide (typeof enhancer' = TUndefined))
  then
    if negb (bool_decide (typeof enhancer' = TFunction)) then EnhancerIsNotAFunction
    else HandedToEnhancer enhancer' reducer preloadedState'
  else MadeHere reducer preloadedState'.

End CreateStoreArguments.

(** ** applyMiddleware *)

Module ApplyMiddleware.
Import JS.
Local Open Scope comp_scope.

Section ApplyMiddleware.
(** The world the store given to [applyMiddleware] lives in, and the
    arguments its constructor takes. *)
Context {W Args : Type}.

Abbreviation Dispatch := (value -> Comp W value).

(** The object [createStore] returns. *)
Record StoreAPI : Type := MkStoreAPI {
  dispatch : Dispatch;
  subscribe : value -> Comp W value;
  getState : Comp W value;
  replaceReducer : value -> Comp W value;
  observable : value -> Comp W value
}.

Record MiddlewareAPI : Type := MkMiddlewareAPI {
  api_getState : Comp W value;
  api_dispatch : Dispatch
}.

(** A middleware: [api => next => action => ...].  Its effects are those
    of handling an action; applying it to [api] and to [next] has none,
    so the placeholder [dispatch] that throws while the chain is being
    built is never called, and is left out. *)
Definition Middleware : Type := MiddlewareAPI -> Dispatch -> Dispatch.

Section Chain.
Variable middlewares : list Middleware.
Variable store : StoreAPI.

(** The value of the variable [dispatch] once the chain is built.
    [middlewareAPI.dispatch] reads that variable when it is called, so
    the chain calls itself through it; [fuel] bounds how deep. *)
Fixpoint chained (fuel : nat) : Dispatch :=
  let middlewareAPI :=
    MkMiddlewareAPI (getState store)
      (match fuel with
       | 0 => fun _ => out_of_fuel
       | S fuel' => fun action => chained fuel' action
       end) in
  let chain := map (fun middleware : Middleware => middleware middlewareAPI) middlewares in
  Compose.compose (M := fun A => A) chain (dispatch store).

End Chain.

(** [applyMiddleware(...middlewares)(createStore)(...args)] *)
Definition applyMiddleware (fuel : nat) (middlewares : list Middleware)
    (createStore : Args -> Comp W StoreAPI) (args : Args) : Comp W StoreAPI :=
  let! store := createStore args in
  let dispatch := chained middlewares store fuel in
  ret (MkStoreAPI dispatch (subscribe store) (getState store) (replaceReducer store)
         (observable store)).

End ApplyMiddleware.

Arguments StoreAPI : clear implicits.
Arguments MiddlewareAPI : clear implicits.
Arguments Middleware : clear implicits.

End ApplyMiddleware.

(* ===================================================================== *)
(** * Part II. What the theorems speak of                                 *)
(* ===================================================================== *)

(** ** Computations *)

Section PreservationVocabulary.
Import JS.
Context {W : Type} (R : W -> W -> Prop).

(** Whatever its outcome, [c] leaves a world related to the one it
    started in. *)
Definition preserves {A} (c : Comp W A) : Prop :=
  forall w r w', c w = (r, w') -> R w w'.

End PreservationVocabulary.

(** ** combineReducers *)

Section CombineReducersVocabulary.
Import JS CombineReducers.

(** The function an entry of the mapping holds, if it holds one. *)
Definition callable_at (reducers : list (string * candidate)) (k : string) : option reducer :=
  match lookup_key k reducers with
  | Some (Callable r) => Some r
  | _ => None
  end.

(** The action [action] has the type [t]. *)
Definition has_type (m : memory) (action : value) (t : string) : Prop :=
  get_property (heap m) action "type" = Returned (VStr t).

(** [action] is a probe of [assertReducerShape]: the object
    [{ type: t }]. *)
Definition probe_action (m : memory) (action : value) (t : string) : Prop :=
  exists l, action = VObj l /\ heap m !! l = Some (Object true [("type", VStr t)]).

(** A reducer that returns when probed: given no state and the object
    [{ type: ActionTypes.INIT }], or given no state and an object
    [{ type: '@@redux/PROBE_UNKNOWN_ACTION_...' }], it neither throws nor
    runs forever. *)
Definition returns_for_init (actionTypes : action_types) (r : reducer) : Prop :=
  forall m action, probe_action m action (INIT actionTypes) ->
    exists v m', r VUndefined action m = (Returned v, m').

Definition returns_for_probe (r : reducer) : Prop :=
  forall m action suffix,
    probe_action m action ("@@redux/PROBE_UNKNOWN_ACTION_" +:+ suffix) ->
    exists v m', r VUndefined action m = (Returned v, m').

(** A reducer that returns a value other than [undefined] for the
    initialization probe. *)
Definition defined_for_init (actionTypes : action_types) (r : reducer) : Prop :=
  forall m action, probe_action m action (INIT actionTypes) ->
    exists v m', r VUndefined action m = (Returned v, m') /\ v <> VUndefined.

(** A reducer that returns a value other than [undefined] for a probe
    with a random type. *)
Definition defined_for_probe (r : reducer) : Prop :=
  forall m action suffix,
    probe_action m action ("@@redux/PROBE_UNKNOWN_ACTION_" +:+ suffix) ->
    exists v m', r VUndefined action m = (Returned v, m') /\ v <> VUndefined.

(** A reducer that returns [undefined] for the initialization probe. *)
Definition undefined_for_init (actionTypes : action_types) (r : reducer) : Prop :=
  forall m action, probe_action m action (INIT actionTypes) ->
    exists m', r VUndefined action m = (Returned VUndefined, m').

(** A reducer that returns [undefined] for a probe with a random type. *)
Definition undefined_for_probe (r : reducer) : Prop :=
  forall m action suffix,
    probe_action m action ("@@redux/PROBE_UNKNOWN_ACTION_" +:+ suffix) ->
    exists m', r VUndefined action m = (Returned VUndefined, m').

(** [m'] has the objects of [m], unchanged, and maybe more. *)
Definition extends (m m' : memory) : Prop := heap m `prefix_of` heap m'.

(** [state[k]] in the memory [m]: the state's own property, or the one
    it inherits. *)
Definition previous (m : memory) (state : value) (k : string) : value :=
  match get_property (heap m) state k with
  | Returned v => v
  | _ => VUndefined
  end.

(** The reducer [r] keeps to its contract for the state [s] and the
    action [a], in [m] and in any memory that extends it: it returns a
    value other than [undefined], which may be an object it has just
    made, and it writes to no object that was there. *)
Definition keeps_contract (m : memory) (r : reducer) (s a : value) : Prop :=
  forall m1, extends m m1 ->
    exists v m2, r s a m1 = (Returned v, m2) /\ v <> VUndefined /\ extends m1 m2.

(** The same of a reducer that returns [undefined]. *)
Definition forgets (m : memory) (r : reducer) (s a : value) : Prop :=
  forall m1, extends m m1 -> exists m2, r s a m1 = (Returned VUndefined, m2) /\ extends m1 m2.

(** [v] is a result of the reducer [r] for the state [s] and the action
    [a]: what [r] returns in a memory that [m] has grown into, as the one
    the reducers called before it have left. *)
Definition result_of (m : memory) (r : reducer) (s a v : value) : Prop :=
  exists m1 m2, extends m m1 /\ r s a m1 = (Returned v, m2).

(** The keys of the mapping are ordinary ones: no function is under
    [__proto__], where an assignment sets the prototype; and, outside
    production, none is under [hasOwnProperty], where the check for
    unexpected keys would call it. *)
Definition ordinary (production : bool) (reducers : list (string * candidate)) : Prop :=
  callable_at reducers "__proto__" = None
  /\ (production = false -> callable_at reducers "hasOwnProperty" = None).

(** Whether a result is another value than the previous state of its
    key, and the result for a key among the results of a call. *)
Definition changed (m : memory) (state : value) (entry : string * value) : bool :=
  strict_ne (snd entry) (previous m state (fst entry)).

Definition result_for (results : list (string * value)) (k : string) : value :=
  default VUndefined (lookup_key k results).

End CombineReducersVocabulary.

(** ** createStore *)

Section StoreVocabulary.
Import JS Store.

(** The listeners registered in [s]: the contents of [nextListeners]. *)
Definition registered (s : store) : list value := array s (nextListeners s).

(** [nextListeners] refers to an array. *)
Definition valid (s : store) : Prop := nextListeners s < length (arrays s).

(** The array at [a] will not be written to: it is not the one
    [nextListeners] refers to, or it is, but [currentListeners] refers to
    it as well, so that it is copied before any write. *)
Definition frozen (s : store) (a : nat) : Prop :=
  a < length (arrays s)
  /\ (a <> nextListeners s \/ nextListeners s = currentListeners s).

(** From [s] to [s'], every frozen array stays frozen and keeps its
    contents. *)
Definition stable (s s' : store) : Prop :=
  valid s ->
  valid s' /\ forall a, frozen s a -> frozen s' a /\ arrays s' !! a = arrays s !! a.

(** From [s], where a dispatch is in flight, to [s']: the flag is still
    set, and the state and the listeners are what they were. *)
Definition guarded (s s' : store) : Prop :=
  isDispatching s = true ->
  isDispatching s' = true
  /\ currentState s' = currentState s
  /\ arrays s' = arrays s
  /\ nextListeners s' = nextListeners s
  /\ currentListeners s' = currentListeners s
  /\ subscriptions s' = subscriptions s.

(** Started while no dispatch is in flight, [c] ends, when it ends, with
    no dispatch in flight. *)
Definition settles {A} (c : Comp store A) : Prop :=
  forall s r s',
    c s = (r, s') -> isDispatching s = false -> r <> OutOfFuel -> isDispatching s' = false.

(** Whatever [c] returns or throws, [c'] does as well: [c'] is [c] with
    fuel to spare. *)
Definition refines {A} (c c' : Comp store A) : Prop :=
  forall s r s', c s = (r, s') -> r <> OutOfFuel -> c' s = (r, s').

(** A plain object whose [type] is not [undefined]. *)
Definition valid_action (s : store) (action : value) : Prop :=
  isPlainObject (heap (mem s)) action = true
  /\ exists t, get_property (heap (mem s)) action "type" = Returned t /\ t <> VUndefined.

End StoreVocabulary.

(** ** applyMiddleware *)

Section ApplyMiddlewareVocabulary.
Import JS ApplyMiddleware.

(** What [middlewareAPI] is once the chain is built. *)
Definition middlewareAPI_of {W : Type} (middlewares : list (Middleware W))
    (store : StoreAPI W) (fuel : nat) : MiddlewareAPI W :=
  MkMiddlewareAPI (getState store)
    (match fuel with
     | 0 => fun _ => out_of_fuel
     | S fuel' => chained middlewares store fuel'
     end).

(** A middleware that appends [tag] to a shared log, then forwards. *)
Definition logging {W : Type} (tag : string) : Middleware (list string * W) :=
  fun api next action => fun w => next action (fst w ++ [tag], snd w).

End ApplyMiddlewareVocabulary.

(** ** combineReducers: the mapping and the warnings *)

Section MappingVocabulary.
Import JS CombineReducers.

(** The entries of the mapping that are functions, in the order of the
    mapping. *)
Definition callables (reducers : list (string * candidate)) : list (string * reducer) :=
  omap (fun entry : string * candidate =>
          match snd entry with
          | Callable r => Some (fst entry, r)
          | NotCallable _ => None
          end) reducers.

(** The warnings for the entries of the mapping that are [undefined]. *)
Definition missing (reducers : list (string * candidate)) : list warning_message :=
  omap (fun entry : string * candidate =>
          match snd entry with
          | NotCallable VUndefined => Some (NoReducerForKey (fst entry))
          | _ => None
          end) reducers.

(** A reducer that, given no state and an action with a type, returns a
    value other than [undefined]. *)
Definition defined_when_probed (r : reducer) : Prop :=
  forall m action t, has_type m action t ->
    exists v m', r VUndefined action m = (Returned v, m') /\ v <> VUndefined.


(** The keys of the state that have no reducer, are not in the cache of
    keys warned about, and are not the name of a property of
    [Object.prototype], which a read of the cache would find. *)
Definition unexpected (h : list object) (reducers : list (string * reducer))
    (cached : list string) (state : value) : list string :=
  List.filter
    (fun key => negb (hasOwnProperty reducers key)
                && negb (bool_decide (key ∈ cached))
                && negb (hasOwnProperty object_prototype key))
    (object_keys h state).

(** The keys in the cache [id]. *)
Definition cached_keys (m : memory) (id : nat) : list string :=
  default [] (keyCaches m !! id).

End MappingVocabulary.

(** ** createStore: subscriptions, the stores of the first dispatches, runs of dispatches *)

Section SubscriptionVocabulary.
Import JS Store.
(** The listeners of the subscriptions whose [isSubscribed] is still
    true, in the order of the calls of [subscribe]. *)
Definition subscribed (s : store) : list value :=
  omap (fun sub : value * bool => if snd sub then Some (fst sub) else None) (subscriptions s).

(** The listener array holds the subscribed listeners, each as often as
    it is subscribed. *)
Definition tracked (s : store) : Prop :=
  valid s /\ registered s ≡ₚ subscribed s.

(** From [s] to [s'], the listener array keeps to the subscriptions. *)
Definition tracking (s s' : store) : Prop := tracked s -> tracked s'.

(** The store in which [replaceReducer] dispatches: the new reducer is
    in place, and the action [{ type: ActionTypes.REPLACE }] is at the
    end of the heap. *)
Definition replacing (actionTypes : action_types) (nextReducer : value) (s : store) : store :=
  set_mem
    (set_heap (heap (mem s) ++ [Object true [("type", VStr (REPLACE actionTypes))]]) (mem s))
    (set_currentReducer nextReducer s).

(** The store in which [createStore] dispatches: the variables have
    their first values, and the action [{ type: ActionTypes.INIT }] is
    at the end of the heap. *)
Definition initializing (actionTypes : action_types) (reducer preloadedState : value)
    (m : memory) : store :=
  MkStore (set_heap (heap m ++ [Object true [("type", VStr (INIT actionTypes))]]) m)
    reducer preloadedState 0 0 false [[]] [] [].

(** The reducer [r] applied to the actions in turn, from [state] on. *)
Fixpoint reduced (r : value -> value -> Comp memory value) (actions : list value)
    (state : value) : Comp memory value :=
  match actions with
  | [] => ret state
  | action :: rest => bind (r state action) (reduced r rest)
  end.

(** A reducer that writes to no object that was there, whatever it is
    given and whatever comes of the call. *)
Definition writes_nothing (r : value -> value -> Comp memory value) : Prop :=
  forall state action, preserves extends (r state action).

(** A listener that, called while no dispatch is in flight, returns and
    leaves the store as it is. *)
Definition quiet (call : value -> list value -> Comp store value) (listener : value) : Prop :=
  forall s, isDispatching s = false -> exists v, call listener [] s = (Returned v, s).

End SubscriptionVocabulary.

(** ** Scenarios *)

Section CombineReducersFixtures.
Import JS CombineReducers.

Definition sampleTypes : action_types := ActionTypes "@@redux/INIT" "@@redux/REPLACE".

Definition sampleSuffix (n : nat) : string := "7.k.2".

(** [(state, action) => typeof state === 'number' ? state + 1 : 0] *)
Definition ra : reducer :=
  fun state action =>
    match state with
    | VNum n => ret (VNum (n + 1))
    | _ => ret (VNum 0)
    end.

(** [(state = 0, action) => state] *)
Definition rb : reducer :=
  fun state action =>
    match state with
    | VUndefined => ret (VNum 0)
    | _ => ret state
    end.

(** [state => state]: [undefined] when it is given no state. *)
Definition badReducer : reducer := fun state action => ret state.

Definition emptyMemory : memory := Memory [] [] [] 0.

(** [combineReducers({a: ra, b: rb})] *)
Definition sampleComposed : composed :=
  Composed [("a", ra); ("b", rb)] ["a"; "b"] (Some 0) None.

(** The previous state [{a: 1, b: 7, extra: true}], at reference 0. *)
Definition sampleState : object :=
  Object true [("a", VNum 1); ("b", VNum 7); ("extra", VBool true)].

(** The action [{type: "INC"}], at reference 1. *)
Definition sampleAction : object := Object true [("type", VStr "INC")].

Definition sampleMemory : memory := Memory [sampleState; sampleAction] [] [[]] 2.

(** [(state, action) => ({was: state})]: a new object at every call. *)
Definition boxing : reducer := fun state action => new_object [("was", state)].

(** [combineReducers({a: ra, box: boxing})] *)
Definition boxingComposed : composed :=
  Composed [("a", ra); ("box", boxing)] ["a"; "box"] (Some 0) None.

End CombineReducersFixtures.

Section StoreFixtures.
Import JS Store.

(** The reducer
    [(state = 0, action) => action.type === 'INC' ? state + 1 : state]
    of a state that is a number (it returns any other state as it is),
    which here also throws on an action of type ['FAIL']. *)
Definition counter (state action : value) : Comp memory value :=
  bind (get action "type") (fun type =>
  let state := if strict_eq state VUndefined then VNum 0 else state in
  if strict_eq type (VStr "FAIL") then throw (UserError (VStr "boom"))
  else if strict_eq type (VStr "INC")
       then ret (match state with VNum n => VNum (n + 1) | _ => state end)
       else ret state).

(** The functions of the application: 0 is the reducer; 1 is the
    listener L1, which unsubscribes L2; 2 is the listener L2. *)
Definition sampleCode (n : nat) (args : list value) : prog :=
  match n with
  | 0 => Mem (counter (nth 0 args VUndefined) (nth 1 args VUndefined)) Ret
  | 1 => Call (VFun (UnsubscribeFn 1)) [] Ret
  | _ => Ret VUndefined
  end.

Definition L1 : value := VFun (UserFn 1).

Definition L2 : value := VFun (UserFn 2).

(** The actions [{type: 'INC'}] and [{type: 'FAIL'}], at 0 and 1. *)
Definition clientMemory : memory :=
  Memory [Object true [("type", VStr "INC")]; Object true [("type", VStr "FAIL")]] [] [] 0.

Definition storeMemory : memory :=
  Memory [Object true [("type", VStr "INC")]; Object true [("type", VStr "FAIL")];
          Object true [("type", VStr "@@redux/INIT")]] [] [] 0.

(** The store of [createStore(counter)]. *)
Definition newStore : store :=
  MkStore storeMemory (VFun (UserFn 0)) (VNum 0) 0 0 false [[]] [] [].

(** The same after [subscribe(L1)] and [subscribe(L2)]. *)
Definition sampleStore : store :=
  MkStore storeMemory (VFun (UserFn 0)) (VNum 0) 0 1 false
    [[]; [L1; L2]] [(L1, true); (L2, true)] [].

(** The same after [dispatch({type: 'INC'})]. *)
Definition storeAfterINC : store :=
  MkStore storeMemory (VFun (UserFn 0)) (VNum 1) 1 2 false
    [[]; [L1; L2]; [L1]] [(L1, true); (L2, false)] [].

Definition sampleCall : value -> list value -> Comp store value :=
  invoke sampleTypes sampleCode 5.

End StoreFixtures.

Section MiddlewareFixtures.
Import JS ApplyMiddleware.

(** A computation on the store, in a world that has a log beside the
    store. *)
Definition on_store {A} (c : Comp Store.store A) : Comp (list string * Store.store) A :=
  fun w => let (r, s) := c (snd w) in (r, (fst w, s)).

(** The object [createStore] returns, for the store of that world. *)
Definition loggedStoreAPI : StoreAPI (list string * Store.store) :=
  MkStoreAPI
    (fun action => on_store (Store.dispatch sampleCall 5 action))
    (fun listener => on_store (Store.subscribe listener))
    (on_store Store.getState)
    (fun nextReducer => on_store (Store.replaceReducer sampleTypes sampleCall 5 nextReducer))
    (fun observer => on_store (Store.observable_subscribe sampleCall observer)).

(** [createStore(reducer, preloadedState)] in that world. *)
Definition createLoggedStore (args : value * value)
    : Comp (list string * Store.store) (StoreAPI (list string * Store.store)) :=
  fun w =>
    match Store.createStore sampleTypes sampleCall 5 (fst args) (snd args) (Store.mem (snd w)) with
    | (Returned s, _) => (Returned loggedStoreAPI, (fst w, s))
    | (Thrown e, m) => (Thrown e, (fst w, Store.set_mem m (snd w)))
    | (OutOfFuel, m) => (OutOfFuel, (fst w, Store.set_mem m (snd w)))
    end.

(** The world before the store is made: an empty log, the client's
    memory. *)
Definition worldBefore : list string * Store.store :=
  ([], Store.MkStore clientMemory VUndefined VUndefined 0 0 false [] [] []).

End MiddlewareFixtures.

Section FurtherFixtures.
Import JS Store CombineReducers.

(** The functions of a second application: 0 is the reducer [counter];
    1 is a listener that throws; the others do nothing. *)
Definition faultyCode (n : nat) (args : list value) : prog :=
  match n with
  | 0 => Mem (counter (nth 0 args VUndefined) (nth 1 args VUndefined)) Ret
  | 1 => Throw (UserError (VStr "late"))
  | _ => Ret VUndefined
  end.

(** The store of [createStore(counter)] after [subscribe] of the
    listener that throws. *)
Definition faultyStore : store :=
  MkStore storeMemory (VFun (UserFn 0)) (VNum 0) 0 1 false
    [[]; [VFun (UserFn 1)]] [(VFun (UserFn 1), true)] [].

(** The memory of the store with an observer [{next}] at 3, whose
    [next] is the function 2 of the sample application, which does
    nothing. *)
Definition observerMemory : memory :=
  Memory [Object true [("type", VStr "INC")]; Object true [("type", VStr "FAIL")];
          Object true [("type", VStr "@@redux/INIT")];
          Object true [("next", VFun (UserFn 2))]] [] [] 0.

(** The store of [createStore(counter)] in that memory, and the same
    after the observable's [subscribe] of the observer. *)
Definition unobservedStore : store :=
  MkStore observerMemory (VFun (UserFn 0)) (VNum 0) 0 0 false [[]] [] [].

Definition observedStore : store :=
  MkStore
    (set_heap (heap observerMemory ++ [Object true [("unsubscribe", VFun (UnsubscribeFn 0))]])
       observerMemory)
    (VFun (UserFn 0)) (VNum 0) 0 1 false
    [[]; [VFun (ObserveStateFn 0)]] [(VFun (ObserveStateFn 0), true)] [VObj 3].

(** A reducer that throws whatever it is given, and one that forgets
    its state: it returns [undefined] once it has a state. *)
Definition throwing : reducer := fun state action => throw (UserError (VStr "no")).

Definition forgetful : reducer :=
  fun state action =>
    match state with
    | VUndefined => ret (VNum 0)
    | _ => ret VUndefined
    end.

(** A reducer that throws once it has a state. *)
Definition late : reducer :=
  fun state action =>
    match state with
    | VUndefined => ret (VNum 0)
    | _ => throw (UserError (VStr "late"))
    end.

(** [combineReducers({a: ra, x: forgetful, z: late})], and a memory with
    the state [{a: 1, x: 5, z: 9}] at 0 and the action [{type: "INC"}]
    at 1. *)
Definition forgetfulComposed : composed :=
  Composed [("a", ra); ("x", forgetful); ("z", late)] ["a"; "x"; "z"] (Some 0) None.

Definition forgetfulMemory : memory :=
  Memory [Object true [("a", VNum 1); ("x", VNum 5); ("z", VNum 9)]; sampleAction]
    [] [[]] 6.


(** A memory with the state [{a: 1, extra: true, constructor: 3}] at 0
    and the action [{type: "INC"}] at 1. *)
Definition oddMemory : memory :=
  Memory [Object true [("a", VNum 1); ("extra", VBool true); ("constructor", VNum 3)];
          sampleAction] [] [[]] 2.

(** The memory [combineReducers({a: ra, b: rb})] leaves when it starts
    from the empty one. *)
Definition composedMemory : memory :=
  Memory [Object true [("type", VStr "@@redux/INIT")];
          Object true [("type", VStr "@@redux/PROBE_UNKNOWN_ACTION_7.k.2")];
          Object true [("type", VStr "@@redux/INIT")];
          Object true [("type", VStr "@@redux/PROBE_UNKNOWN_ACTION_7.k.2")]]
    [] [[]] 2.

(** The functions of a third application: 0 is the reducer [counter];
    the others are listeners that read the state of the store. *)
Definition pollingCode (n : nat) (args : list value) : prog :=
  match n with
  | 0 => Mem (counter (nth 0 args VUndefined) (nth 1 args VUndefined)) Ret
  | _ => GetState (fun state => Ret VUndefined)
  end.

(** The store of [createStore(counter)] after [subscribe] of such a
    listener. *)
Definition pollingStore : store :=
  MkStore storeMemory (VFun (UserFn 0)) (VNum 0) 0 1 false
    [[]; [VFun (UserFn 2)]] [(VFun (UserFn 2), true)] [].

(** The functions of a fourth application: 0 is the reducer
    [combineReducers({a: ra, b: rb})]. *)
Definition treeCode (n : nat) (args : list value) : prog :=
  match n with
  | 0 => Mem (combination false sampleTypes sampleComposed (nth 0 args VUndefined)
                (nth 1 args VUndefined)) Ret
  | _ => Ret VUndefined
  end.

(** A mapping with entries that are not functions. *)
Definition mixedReducers : list (string * candidate) :=
  [("a", Callable ra); ("n", NotCallable VNull); ("u", NotCallable VUndefined);
   ("b", Callable rb)].

End FurtherFixtures.

Section FurtherMiddlewareFixtures.
Import JS ApplyMiddleware.

(** A middleware that answers every action itself. *)
Definition swallowing {W : Type} : Middleware W := fun api next action => ret action.

End FurtherMiddlewareFixtures.

(* ===================================================================== *)
(** * Part III. Theorems                                                  *)
(* ===================================================================== *)

(** ** compose *)

Section ComposeTheorems.
Import JS Compose.

Lemma compose_cons2 {M : Type -> Type} `{Calls M} {T : Type}
    (f g : T -> M T) (rest : list (T -> M T)) :
  compose (f :: g :: rest) = fold_left pipe (g :: rest) f.
Proof. reflexivity. Qed.

(** Adding a function at the right end of a non-empty pipe: it is called
    first, on the original argument, and its result goes to the pipe of
    the functions to its left. *)
Lemma compose_snoc {M : Type -> Type} `{Calls M} {T : Type}
    (f : T -> M T) (fs : list (T -> M T)) (last : T -> M T) (x : T) :
  compose ((f :: fs) ++ [last]) x = call_then (last x) (compose (f :: fs)).
Proof.
  destruct fs as [|g fs]; [reflexivity|].
  change ((f :: g :: fs) ++ [last]) with (f :: g :: (fs ++ [last])).
  rewrite !compose_cons2.
  change (g :: fs ++ [last]) with ((g :: fs) ++ [last]).
  rewrite fold_left_app. reflexivity.
Qed.

(** Pure functions: the pipe is nested application, the first function
    outermost. *)
Lemma compose_pure_fold {T : Type} (fs : list (T -> T)) (x : T) :
  compose (M := fun A => A) fs x = fold_right (fun f y => f y) x fs.
Proof.
  destruct fs as [|f fs]; [reflexivity|].
  revert x. induction fs as [|g fs IH] using rev_ind; intros x; [reflexivity|].
  change (f :: fs ++ [g]) with ((f :: fs) ++ [g]).
  rewrite (compose_snoc (M := fun A => A)), fold_right_app.
  cbn [call_then pure_calls]. apply IH.
Qed.

(** C5.  [compose()] is the identity; [compose(f)] is [f] itself;
    [compose(f, g, h)(x)] is [f(g(h(x)))].  With functions that have
    effects, [h] is called first, on the original argument, then [g] on
    its result, then [f]; and so for any number of functions. *)
Theorem compose_right_to_left :
  (forall (T : Type) (x : T), compose (M := fun A => A) [] x = x)
  /\ (forall (M : Type -> Type) (C : Calls M) (T : Type) (f : T -> M T),
        compose [f] = f)
  /\ (forall (T : Type) (f g h : T -> T) (x : T),
        compose (M := fun A => A) [f; g; h] x = f (g (h x)))
  /\ (forall (W T : Type) (f g h : T -> Comp W T) (x : T),
        compose [f; g; h] x = bind (h x) (fun y => bind (g y) f))
  /\ (forall (W T : Type) (x : T), compose (M := Comp W) [] x = ret x)
  /\ (forall (T : Type) (fs : list (T -> T)) (x : T),
        compose (M := fun A => A) fs x = fold_right (fun f y => f y) x fs).
Proof.
  repeat split; try reflexivity.
  intros T fs x. apply compose_pure_fold.
Qed.

End ComposeTheorems.

(** ** applyMiddleware *)

Section ApplyMiddlewareTheorems.
Import JS Compose ApplyMiddleware.

(** The composed chain is the wrappers nested in declaration order: the
    first middleware is outermost, its [next] is the second applied to
    its own [next], and the innermost [next] is the store's [dispatch]. *)
Lemma chained_nested {W : Type} (middlewares : list (Middleware W))
    (store : StoreAPI W) (fuel : nat) :
  chained middlewares store fuel
  = fold_right (fun (middleware : Middleware W) next =>
                  middleware (middlewareAPI_of middlewares store fuel) next)
      (dispatch store) middlewares.
Proof.
  assert (nested : forall (api : MiddlewareAPI W) (ms : list (Middleware W)),
             fold_right (fun f y => f y) (dispatch store)
               (map (fun middleware : Middleware W => middleware api) ms)
             = fold_right (fun (middleware : Middleware W) next => middleware api next)
                 (dispatch store) ms).
  { intros api ms. induction ms as [|m ms IH]; [reflexivity|].
    cbn [map fold_right]. rewrite IH. reflexivity. }
  destruct fuel as [|fuel]; cbn [chained];
    rewrite (compose_pure_fold (T := value -> Comp W value)); apply nested.
Qed.

(** C6.  Middleware run in declaration order on the way in: the enhanced
    [dispatch] hands the action to the first middleware, whose [next] is
    the second one, and so on down to the store's own [dispatch]; the
    store [applyMiddleware] returns has that chain as its [dispatch].
    With [mid1] logging "a" and [mid2] logging "b" before forwarding, one
    dispatch reaches the store's [dispatch] with "a" then "b" logged. *)
Theorem applyMiddleware_declaration_order :
  (forall (W : Type) (middlewares : list (Middleware W)) (store : StoreAPI W)
          (fuel : nat),
      chained middlewares store fuel
      = fold_right (fun (middleware : Middleware W) next =>
                      middleware (middlewareAPI_of middlewares store fuel) next)
          (dispatch store) middlewares)
  /\ (forall (W : Type) (m1 m2 : Middleware W) (store : StoreAPI W) (fuel : nat)
             (action : value),
        chained [m1; m2] store fuel action
        = m1 (middlewareAPI_of [m1; m2] store fuel)
             (m2 (middlewareAPI_of [m1; m2] store fuel) (dispatch store)) action)
  /\ (forall (W Args : Type) (fuel : nat) (middlewares : list (Middleware W))
             (createStore : Args -> Comp W (StoreAPI W)) (args : Args) (w : W),
        applyMiddleware fuel middlewares createStore args w
        = match createStore args w with
          | (Returned store, w') =>
              (Returned (MkStoreAPI (chained middlewares store fuel) (subscribe store)
                           (getState store) (replaceReducer store) (observable store)),
               w')
          | (Thrown e, w') => (Thrown e, w')
          | (OutOfFuel, w') => (OutOfFuel, w')
          end)
  /\ (forall (W : Type) (store : StoreAPI (list string * W)) (fuel : nat)
             (action : value) (log : list string) (w : W),
        chained [logging "a"; logging "b"] store fuel action (log, w)
        = dispatch store action (log ++ ["a"; "b"], w)).
Proof.
  split; [|split; [|split]].
  - intros. apply chained_nested.
  - intros. rewrite chained_nested. reflexivity.
  - intros. reflexivity.
  - intros. rewrite chained_nested. cbn [fold_right logging fst snd].
    rewrite <- app_assoc. reflexivity.
Qed.

End ApplyMiddlewareTheorems.

(** ** Property lists *)

Section PropertyFacts.
Import JS.
Context {V : Type}.
Implicit Types (ps : list (string * V)) (k : string) (v : V).

Lemma lookup_key_assign_eq ps k v : lookup_key k (assign k v ps) = Some v.
Proof.
  induction ps as [|[k' v'] ps IH]; cbn.
  - rewrite bool_decide_eq_true_2; done.
  - destruct (bool_decide_reflect (k' = k)) as [->|Hne]; cbn.
    + rewrite bool_decide_eq_true_2; done.
    + rewrite bool_decide_eq_false_2; done.
Qed.

Lemma lookup_key_assign_ne ps k k' v :
  k <> k' -> lookup_key k' (assign k v ps) = lookup_key k' ps.
Proof.
  intros Hne. induction ps as [|[k0 v0] ps IH]; cbn.
  - rewrite bool_decide_eq_false_2; done.
  - destruct (bool_decide_reflect (k0 = k)) as [->|Hne0]; cbn.
    + rewrite !bool_decide_eq_false_2; done.
    + destruct (bool_decide (k0 = k')); done.
Qed.

Lemma lookup_key_None ps k : lookup_key k ps = None <-> k ∉ keys ps.
Proof.
  induction ps as [|[k' v'] ps IH]; cbn.
  - split; [intros _; apply not_elem_of_nil | done].
  - rewrite not_elem_of_cons.
    destruct (bool_decide_reflect (k' = k)) as [->|Hne]; split; try done.
    + intros [? _]; done.
    + intros H; split; [congruence | by apply IH].
    + intros [_ H]; by apply IH.
Qed.

Lemma lookup_key_Some_keys ps k v : lookup_key k ps = Some v -> k ∈ keys ps.
Proof.
  intros H. destruct (decide (k ∈ keys ps)) as [|Hn]; [done|].
  apply lookup_key_None in Hn. congruence.
Qed.

Lemma keys_lookup_key ps k : k ∈ keys ps -> is_Some (lookup_key k ps).
Proof.
  intros Hin. destruct (lookup_key k ps) eqn:E; [eauto|].
  apply lookup_key_None in E. done.
Qed.

(** Assigning a new key appends it. *)
Lemma assign_new ps k v : k ∉ keys ps -> assign k v ps = ps ++ [(k, v)].
Proof.
  induction ps as [|[k' v'] ps IH]; cbn; [done|].
  rewrite not_elem_of_cons. intros [Hne Hnot].
  rewrite bool_decide_eq_false_2 by congruence. by rewrite IH.
Qed.

(** Assigning an existing key keeps the keys and their order. *)
Lemma keys_assign_old ps k v : k ∈ keys ps -> keys (assign k v ps) = keys ps.
Proof.
  unfold keys. induction ps as [|[k' v'] ps IH]; cbn.
  - intros H; by apply elem_of_nil in H.
  - destruct (bool_decide_reflect (k' = k)) as [->|Hne]; cbn; [done|].
    rewrite elem_of_cons. intros [?|Hin]; [congruence|]. by rewrite IH.
Qed.

Lemma keys_assign_NoDup ps k v : NoDup (keys ps) -> NoDup (keys (assign k v ps)).
Proof.
  intros Hnd. destruct (decide (k ∈ keys ps)) as [Hin|Hnot].
  - by rewrite keys_assign_old.
  - rewrite assign_new by done. unfold keys. rewrite map_app. cbn.
    apply NoDup_app. split; [done|]. split.
    + intros x Hx Hx'. apply list_elem_of_singleton in Hx'. subst. done.
    + apply NoDup_singleton.
Qed.

Lemma lookup_key_elem_of ps k v : lookup_key k ps = Some v -> (k, v) ∈ ps.
Proof.
  induction ps as [|[k' v'] ps IH]; [done|]. cbn.
  destruct (bool_decide_reflect (k' = k)) as [->|Hne].
  - intros [= ->]. by left.
  - intros Hk. right. by apply IH.
Qed.

Lemma elem_of_lookup_key ps k v : NoDup (keys ps) -> (k, v) ∈ ps -> lookup_key k ps = Some v.
Proof.
  induction ps as [|[k' v'] ps IH]; [intros _ Hin; by apply elem_of_nil in Hin|].
  cbn [keys map fst]. intros Hnd Hin. apply NoDup_cons in Hnd as [Hnew Hnd]. cbn.
  apply elem_of_cons in Hin as [[= -> ->]|Hin].
  - by rewrite bool_decide_eq_true_2.
  - rewrite bool_decide_eq_false_2; [by apply IH|].
    intros ->. apply Hnew. change k with (fst (k, v)). by apply list_elem_of_fmap_2.
Qed.

End PropertyFacts.

(** ** Property reads *)

Section ReadFacts.
Import JS.

(** A name that [Object.prototype] does not have is read from the
    object's own properties alone. *)
Lemma inherited_none o k : lookup_key k object_prototype = None -> inherited o k = VUndefined.
Proof. unfold inherited. intros ->. by destruct (plain o). Qed.

End ReadFacts.

(** ** combineReducers *)

Section CombineReducersFacts.
Import JS CombineReducers.
Variable production : bool.
Variable actionTypes : action_types.
Variable random_suffix : nat -> string.

Lemma collect_spec reducers ks final m :
  exists final' m',
    collect production reducers ks final m = (Returned final', m')
    /\ heap m' = heap m
    /\ (NoDup (keys final) -> NoDup (keys final'))
    /\ forall k,
         lookup_key k final'
         = match callable_at reducers k with
           | Some r => if decide (k ∈ ks) then Some r else lookup_key k final
           | None => lookup_key k final
           end.
Proof.
  revert final m. induction ks as [|key rest IH]; intros final m.
  - exists final, m. repeat split; [done|].
    intros k. destruct (callable_at reducers k); [|done].
    destruct (decide (k ∈ [])) as [Hin|]; [by apply elem_of_nil in Hin|done].
  - cbn [collect]. unfold bind at 1.
    assert (Hwarn : exists m1,
               (if negb production
                then match lookup_key key reducers with
                     | Some (NotCallable VUndefined) | None => warning (NoReducerForKey key)
                     | _ => ret tt
                     end
                else ret tt) m = (Returned tt, m1) /\ heap m1 = heap m).
    { destruct production; cbn; [by eexists|].
      destruct (lookup_key key reducers) as [[r|[]]|]; cbn; by eexists. }
    destruct Hwarn as (m1 & -> & Hm1).
    destruct (lookup_key key reducers) as [[r|v]|] eqn:Hkey.
    + destruct (IH (assign key r final) m1) as (final' & m' & Hrun & Hheap & Hnd & Hlook).
      exists final', m'. split; [done|]. split; [congruence|]. split.
      * intros Hfinal. apply Hnd. by apply keys_assign_NoDup.
      * intros k. rewrite Hlook.
        destruct (callable_at reducers k) as [rk|] eqn:Hk.
        -- destruct (decide (k ∈ rest)) as [Hin|Hnin].
           ++ rewrite decide_True; [done | by apply elem_of_cons; right].
           ++ destruct (decide (key = k)) as [->|Hne].
              ** rewrite decide_True by (apply elem_of_cons; by left).
                 rewrite lookup_key_assign_eq. unfold callable_at in Hk.
                 rewrite Hkey in Hk. done.
              ** rewrite decide_False.
                 { by apply lookup_key_assign_ne. }
                 rewrite elem_of_cons. intros [?|?]; [congruence|done].
        -- destruct (decide (key = k)) as [->|Hne].
           ++ unfold callable_at in Hk. rewrite Hkey in Hk. done.
           ++ by apply lookup_key_assign_ne.
    + destruct (IH final m1) as (final' & m' & Hrun & Hheap & Hnd & Hlook).
      exists final', m'. split; [done|]. split; [congruence|]. split; [done|].
      intros k. rewrite Hlook.
      destruct (callable_at reducers k) as [rk|] eqn:Hk; [|done].
      destruct (decide (k ∈ rest)) as [Hin|Hnin].
      * rewrite decide_True; [done | by apply elem_of_cons; right].
      * rewrite decide_False; [done|].
        rewrite elem_of_cons. intros [->|?]; [|done].
        unfold callable_at in Hk. rewrite Hkey in Hk. done.
    + destruct (IH final m1) as (final' & m' & Hrun & Hheap & Hnd & Hlook).
      exists final', m'. split; [done|]. split; [congruence|]. split; [done|].
      intros k. rewrite Hlook.
      destruct (callable_at reducers k) as [rk|] eqn:Hk; [|done].
      destruct (decide (k ∈ rest)) as [Hin|Hnin].
      * rewrite decide_True; [done | by apply elem_of_cons; right].
      * rewrite decide_False; [done|].
        rewrite elem_of_cons. intros [->|?]; [|done].
        unfold callable_at in Hk. rewrite Hkey in Hk. done.
Qed.

(** [combineReducers] is the shape check run on the callable entries;
    what the check throws is kept, not thrown. *)
Lemma combineReducers_run reducers m :
  exists final cache m2,
    NoDup (keys final)
    /\ (forall k, lookup_key k final = callable_at reducers k)
    /\ (production = false -> is_Some cache)
    /\ combineReducers production actionTypes random_suffix reducers m
       = match assertReducerShape actionTypes random_suffix final m2 with
         | (Returned _, m3) => (Returned (Composed final (keys final) cache None), m3)
         | (Thrown e, m3) => (Returned (Composed final (keys final) cache (Some e)), m3)
         | (OutOfFuel, m3) => (OutOfFuel, m3)
         end.
Proof.
  destruct (collect_spec reducers (keys reducers) [] m)
    as (final & m1 & Hrun & Hheap & Hnd & Hlook).
  assert (Hfinal : forall k, lookup_key k final = callable_at reducers k).
  { intros k. rewrite Hlook. destruct (callable_at reducers k) as [r|] eqn:Hk; [|done].
    rewrite decide_True; [done|]. unfold callable_at in Hk.
    destruct (lookup_key k reducers) as [cand|] eqn:E; [|done].
    by eapply lookup_key_Some_keys. }
  assert (Hnd' : NoDup (keys final)) by (apply Hnd; constructor).
  unfold combineReducers, bind at 1. rewrite Hrun.
  destruct production; cbn [negb].
  - exists final, None, m1. split; [done|]. split; [done|]. split; [done|].
    unfold bind, ret, try_catch.
    destruct (assertReducerShape actionTypes random_suffix final m1) as [[[]|e|] m3]; done.
  - exists final, (Some (length (keyCaches m1))),
      (Memory (heap m1) (console m1) (keyCaches m1 ++ [[]]) (draws m1)).
    split; [done|]. split; [done|]. split.
    + intros _. by eexists.
    + unfold bind at 1. unfold new_key_cache at 1. unfold bind, ret, try_catch.
      destruct (assertReducerShape _ _ final _) as [[[]|e|] m3]; reflexivity.
Qed.

Lemma combineReducers_inv reducers m c m' :
  combineReducers production actionTypes random_suffix reducers m = (Returned c, m') ->
  finalReducerKeys c = keys (finalReducers c)
  /\ NoDup (finalReducerKeys c)
  /\ (forall k, lookup_key k (finalReducers c) = callable_at reducers k)
  /\ (production = false -> is_Some (unexpectedKeyCache c)).
Proof.
  destruct (combineReducers_run reducers m) as (final & cache & m2 & Hnd & Hlook & Hc & ->).
  destruct (assertReducerShape _ _ final m2) as [[[]|e|] m3]; intros [= <- <-]; done.
Qed.

(** *** The shape check *)

Lemma new_object_lookup ps m :
  exists m1,
    new_object ps m = (Returned (VObj (length (heap m))), m1)
    /\ heap m1 = heap m ++ [Object true ps].
Proof. by eexists. Qed.


Lemma probe_action_has_type m action t : probe_action m action t -> has_type m action t.
Proof. intros (l & -> & Hl). unfold has_type, get_property. by rewrite Hl. Qed.

Lemma new_probe_action t m :
  exists m1,
    new_object [("type", VStr t)] m = (Returned (VObj (length (heap m))), m1)
    /\ probe_action m1 (VObj (length (heap m))) t.
Proof.
  eexists. split; [reflexivity|]. exists (length (heap m)). split; [done|].
  cbn [heap set_heap]. by rewrite list_lookup_middle.
Qed.

Lemma typeof_undefined v : typeof v = TUndefined <-> v = VUndefined.
Proof. destruct v as [| | | | | | |[]]; split; intros H; try done. Qed.

(** *** The diagnostics of [combination] return and leave the heap alone *)

Lemma get_truthy action k m :
  truthy action = true -> exists v, get action k m = (Returned v, m).
Proof.
  unfold get, get_property.
  destruct action as [| | | | |l| |[]]; try done; intros _; try by eexists.
  destruct (heap m !! l); by eexists.
Qed.

Lemma action_is_returns action t m :
  exists b, action_is action t m = (Returned b, m).
Proof.
  unfold action_is. destruct (truthy action) eqn:Ht; [|by eexists].
  destruct (get_truthy action "type" m Ht) as (v & Hv).
  unfold bind. rewrite Hv. by eexists.
Qed.

Lemma reducers_hasOwnProperty_own final key :
  lookup_key "hasOwnProperty" final = None ->
  reducers_hasOwnProperty final key = ret (hasOwnProperty final key).
Proof. unfold reducers_hasOwnProperty. by intros ->. Qed.

Lemma filter_unexpected_returns final id ks m :
  lookup_key "hasOwnProperty" final = None ->
  exists l, filter_unexpected final (Some id) ks m = (Returned l, m).
Proof.
  intros Hown. induction ks as [|key rest (l & IH)]; [by eexists|].
  cbn [filter_unexpected]. rewrite (reducers_hasOwnProperty_own _ _ Hown).
  unfold bind at 1. unfold bind at 1, ret at 1.
  destruct (negb (hasOwnProperty final key)); cbn;
    unfold bind; rewrite IH; by eexists.
Qed.

Lemma cache_add_all_returns id l m :
  exists m', forEach (cache_add (Some id)) l m = (Returned tt, m') /\ heap m' = heap m.
Proof.
  revert m. induction l as [|key rest IH]; intros m; [by eexists|].
  cbn [forEach]. unfold bind, cache_add at 1.
  destruct (IH (Memory (heap m) (console m)
                  (alter (fun ks => if bool_decide (key ∈ ks) || bool_decide (key = "__proto__")
                                    then ks else ks ++ [key])
                     id (keyCaches m)) (draws m))) as (m' & -> & Hm').
  by eexists.
Qed.

Lemma shape_warning_returns state final action id m :
  lookup_key "hasOwnProperty" final = None ->
  exists w m',
    getUnexpectedStateShapeWarningMessage actionTypes state final action (Some id) m
    = (Returned w, m')
    /\ heap m' = heap m.
Proof.
  intros Hown. unfold getUnexpectedStateShapeWarningMessage.
  destruct (action_is_returns action (INIT actionTypes) m) as (b & Hb).
  unfold bind at 1. rewrite Hb.
  destruct (length (keys final) =? 0)%nat; [by eexists _, _|].
  unfold bind at 1, get_world at 1.
  destruct (negb (isPlainObject (heap m) state)); [by eexists _, _|].
  destruct (filter_unexpected_returns final id (object_keys (heap m) state) m Hown)
    as (l & Hl).
  unfold bind at 1. rewrite Hl.
  destruct (cache_add_all_returns id l m) as (m1 & Hadd & Hm1).
  unfold bind at 1. rewrite Hadd.
  destruct (action_is_returns action (REPLACE actionTypes) m1) as (b' & Hb').
  unfold bind at 1. rewrite Hb'.
  destruct b'; [by eexists _, _|].
  destruct (0 <? length l)%nat; by eexists _, _.
Qed.

Lemma diagnostics_return (c : composed) state action m :
  (production = false -> is_Some (unexpectedKeyCache c)) ->
  (production = false -> lookup_key "hasOwnProperty" (finalReducers c) = None) ->
  exists m',
    (if negb production
     then
       bind (getUnexpectedStateShapeWarningMessage actionTypes state (finalReducers c)
               action (unexpectedKeyCache c))
         (fun warningMessage =>
            match warningMessage with
            | Some msg => warning msg
            | None => ret tt
            end)
     else ret tt) m = (Returned tt, m')
    /\ heap m' = heap m.
Proof.
  intros Hcache Hown. destruct production; cbn [negb]; [by eexists|].
  destruct Hcache as [id ->]; [done|].
  destruct (shape_warning_returns state (finalReducers c) action id m (Hown eq_refl))
    as (w & m1 & Hw & Hm1).
  unfold bind. rewrite Hw. destruct w; by eexists.
Qed.

(** *** The loop of [combination] *)

Lemma prefix_insert_ge {A} (l1 l2 : list A) (i : nat) (x : A) :
  l1 `prefix_of` l2 -> length l1 <= i -> l1 `prefix_of` <[i:=x]> l2.
Proof.
  intros [k ->] Hi. rewrite insert_app_r_alt by done. by eexists.
Qed.

Lemma previous_later m0 m l o k :
  heap m0 !! l = Some o ->
  extends m0 m ->
  get (VObj l) k m = (Returned (previous m0 (VObj l) k), m)
  /\ previous m (VObj l) k = previous m0 (VObj l) k.
Proof.
  intros Hl Hext. unfold get, previous, get_property.
  by rewrite Hl, (prefix_lookup_Some _ _ _ _ Hl Hext).
Qed.

Lemma previous_own m l ps k v :
  heap m !! l = Some (Object true ps) ->
  lookup_key k ps = Some v ->
  previous m (VObj l) k = v.
Proof. intros Hl Hk. unfold previous, get_property. rewrite Hl. cbn [props]. by rewrite Hk. Qed.

(** The loop calls the reducers in turn, each in the memory the ones
    before it left, and collects their results in the new object. *)
Lemma combination_loop_run (c : composed) m0 l o action n ks :
  heap m0 !! l = Some o ->
  length (heap m0) <= n ->
  (forall k, k ∈ ks ->
     exists r, lookup_key k (finalReducers c) = Some r
               /\ keeps_contract m0 r (previous m0 (VObj l) k) action) ->
  NoDup ks ->
  forall built hasChanged m,
    extends m0 m ->
    heap m !! n = Some (Object true built) ->
    (forall k, k ∈ ks -> k ∉ keys built) ->
    exists m' results,
      combination_loop c (VObj l) action (VObj n) ks hasChanged m
      = (Returned (hasChanged || existsb (changed m0 (VObj l)) results), m')
      /\ keys results = ks
      /\ extends m0 m'
      /\ heap m' !! n = Some (Object true (built ++ results))
      /\ forall k v, (k, v) ∈ results ->
           v <> VUndefined
           /\ exists r, lookup_key k (finalReducers c) = Some r
                        /\ result_of m0 r (previous m0 (VObj l) k) action v.
Proof.
  intros Hl Hn Hred Hnd.
  induction ks as [|key rest IH]; intros built hasChanged m Hext Hnext Hnew.
  { exists m, []. cbn. rewrite orb_false_r, app_nil_r.
    split; [done|]. split; [done|]. split; [done|]. split; [done|].
    intros k v Hin. by apply elem_of_nil in Hin. }
  apply NoDup_cons in Hnd as [Hkey Hnd].
  destruct (Hred key) as (r & Hr & Hcontract); [by left|].
  cbn [combination_loop]. rewrite Hr.
  unfold bind at 1. rewrite (proj1 (previous_later m0 m l o key Hl Hext)).
  destruct (Hcontract m Hext) as (v & m2 & Hrun & Hdef & Hext2).
  unfold bind at 1. rewrite Hrun.
  rewrite bool_decide_eq_false_2 by (by rewrite typeof_undefined).
  assert (Hn2 : heap m2 !! n = Some (Object true built))
    by (eapply prefix_lookup_Some; eauto).
  unfold bind at 1. unfold set_property at 1. rewrite Hn2. cbn [plain props].
  rewrite assign_new by (apply Hnew; by left).
  set (m3 := set_heap _ m2).
  destruct (IH (fun k Hk => Hred k (list_elem_of_further _ _ _ Hk)) Hnd
              (built ++ [(key, v)])
              (hasChanged || strict_ne v (previous m0 (VObj l) key)) m3)
    as (m' & results & Hloop & Hkeys & Hext' & Hbuilt & Hresults).
  - unfold extends, m3. cbn [heap set_heap]. apply prefix_insert_ge; [|done].
    etrans; [exact Hext | exact Hext2].
  - unfold m3. cbn [heap set_heap]. apply list_lookup_insert_eq.
    by eapply lookup_lt_Some.
  - intros k Hk. unfold keys. rewrite map_app. cbn. rewrite elem_of_app.
    intros [Hin|Hin].
    + by apply (Hnew k (list_elem_of_further _ _ _ Hk)).
    + apply list_elem_of_singleton in Hin. subst. done.
  - exists m', ((key, v) :: results). split; [|split; [|split; [done|split]]].
    + rewrite Hloop. cbn [existsb]. unfold changed at 2. cbn [fst snd].
      by rewrite orb_assoc.
    + cbn [keys map fst]. by rewrite <- Hkeys.
    + rewrite Hbuilt. by rewrite <- app_assoc.
    + intros k v' Hin. apply elem_of_cons in Hin as [[= -> ->]|Hin]; [|by apply Hresults].
      split; [exact Hdef|]. exists r. split; [exact Hr|]. by exists m, m2.
Qed.

(** What a call of [combination] does, for a composed reducer that
    passed the shape check, a state object at [l], and reducers that keep
    to their contract: it returns the object it built at the first free
    reference when a result differs from the previous state of its key,
    and the state itself otherwise. *)
Lemma combination_run reducers m_c c m_c' m l o action :
  combineReducers production actionTypes random_suffix reducers m_c = (Returned c, m_c') ->
  ordinary production reducers ->
  shapeAssertionError c = None ->
  heap m !! l = Some o ->
  (forall k r, lookup_key k (finalReducers c) = Some r ->
     keeps_contract m r (previous m (VObj l) k) action) ->
  exists m' results,
    combination production actionTypes c (VObj l) action m
    = (Returned (if existsb (changed m (VObj l)) results
                 then VObj (length (heap m)) else VObj l), m')
    /\ keys results = finalReducerKeys c
    /\ extends m m'
    /\ heap m' !! length (heap m) = Some (Object true results)
    /\ forall k v, (k, v) ∈ results ->
         v <> VUndefined
         /\ exists r, lookup_key k (finalReducers c) = Some r
                      /\ result_of m r (previous m (VObj l) k) action v.
Proof.
  intros Hc [_ Hown] Hshape Hl Hred.
  destruct (combineReducers_inv _ _ _ _ Hc) as (Hkeys & Hnd & Hlook & Hcache).
  unfold combination. change (strict_eq (VObj l) VUndefined) with false. cbv iota.
  unfold bind at 1, ret at 1. rewrite Hshape. unfold bind at 1, ret at 1.
  destruct (diagnostics_return c (VObj l) action m Hcache) as (m1 & Hdiag & Hm1).
  { intros Hdev. rewrite Hlook. by apply Hown. }
  unfold bind at 1. rewrite Hdiag.
  unfold bind at 1, new_object at 1. rewrite Hm1.
  set (m2 := set_heap _ m1).
  destruct (combination_loop_run c m l o action (length (heap m))
              (finalReducerKeys c) Hl (le_n _)) with (built := @nil (string * value))
              (hasChanged := false) (m := m2)
    as (m' & results & Hloop & Hresults & Hext & Hbuilt & Hcalls).
  - intros k Hk. rewrite Hkeys in Hk. destruct (keys_lookup_key _ _ Hk) as [r Hr].
    exists r. split; [done|]. by apply Hred.
  - done.
  - unfold extends, m2. cbn [heap set_heap]. by apply prefix_app_r.
  - unfold m2. cbn [heap set_heap]. by apply list_lookup_middle.
  - intros k _. apply not_elem_of_nil.
  - exists m', results. unfold bind at 1. rewrite Hloop. cbn [orb app] in *. done.
Qed.

(** Among results with one entry per key, a result has changed exactly
    when the result for some key is another value than the previous
    state of that key. *)
Lemma existsb_changed m state results :
  NoDup (keys results) ->
  existsb (changed m state) results = true
  <-> exists k, k ∈ keys results /\ result_for results k <> previous m state k.
Proof.
  intros Hnd. rewrite existsb_exists. unfold changed, strict_ne, strict_eq, result_for. split.
  - intros ([k v] & Hin%list_elem_of_In & Hk). cbn [fst snd] in Hk.
    apply negb_true_iff, bool_decide_eq_false in Hk.
    exists k. split; [change k with (fst (k, v)); by apply list_elem_of_fmap_2|].
    by rewrite (elem_of_lookup_key _ _ _ Hnd Hin).
  - intros (k & Hin & Hk). destruct (keys_lookup_key _ _ Hin) as [v Hv].
    rewrite Hv in Hk. exists (k, v). split.
    + by apply list_elem_of_In, lookup_key_elem_of.
    + by apply negb_true_iff, bool_decide_eq_false.
Qed.

Lemma existsb_unchanged m state results :
  NoDup (keys results) ->
  (forall k, k ∈ keys results -> result_for results k = previous m state k) ->
  existsb (changed m state) results = false.
Proof.
  intros Hnd Hall. destruct (existsb (changed m state) results) eqn:E; [|done].
  apply existsb_changed in E as (k & Hin & Hk); [|done]. by specialize (Hall k Hin).
Qed.

Lemma existsb_changed_false m state results k :
  NoDup (keys results) ->
  existsb (changed m state) results = false ->
  k ∈ keys results ->
  result_for results k = previous m state k.
Proof.
  intros Hnd Hnone Hin.
  destruct (decide (result_for results k = previous m state k)) as [|Hne]; [done|].
  assert (Hsome : existsb (changed m state) results = true)
    by (apply existsb_changed; eauto).
  congruence.
Qed.

(** The results of a call are the reducers' results, and the object
    [combination] returns holds them: the object it built when a result
    has changed, the state itself when none has. *)
Lemma combination_results reducers m_c c m_c' m l o action :
  combineReducers production actionTypes random_suffix reducers m_c = (Returned c, m_c') ->
  ordinary production reducers ->
  shapeAssertionError c = None ->
  heap m !! l = Some o ->
  (forall k r, lookup_key k (finalReducers c) = Some r ->
     keeps_contract m r (previous m (VObj l) k) action) ->
  exists m' results,
    combination production actionTypes c (VObj l) action m
    = (Returned (if existsb (changed m (VObj l)) results
                 then VObj (length (heap m)) else VObj l), m')
    /\ keys results = finalReducerKeys c
    /\ NoDup (keys results)
    /\ extends m m'
    /\ heap m' !! length (heap m) = Some (Object true results)
    /\ (forall k r, lookup_key k (finalReducers c) = Some r ->
          result_for results k <> VUndefined
          /\ result_of m r (previous m (VObj l) k) action (result_for results k))
    /\ forall k, k ∈ finalReducerKeys c ->
         previous m' (VObj l) k = previous m (VObj l) k
         /\ previous m' (if existsb (changed m (VObj l)) results
                         then VObj (length (heap m)) else VObj l) k
            = result_for results k.
Proof.
  intros Hc Hord Hshape Hl Hred.
  destruct (combineReducers_inv _ _ _ _ Hc) as (Hfinal & Hnd & _).
  destruct (combination_run _ _ _ _ _ _ _ _ Hc Hord Hshape Hl Hred)
    as (m' & results & Hrun & Hkeys & Hext & Hnew & Hcalls).
  assert (Hnd' : NoDup (keys results)) by (by rewrite Hkeys).
  exists m', results. split; [exact Hrun|]. split; [exact Hkeys|]. split; [exact Hnd'|].
  split; [exact Hext|]. split; [exact Hnew|]. split.
  - intros k r Hr.
    assert (Hin : k ∈ keys results)
      by (rewrite Hkeys, Hfinal; by eapply lookup_key_Some_keys).
    destruct (keys_lookup_key _ _ Hin) as [v Hv]. unfold result_for. rewrite Hv. cbn.
    destruct (Hcalls k v (lookup_key_elem_of _ _ _ Hv)) as (Hdef & r' & Hr' & Hcall).
    split; [exact Hdef|]. by replace r with r' by congruence.
  - intros k Hk. rewrite <- Hkeys in Hk.
    split; [exact (proj2 (previous_later m m' l o k Hl Hext))|].
    destruct (existsb (changed m (VObj l)) results) eqn:E.
    + destruct (keys_lookup_key _ _ Hk) as [v Hv]. unfold result_for. rewrite Hv.
      by apply (previous_own m' _ results).
    + rewrite (existsb_changed_false _ _ _ _ Hnd' E Hk).
      exact (proj2 (previous_later m m' l o k Hl Hext)).
Qed.

(** C2.  For the reducer [combineReducers] returns (the shape check
    passed; the keys are ordinary), a state object and an action, with
    reducers that keep to their contract (each returns a value other
    than [undefined], maybe an object it has just made, and writes to no
    existing object): the call returns, and there are results [next],
    for every key a result of its reducer for the previous state of the
    key, which is what a read of the key finds on the state, such that:
    when every result is identical to the previous state of its key, the
    state itself is returned; when a result differs, a new object is
    returned; in both cases the state is as it was, and the object
    returned holds for every key the result of its reducer, so that an
    unchanged key holds the very value the state holds. *)
Theorem combination_reference_stability reducers m_c c m_c' m l o action :
  combineReducers production actionTypes random_suffix reducers m_c = (Returned c, m_c') ->
  ordinary production reducers ->
  shapeAssertionError c = None ->
  heap m !! l = Some o ->
  (forall k r, lookup_key k (finalReducers c) = Some r ->
     keeps_contract m r (previous m (VObj l) k) action) ->
  exists result m' (next : string -> value),
    combination production actionTypes c (VObj l) action m = (Returned result, m')
    /\ (forall k r, lookup_key k (finalReducers c) = Some r ->
          result_of m r (previous m (VObj l) k) action (next k))
    /\ ((forall k, k ∈ finalReducerKeys c -> next k = previous m (VObj l) k) ->
          result = VObj l)
    /\ ((exists k, k ∈ finalReducerKeys c /\ next k <> previous m (VObj l) k) ->
          result <> VObj l /\ exists l', result = VObj l' /\ heap m !! l' = None)
    /\ forall k, k ∈ finalReducerKeys c ->
         previous m' (VObj l) k = previous m (VObj l) k
         /\ previous m' result k = next k.
Proof.
  intros Hc Hord Hshape Hl Hred.
  destruct (combination_results _ _ _ _ _ _ _ _ Hc Hord Hshape Hl Hred)
    as (m' & results & Hrun & Hkeys & Hnd & Hext & Hnew & Hcalls & Hreads).
  eexists _, m', (result_for results). split; [exact Hrun|]. split; [|split; [|split]].
  - intros k r Hr. by apply Hcalls.
  - intros Hsame. rewrite existsb_unchanged; [done..|]. by rewrite Hkeys.
  - intros Hdiff. rewrite <- Hkeys in Hdiff. apply (existsb_changed _ _ _ Hnd) in Hdiff.
    rewrite Hdiff. assert (Hlt : l < length (heap m)) by (by eapply lookup_lt_Some).
    split; [intros [= ?]; lia|]. eexists. split; [done|]. by apply lookup_ge_None.
  - exact Hreads.
Qed.

(** C10.  The keys of the composed reducer are exactly the keys whose
    entry is a function.  With reducers that keep to their contract, the
    call returns and there are results [next], for every key a result of
    its reducer for the previous state of the key, such that: when a
    result differs from the previous state of its key, the object
    returned, which holds these results, has the keys of the composed
    reducer and no other, so that a key of the state that has no reducer
    is not in it; when no result differs, the state object itself is
    returned, every key of it still there. *)
Theorem combination_key_set reducers m_c c m_c' m l o action :
  combineReducers production actionTypes random_suffix reducers m_c = (Returned c, m_c') ->
  ordinary production reducers ->
  shapeAssertionError c = None ->
  heap m !! l = Some o ->
  (forall k r, lookup_key k (finalReducers c) = Some r ->
     keeps_contract m r (previous m (VObj l) k) action) ->
  (forall k, k ∈ finalReducerKeys c <-> exists r, lookup_key k reducers = Some (Callable r))
  /\ exists result m' (next : string -> value),
       combination production actionTypes c (VObj l) action m = (Returned result, m')
       /\ (forall k r, lookup_key k (finalReducers c) = Some r ->
             result_of m r (previous m (VObj l) k) action (next k))
       /\ (forall k, k ∈ finalReducerKeys c -> previous m' result k = next k)
       /\ ((exists k, k ∈ finalReducerKeys c /\ next k <> previous m (VObj l) k) ->
             object_keys (heap m') result = finalReducerKeys c
             /\ forall k, k ∈ object_keys (heap m) (VObj l) ->
                  k ∉ finalReducerKeys c ->
                  k ∉ object_keys (heap m') result)
       /\ ((forall k, k ∈ finalReducerKeys c -> next k = previous m (VObj l) k) ->
             result = VObj l
             /\ heap m' !! l = Some o
             /\ object_keys (heap m') result = object_keys (heap m) (VObj l)).
Proof.
  intros Hc Hord Hshape Hl Hred.
  destruct (combineReducers_inv _ _ _ _ Hc) as (Hfinal & _ & Hlook & _).
  split.
  { intros k. rewrite Hfinal. split.
    - intros Hin. destruct (keys_lookup_key _ _ Hin) as [r Hr]. exists r.
      rewrite Hlook in Hr. unfold callable_at in Hr.
      destruct (lookup_key k reducers) as [[r'|v]|]; congruence.
    - intros [r Hr]. eapply lookup_key_Some_keys. rewrite Hlook.
      unfold callable_at. by rewrite Hr. }
  destruct (combination_results _ _ _ _ _ _ _ _ Hc Hord Hshape Hl Hred)
    as (m' & results & Hrun & Hkeys & Hnd & Hext & Hnew & Hcalls & Hreads).
  eexists _, m', (result_for results). split; [exact Hrun|]. split; [|split; [|split]].
  - intros k r Hr. by apply Hcalls.
  - intros k Hk. exact (proj2 (Hreads k Hk)).
  - intros Hdiff. rewrite <- Hkeys in Hdiff. apply (existsb_changed _ _ _ Hnd) in Hdiff.
    rewrite Hdiff. unfold object_keys at 1 3. rewrite Hnew. cbn [props].
    split; [exact Hkeys|]. intros k _ Hk. by rewrite Hkeys.
  - intros Hsame. rewrite existsb_unchanged; [|done|by rewrite Hkeys].
    assert (Hl' : heap m' !! l = Some o) by (by eapply prefix_lookup_Some).
    unfold object_keys. by rewrite Hl, Hl'.
Qed.

End CombineReducersFacts.

(** *** Scenarios *)

Section CombineReducersScenarios.
Import JS CombineReducers.

Lemma sampleComposed_made :
  combineReducers false sampleTypes sampleSuffix
    [("a", Callable ra); ("b", Callable rb)] emptyMemory
  = (Returned sampleComposed, composedMemory).
Proof. reflexivity. Qed.

Lemma boxingComposed_made :
  exists m',
    combineReducers false sampleTypes sampleSuffix
      [("a", Callable ra); ("box", Callable boxing)] emptyMemory
    = (Returned boxingComposed, m').
Proof. eexists. vm_compute. reflexivity. Qed.

Lemma same_memory_extends m : extends m m.
Proof. unfold extends. reflexivity. Qed.

Lemma ra_keeps_contract m s a : keeps_contract m ra s a.
Proof.
  intros m1 _. destruct s; eexists _, m1; (split; [reflexivity|]);
    (split; [discriminate | apply same_memory_extends]).
Qed.

Lemma rb_keeps_contract m s a : keeps_contract m rb s a.
Proof.
  intros m1 _.
  destruct s as [| | | | | | |e]; eexists _, m1; (split; [reflexivity|]);
    (split; [discriminate | apply same_memory_extends]).
Qed.

Lemma boxing_keeps_contract m s a : keeps_contract m boxing s a.
Proof.
  intros m1 _. eexists _, _. split; [reflexivity|]. split; [discriminate|].
  unfold extends. cbn. by apply prefix_app_r.
Qed.

Lemma sample_reducers_keep_contract k r :
  lookup_key k (finalReducers sampleComposed) = Some r ->
  keeps_contract sampleMemory r (previous sampleMemory (VObj 0) k) (VObj 1).
Proof.
  cbn [finalReducers sampleComposed lookup_key].
  destruct (bool_decide ("a" = k)); [intros [= <-]; apply ra_keeps_contract|].
  destruct (bool_decide ("b" = k)); [intros [= <-]; apply rb_keeps_contract|done].
Qed.

Lemma boxing_reducers_keep_contract k r :
  lookup_key k (finalReducers boxingComposed) = Some r ->
  keeps_contract sampleMemory r (previous sampleMemory (VObj 0) k) (VObj 1).
Proof.
  cbn [finalReducers boxingComposed lookup_key].
  destruct (bool_decide ("a" = k)); [intros [= <-]; apply ra_keeps_contract|].
  destruct (bool_decide ("box" = k)); [intros [= <-]; apply boxing_keeps_contract|done].
Qed.

(** The example of C2: with [{a: ra, b: rb}] and the state
    [{a: 1, b: 7, extra: true}], only [ra]'s result differs; the result
    is another object than the state, its [b] is the state's [b], and
    its [a] is not the state's [a].  And with [{a: ra, box: boxing}],
    whose [boxing] makes a new object at every call: the result is
    another object than the state, and its [box] is an object that was
    not there before. *)
Lemma combination_reference_stability_witness :
  (exists result m',
      combination false sampleTypes sampleComposed (VObj 0) (VObj 1) sampleMemory
      = (Returned result, m')
      /\ result <> VObj 0
      /\ previous m' result "b" = previous sampleMemory (VObj 0) "b"
      /\ previous m' result "a" <> previous sampleMemory (VObj 0) "a")
  /\ (exists result m' box,
        combination false sampleTypes boxingComposed (VObj 0) (VObj 1) sampleMemory
        = (Returned result, m')
        /\ result <> VObj 0
        /\ previous m' result "box" = VObj box
        /\ heap sampleMemory !! box = None).
Proof.
  split.
  - destruct (combination_reference_stability false sampleTypes sampleSuffix
                [("a", Callable ra); ("b", Callable rb)] emptyMemory sampleComposed _
                sampleMemory 0 sampleState (VObj 1)
                sampleComposed_made (conj eq_refl (fun _ => eq_refl)) eq_refl eq_refl
                sample_reducers_keep_contract)
      as (result & m' & next & Hrun & Hcalls & _ & Hdiff & Hreads).
    destruct (Hcalls "a" ra eq_refl) as (ma & ma' & _ & [= Ha _]).
    destruct (Hcalls "b" rb eq_refl) as (mb & mb' & _ & [= Hb _]).
    exists result, m'. split; [exact Hrun|].
    destruct Hdiff as (Hne & _).
    { exists "a". split; [cbn; apply list_elem_of_here|]. by rewrite <- Ha. }
    split; [exact Hne|].
    destruct (Hreads "a") as (_ & ->); [cbn; apply list_elem_of_here|].
    destruct (Hreads "b") as (_ & ->);
      [cbn; apply list_elem_of_further, list_elem_of_here|].
    rewrite <- Ha, <- Hb. split; [reflexivity | discriminate].
  - destruct boxingComposed_made as (m_c' & Hmade).
    destruct (combination_reference_stability false sampleTypes sampleSuffix
                [("a", Callable ra); ("box", Callable boxing)] emptyMemory boxingComposed
                m_c' sampleMemory 0 sampleState (VObj 1)
                Hmade (conj eq_refl (fun _ => eq_refl)) eq_refl eq_refl
                boxing_reducers_keep_contract)
      as (result & m' & next & Hrun & Hcalls & _ & Hdiff & Hreads).
    destruct (Hcalls "a" ra eq_refl) as (ma & ma' & _ & [= Ha _]).
    destruct (Hcalls "box" boxing eq_refl) as (mb & mb' & Hext & [= Hb _]).
    exists result, m', (length (heap mb)). split; [exact Hrun|].
    destruct Hdiff as (Hne & _).
    { exists "a". split; [cbn; apply list_elem_of_here|]. by rewrite <- Ha. }
    split; [exact Hne|].
    destruct (Hreads "box") as (_ & ->);
      [cbn; apply list_elem_of_further, list_elem_of_here|].
    split; [by rewrite <- Hb|].
    apply lookup_ge_None. apply prefix_length in Hext. exact Hext.
Defined.

(** The example of C10, with a reducer that makes a new object at every
    call: with [{a: ra, box: boxing}] and the state
    [{a: 1, b: 7, extra: true}], the object returned has the keys [a]
    and [box]; the keys [b] and [extra] of the state, which have no
    reducer, are not in it. *)
Lemma combination_key_set_witness :
  exists result m',
    combination false sampleTypes boxingComposed (VObj 0) (VObj 1) sampleMemory
    = (Returned result, m')
    /\ object_keys (heap sampleMemory) (VObj 0) = ["a"; "b"; "extra"]
    /\ object_keys (heap m') result = ["a"; "box"].
Proof.
  destruct boxingComposed_made as (m_c' & Hmade).
  destruct (combination_key_set false sampleTypes sampleSuffix
              [("a", Callable ra); ("box", Callable boxing)] emptyMemory boxingComposed m_c'
              sampleMemory 0 sampleState (VObj 1)
              Hmade (conj eq_refl (fun _ => eq_refl)) eq_refl eq_refl
              boxing_reducers_keep_contract)
    as (_ & result & m' & next & Hrun & Hcalls & _ & Hdiff & _).
  destruct (Hcalls "a" ra eq_refl) as (ma & ma' & _ & [= Ha _]).
  exists result, m'. split; [exact Hrun|]. split; [reflexivity|].
  destruct Hdiff as (Hkeys & _); [|exact Hkeys].
  exists "a". split; [cbn; apply list_elem_of_here|]. by rewrite <- Ha.
Defined.

End CombineReducersScenarios.

(** ** Computations: what every step preserves, the whole preserves *)

Section Preservation.
Import JS.
Context {W : Type} (R : W -> W -> Prop) `{!PreOrder R}.

Lemma preserves_ret {A} (a : A) : preserves R (ret a).
Proof. intros w r w' [= _ <-]. reflexivity. Qed.

Lemma preserves_throw {A} e : preserves R (throw (A := A) e).
Proof. intros w r w' [= _ <-]. reflexivity. Qed.

Lemma preserves_out_of_fuel {A} : preserves R (out_of_fuel (A := A)).
Proof. intros w r w' [= _ <-]. reflexivity. Qed.

Lemma preserves_get_world : preserves R get_world.
Proof. intros w r w' [= _ <-]. reflexivity. Qed.

Lemma preserves_modify (f : W -> W) : (forall w, R w (f w)) -> preserves R (modify f).
Proof. intros Hf w r w' [= _ <-]. apply Hf. Qed.

Lemma preserves_bind {A B} (c : Comp W A) (k : A -> Comp W B) :
  preserves R c -> (forall a, preserves R (k a)) -> preserves R (bind c k).
Proof.
  intros Hc Hk w r w'. unfold bind.
  destruct (c w) as [[a|e|] w1] eqn:E; intros H.
  - etrans; [eapply Hc, E | eapply Hk, H].
  - injection H as _ <-. eapply Hc, E.
  - injection H as _ <-. eapply Hc, E.
Qed.

Lemma preserves_try_catch {A} (body : Comp W A) (handler : exn -> Comp W A) :
  preserves R body -> (forall e, preserves R (handler e)) -> preserves R (try_catch body handler).
Proof.
  intros Hb Hh w r w'. unfold try_catch.
  destruct (body w) as [[a|e|] w1] eqn:E; intros H.
  - injection H as _ <-. eapply Hb, E.
  - etrans; [eapply Hb, E | eapply Hh, H].
  - injection H as _ <-. eapply Hb, E.
Qed.

Lemma preserves_try_finally {A} (body : Comp W A) (finalizer : Comp W unit) :
  preserves R body -> preserves R finalizer -> preserves R (try_finally body finalizer).
Proof.
  intros Hb Hf w r w'. unfold try_finally.
  destruct (body w) as [[a|e|] w1] eqn:E.
  - destruct (finalizer w1) as [[[]|e'|] w2] eqn:E'; intros [= _ <-];
      (etrans; [eapply Hb, E | eapply Hf, E']).
  - destruct (finalizer w1) as [[[]|e'|] w2] eqn:E'; intros [= _ <-];
      (etrans; [eapply Hb, E | eapply Hf, E']).
  - intros [= _ <-]. eapply Hb, E.
Qed.

End Preservation.

(** ** The store: listener arrays that are being read are never written *)

Section ListenerArrays.
Import JS Store.

Lemma stable_preorder : PreOrder stable.
Proof.
  split.
  - intros s Hs. split; [done|]. by intros a Ha.
  - intros s1 s2 s3 H12 H23 Hs1.
    destruct (H12 Hs1) as [Hs2 H2]. destruct (H23 Hs2) as [Hs3 H3].
    split; [done|]. intros a Ha.
    destruct (H2 a Ha) as [Ha2 Heq2]. destruct (H3 a Ha2) as [Ha3 Heq3].
    split; [done|]. congruence.
Qed.

#[global] Existing Instance stable_preorder.

Lemma same_listeners_stable s s' :
  arrays s' = arrays s ->
  nextListeners s' = nextListeners s ->
  currentListeners s' = currentListeners s ->
  stable s s'.
Proof.
  intros Ha Hn Hc Hs. unfold valid, frozen in *. rewrite Ha, Hn, Hc. done.
Qed.

Lemma lift_mem_stable {A} (f : Comp memory A) : preserves stable (lift_mem f).
Proof.
  intros s r s'. unfold lift_mem. destruct (f (mem s)) as [r0 m].
  intros [= _ <-]. by apply same_listeners_stable.
Qed.

Lemma getState_stable : preserves stable getState.
Proof.
  intros s r s'. unfold getState. destruct (isDispatching s); intros [= _ <-]; reflexivity.
Qed.

(** After [ensureCanMutateNextListeners], [nextListeners] is an array of
    its own, with the contents it had. *)
Lemma ensureCanMutateNextListeners_spec s :
  valid s ->
  let s' := snd (ensureCanMutateNextListeners s) in
  fst (ensureCanMutateNextListeners s) = Returned tt
  /\ valid s'
  /\ nextListeners s' <> currentListeners s'
  /\ registered s' = registered s
  /\ currentListeners s' = currentListeners s
  /\ subscriptions s' = subscriptions s
  /\ (forall a, a < length (arrays s) -> arrays s' !! a = arrays s !! a)
  /\ (forall a, frozen s a -> a <> nextListeners s')
  /\ length (arrays s) <= length (arrays s').
Proof.
  intros Hs. unfold ensureCanMutateNextListeners, registered, array, valid, frozen in *.
  destruct (bool_decide_reflect (nextListeners s = currentListeners s)) as [Heq|Hne];
    cbn.
  - rewrite length_app. cbn. rewrite lookup_app_r, Nat.sub_diag by done. cbn.
    repeat split; try done; try lia.
    + rewrite Heq. done.
    + intros a Ha. by rewrite lookup_app_l.
  - repeat split; try done. intros a [Ha [H|H]]; done.
Qed.

Lemma subscribe_stable listener : preserves stable (subscribe listener).
Proof.
  intros s r s'. unfold subscribe.
  destruct (negb _); [intros [= _ <-]; reflexivity|].
  destruct (isDispatching s); [intros [= _ <-]; reflexivity|].
  set (s1 := set_subscriptions _ s). intros [= _ <-] Hs.
  destruct (ensureCanMutateNextListeners_spec s1 Hs)
    as (_ & Hv & Hne & _ & Hcur & _ & Hold & Hfrozen & Hlen).
  set (s2 := snd (ensureCanMutateNextListeners s1)) in *.
  unfold valid, frozen in *. cbn [arrays nextListeners currentListeners set_arrays] in *.
  rewrite length_alter. split; [done|].
  intros a Ha. assert (Ha' := Hfrozen a Ha). destruct Ha as [Hlt _].
  change (arrays s1) with (arrays s) in *.
  split; [split; [lia | by left]|].
  rewrite list_lookup_alter_ne by done. by apply Hold.
Qed.

Lemma unsubscribe_stable k : preserves stable (unsubscribe k).
Proof.
  intros s r s'. unfold unsubscribe.
  destruct (subscriptions s !! k) as [[listener isSubscribed]|];
    [|intros [= _ <-]; reflexivity].
  destruct isSubscribed; cbn [negb]; [|intros [= _ <-]; reflexivity].
  destruct (isDispatching s); [intros [= _ <-]; reflexivity|].
  set (s1 := set_subscriptions _ s). intros [= _ <-] Hs.
  destruct (ensureCanMutateNextListeners_spec s1 Hs)
    as (_ & Hv & Hne & _ & Hcur & _ & Hold & Hfrozen & Hlen).
  set (s2 := snd (ensureCanMutateNextListeners s1)) in *.
  unfold valid, frozen in *. cbn [arrays nextListeners currentListeners set_arrays] in *.
  rewrite length_alter. split; [done|].
  intros a Ha. assert (Ha' := Hfrozen a Ha). destruct Ha as [Hlt _].
  change (arrays s1) with (arrays s) in *.
  split; [split; [lia | by left]|].
  rewrite list_lookup_alter_ne by done. by apply Hold.
Qed.

End ListenerArrays.

Section StableOperations.
Import JS Store.
Variable actionTypes : action_types.
Variable call : value -> list value -> Comp store value.
Hypothesis call_stable : forall f args, preserves stable (call f args).

Lemma set_currentListeners_stable s : stable s (set_currentListeners (nextListeners s) s).
Proof.
  intros Hs. split; [done|]. intros a [Ha _]. split; [|done].
  split; [done|]. by right.
Qed.

Lemma notify_stable gas listeners i : preserves stable (notify call gas listeners i).
Proof.
  revert i. induction gas as [|gas IH]; intros i s r s'; cbn [notify].
  - destruct (i <? _)%nat; intros [= _ <-]; reflexivity.
  - destruct (i <? _)%nat; [|intros [= _ <-]; reflexivity].
    set (listener := default VUndefined (array s listeners !! i)).
    apply (preserves_bind stable); [apply call_stable|].
    intros _. apply (preserves_bind stable); [apply IH|].
    intros called. apply (preserves_ret stable).
Qed.

(** The operations are built from steps that are stable. *)
Local Ltac stable_steps :=
  repeat first
    [ apply (preserves_ret stable) | apply (preserves_throw stable)
    | apply (preserves_out_of_fuel stable)
    | apply (preserves_get_world stable) | apply lift_mem_stable | apply getState_stable
    | apply subscribe_stable | apply unsubscribe_stable | apply call_stable
    | apply notify_stable
    | apply (preserves_modify stable), set_currentListeners_stable
    | apply (preserves_modify stable); intros ?; by apply same_listeners_stable
    | apply (preserves_bind stable); [|intros ?]
    | apply (preserves_try_finally stable)
    | apply (preserves_try_catch stable); [|intros ?]
    | match goal with |- preserves _ (if ?b then _ else _) => destruct b end ].

Lemma notifyListeners_stable gas : preserves stable (notifyListeners call gas).
Proof. unfold notifyListeners. stable_steps. Qed.

Lemma applyReducer_stable action : preserves stable (applyReducer call action).
Proof. unfold applyReducer. stable_steps. Qed.

Lemma dispatch_stable gas action : preserves stable (dispatch call gas action).
Proof. unfold dispatch. stable_steps. Qed.

Lemma replaceReducer_stable gas nextReducer :
  preserves stable (replaceReducer actionTypes call gas nextReducer).
Proof. unfold replaceReducer. stable_steps. Qed.

Lemma observeState_stable k : preserves stable (observeState call k).
Proof. unfold observeState. stable_steps. Qed.

Lemma observable_subscribe_stable observer :
  preserves stable (observable_subscribe call observer).
Proof. unfold observable_subscribe. stable_steps. Qed.

Lemma run_stable gas p : preserves stable (run actionTypes call gas p).
Proof.
  induction p; cbn [run]; try (stable_steps; fail);
    (apply (preserves_bind stable); [|by intros ?]).
  - apply lift_mem_stable.
  - apply call_stable.
  - apply getState_stable.
  - apply subscribe_stable.
  - apply dispatch_stable.
  - apply replaceReducer_stable.
  - apply observable_subscribe_stable.
  - apply (preserves_try_catch stable); auto.
Qed.

End StableOperations.

Section StableInvoke.
Import JS Store.
Variable actionTypes : action_types.
Variable code : nat -> list value -> prog.

Lemma invoke_stable fuel f args : preserves stable (invoke actionTypes code fuel f args).
Proof.
  revert f args. induction fuel as [|fuel IH]; intros f args;
    destruct f as [| | | | | |[n|k|k]|[| |name]]; cbn [invoke];
    try apply (preserves_throw stable); try apply (preserves_out_of_fuel stable);
    try apply unsubscribe_stable.
  - by apply run_stable.
  - by apply observeState_stable.
Qed.

End StableInvoke.

(** ** The store: nothing gets past the dispatching flag *)

Section Guard.
Import JS Store.

Lemma guarded_preorder : PreOrder guarded.
Proof.
  split.
  - by intros s Hs.
  - intros s1 s2 s3 H12 H23 Hs1.
    destruct (H12 Hs1) as (Hs2 & ? & ? & ? & ? & ?).
    destruct (H23 Hs2) as (Hs3 & ? & ? & ? & ? & ?).
    repeat split; congruence.
Qed.

#[global] Existing Instance guarded_preorder.

Lemma lift_mem_guarded {A} (f : Comp memory A) : preserves guarded (lift_mem f).
Proof.
  intros s r s'. unfold lift_mem. destruct (f (mem s)) as [r0 m].
  by intros [= _ <-] Hs.
Qed.

Lemma getState_guarded : preserves guarded getState.
Proof.
  intros s r s'. unfold getState. destruct (isDispatching s); intros [= _ <-]; reflexivity.
Qed.

Lemma subscribe_guarded listener : preserves guarded (subscribe listener).
Proof.
  intros s r s' H Hs. unfold subscribe in H. rewrite Hs in H.
  destruct (negb _); injection H as _ <-; done.
Qed.

Lemma unsubscribe_guarded k : preserves guarded (unsubscribe k).
Proof.
  intros s r s' H Hs. unfold unsubscribe in H. rewrite Hs in H.
  destruct (subscriptions s !! k) as [[listener []]|]; injection H as _ <-; done.
Qed.

Section Operations.
Variable actionTypes : action_types.
Variable call : value -> list value -> Comp store value.
Hypothesis call_guarded : forall f args, preserves guarded (call f args).

Lemma plain_object_get h action k :
  isPlainObject h action = true -> exists v, get_property h action k = Returned v.
Proof.
  unfold isPlainObject, get_property. destruct action; try done.
  destruct (h !! l); [by eexists | done].
Qed.

(** While a dispatch is in flight, [dispatch] throws before it touches
    anything. *)
Lemma dispatch_in_flight gas action s :
  isDispatching s = true ->
  exists e, dispatch call gas action s = (Thrown e, set_mem (mem s) s)
            \/ dispatch call gas action s = (Thrown e, s).
Proof.
  intros Hs. unfold dispatch, bind, get_world, lift_mem, get, throw. rewrite Hs.
  destruct (isPlainObject _ _) eqn:Hplain; cbn [negb]; [|eexists; right; reflexivity].
  destruct (plain_object_get _ _ "type" Hplain) as [t ->].
  destruct (bool_decide _); eexists; left; reflexivity.
Qed.

Lemma dispatch_guarded gas action : preserves guarded (dispatch call gas action).
Proof.
  intros s r s' H Hs.
  destruct (dispatch_in_flight gas action s Hs) as (e & [He|He]);
    rewrite He in H; injection H as _ <-; done.
Qed.

Local Ltac guarded_steps :=
  repeat first
    [ apply (preserves_ret guarded) | apply (preserves_throw guarded)
    | apply (preserves_out_of_fuel guarded)
    | apply (preserves_get_world guarded) | apply lift_mem_guarded
    | apply getState_guarded | apply subscribe_guarded | apply unsubscribe_guarded
    | apply call_guarded | apply dispatch_guarded
    | apply (preserves_modify guarded); intros ? ?; done
    | apply (preserves_bind guarded); [|intros ?]
    | apply (preserves_try_catch guarded); [|intros ?]
    | match goal with |- preserves _ (if ?b then _ else _) => destruct b end ].

Lemma replaceReducer_guarded gas nextReducer :
  preserves guarded (replaceReducer actionTypes call gas nextReducer).
Proof. unfold replaceReducer. guarded_steps. Qed.

Lemma observeState_guarded k : preserves guarded (observeState call k).
Proof. unfold observeState. guarded_steps. Qed.

Lemma observable_subscribe_guarded observer :
  preserves guarded (observable_subscribe call observer).
Proof. unfold observable_subscribe. guarded_steps. Qed.

Lemma run_guarded gas p : preserves guarded (run actionTypes call gas p).
Proof.
  induction p; cbn [run]; try (guarded_steps; fail);
    (apply (preserves_bind guarded); [|by intros ?]).
  - apply lift_mem_guarded.
  - apply call_guarded.
  - apply getState_guarded.
  - apply subscribe_guarded.
  - apply dispatch_guarded.
  - apply replaceReducer_guarded.
  - apply observable_subscribe_guarded.
  - apply (preserves_try_catch guarded); auto.
Qed.

End Operations.

Lemma invoke_guarded actionTypes code fuel f args :
  preserves guarded (invoke actionTypes code fuel f args).
Proof.
  revert f args. induction fuel as [|fuel IH]; intros f args;
    destruct f as [| | | | | |[n|k|k]|[| |name]]; cbn [invoke];
    try apply (preserves_throw guarded); try apply (preserves_out_of_fuel guarded);
    try apply unsubscribe_guarded.
  - by apply run_guarded.
  - by apply observeState_guarded.
Qed.

End Guard.

(** ** The store: dispatch *)

Section DispatchFacts.
Import JS Store.
Variable actionTypes : action_types.
Variable code : nat -> list value -> prog.

Lemma set_mem_id s : set_mem (mem s) s = s.
Proof. by destruct s. Qed.

(** Past its three checks, [dispatch] is the reducer step, the
    notification and [return action]. *)
Lemma dispatch_checked call gas action s :
  valid_action s action ->
  isDispatching s = false ->
  dispatch call gas action s
  = bind (applyReducer call action)
      (fun _ => bind (notifyListeners call gas) (fun _ => ret action)) s.
Proof.
  intros (Hplain & t & Ht & Hdef) Hs.
  unfold dispatch at 1. unfold bind at 1, get_world at 1. rewrite Hplain. cbn [negb].
  unfold bind at 1, lift_mem at 1, get at 1. rewrite Ht, set_mem_id.
  rewrite bool_decide_eq_false_2 by (by rewrite typeof_undefined).
  by rewrite Hs.
Qed.

(** The reducer step: the flag is set for the call and cleared after it,
    and the state is assigned only when the call returns. *)
Lemma applyReducer_cases call action s :
  applyReducer call action s
  = match call (currentReducer s) [currentState s; action] (set_isDispatching true s) with
    | (Returned nextState, s1) =>
        (Returned tt, set_isDispatching false (set_currentState nextState s1))
    | (Thrown e, s1) => (Thrown e, set_isDispatching false s1)
    | (OutOfFuel, s1) => (OutOfFuel, s1)
    end.
Proof.
  unfold applyReducer, try_finally, bind, modify, get_world. cbn.
  destruct (call _ _ _) as [[v|e|] s1]; reflexivity.
Qed.

Lemma dispatch_succeeds call gas action s nextState s1 called s2 :
  valid_action s action ->
  isDispatching s = false ->
  call (currentReducer s) [currentState s; action] (set_isDispatching true s)
  = (Returned nextState, s1) ->
  notifyListeners call gas (set_isDispatching false (set_currentState nextState s1))
  = (Returned called, s2) ->
  dispatch call gas action s = (Returned action, s2).
Proof.
  intros Hvalid Hs Hreduce Hnotify. rewrite dispatch_checked by done.
  unfold bind at 1. rewrite applyReducer_cases, Hreduce.
  unfold bind. by rewrite Hnotify.
Qed.

Lemma dispatch_result call gas action s r s' :
  dispatch call gas action s = (Returned r, s') -> r = action.
Proof.
  unfold dispatch, bind, get_world, throw, ret.
  repeat case_match; intros; simplify_eq; done.
Qed.

End DispatchFacts.

(** ** The store: the flag is cleared on every way out *)

Section Settling.
Import JS Store.

Lemma settles_ret {A} (a : A) : settles (ret a).
Proof. intros s r s' [= _ <-]; done. Qed.

Lemma settles_throw {A} e : settles (throw (A := A) e).
Proof. intros s r s' [= _ <-]; done. Qed.

Lemma settles_out_of_fuel {A} : settles (out_of_fuel (A := A)).
Proof. intros s r s' [= _ <-]; done. Qed.

Lemma settles_get_world : settles get_world.
Proof. intros s r s' [= _ <-]; done. Qed.

Lemma settles_modify (f : store -> store) :
  (forall s, isDispatching (f s) = isDispatching s) -> settles (modify f).
Proof. intros Hf s r s' [= _ <-] Hs _. by rewrite Hf. Qed.

Lemma settles_lift_mem {A} (f : Comp memory A) : settles (lift_mem f).
Proof.
  intros s r s'. unfold lift_mem. destruct (f (mem s)) as [r0 m]. intros [= _ <-]; done.
Qed.

Lemma settles_bind {A B} (c : Comp store A) (k : A -> Comp store B) :
  settles c -> (forall a, settles (k a)) -> settles (bind c k).
Proof.
  intros Hc Hk s r s'. unfold bind.
  destruct (c s) as [[a|e|] s1] eqn:E; intros H Hs Hr.
  - eapply Hk; [exact H | | exact Hr]. by eapply Hc.
  - injection H as _ <-. by eapply Hc.
  - injection H as <- _. done.
Qed.

Lemma settles_try_catch {A} (body : Comp store A) (handler : exn -> Comp store A) :
  settles body -> (forall e, settles (handler e)) -> settles (try_catch body handler).
Proof.
  intros Hb Hh s r s'. unfold try_catch.
  destruct (body s) as [[a|e|] s1] eqn:E; intros H Hs Hr.
  - injection H as _ <-. by eapply Hb.
  - eapply Hh; [exact H | | exact Hr]. by eapply Hb.
  - injection H as <- _. done.
Qed.

Lemma getState_settles : settles getState.
Proof.
  intros s r s'. unfold getState. destruct (isDispatching s) eqn:Hs; intros [= _ <-]; done.
Qed.

Lemma subscribe_settles listener : settles (subscribe listener).
Proof.
  intros s r s'. unfold subscribe, ensureCanMutateNextListeners.
  destruct (negb _); [intros [= _ <-]; done|].
  destruct (isDispatching s) eqn:Hs; [intros [= _ <-]; done|].
  destruct (bool_decide _); intros [= _ <-]; done.
Qed.

Lemma unsubscribe_settles k : settles (unsubscribe k).
Proof.
  intros s r s'. unfold unsubscribe, ensureCanMutateNextListeners.
  destruct (subscriptions s !! k) as [[listener []]|]; cbn [negb];
    [|intros [= _ <-]; done..].
  destruct (isDispatching s) eqn:Hs; [intros [= _ <-]; done|].
  destruct (bool_decide _); intros [= _ <-]; done.
Qed.

(** The reducer step clears the flag whether the reducer returns or
    throws, whatever the reducer did. *)
Lemma applyReducer_settles call action : settles (applyReducer call action).
Proof.
  intros s r s'. rewrite applyReducer_cases.
  destruct (call _ _ _) as [[v|e|] s1]; intros [= <- <-]; done.
Qed.

Section Operations.
Variable actionTypes : action_types.
Variable call : value -> list value -> Comp store value.
Hypothesis call_settles : forall f args, settles (call f args).

Lemma notify_settles gas listeners i : settles (notify call gas listeners i).
Proof.
  revert i. induction gas as [|gas IH]; intros i s r s'; cbn [notify].
  - destruct (i <? _)%nat; intros [= <- <-]; done.
  - destruct (i <? _)%nat; [|intros [= _ <-]; done].
    apply settles_bind; [apply call_settles|].
    intros _. apply settles_bind; [apply IH|]. intros called. apply settles_ret.
Qed.

Local Ltac settles_steps :=
  repeat first
    [ apply settles_ret | apply settles_throw | apply settles_out_of_fuel
    | apply settles_get_world | apply settles_lift_mem
    | apply getState_settles | apply subscribe_settles | apply unsubscribe_settles
    | apply call_settles | apply applyReducer_settles | apply notify_settles
    | apply settles_modify; intros ?; reflexivity
    | apply settles_bind; [|intros ?]
    | apply settles_try_catch; [|intros ?]
    | match goal with |- settles (if ?b then _ else _) => destruct b end ].

Lemma notifyListeners_settles gas : settles (notifyListeners call gas).
Proof. unfold notifyListeners. settles_steps. Qed.

Lemma dispatch_settles gas action : settles (dispatch call gas action).
Proof.
  unfold dispatch. settles_steps.
Qed.

Lemma replaceReducer_settles gas nextReducer :
  settles (replaceReducer actionTypes call gas nextReducer).
Proof. unfold replaceReducer. settles_steps. Qed.

Lemma observeState_settles k : settles (observeState call k).
Proof. unfold observeState. settles_steps. Qed.

Lemma observable_subscribe_settles observer :
  settles (observable_subscribe call observer).
Proof. unfold observable_subscribe. settles_steps. Qed.

Lemma run_settles gas p : settles (run actionTypes call gas p).
Proof.
  induction p; cbn [run]; try (settles_steps; fail);
    (apply settles_bind; [|by intros ?]).
  - apply settles_lift_mem.
  - apply call_settles.
  - apply getState_settles.
  - apply subscribe_settles.
  - apply dispatch_settles.
  - apply replaceReducer_settles.
  - apply observable_subscribe_settles.
  - apply settles_try_catch; auto.
Qed.

End Operations.

Lemma invoke_settles actionTypes code fuel f args :
  settles (invoke actionTypes code fuel f args).
Proof.
  revert f args. induction fuel as [|fuel IH]; intros f args;
    destruct f as [| | | | | |[n|k|k]|[| |name]]; cbn [invoke];
    try apply settles_throw; try apply settles_out_of_fuel;
    try apply unsubscribe_settles.
  - by apply run_settles.
  - by apply observeState_settles.
Qed.

End Settling.

(** ** The store: more fuel changes no outcome *)

Section Fuel.
Import JS Store.

Lemma refines_refl {A} (c : Comp store A) : refines c c.
Proof. by intros s r s' H _. Qed.

Lemma refines_bind {A B} (c c' : Comp store A) (k k' : A -> Comp store B) :
  refines c c' -> (forall a, refines (k a) (k' a)) -> refines (bind c k) (bind c' k').
Proof.
  intros Hc Hk s r s'. unfold bind.
  destruct (c s) as [[a|e|] s1] eqn:E; intros H Hr.
  - rewrite (Hc _ _ _ E) by done. by apply Hk.
  - rewrite (Hc _ _ _ E) by done. done.
  - injection H as <- _. done.
Qed.

Lemma refines_try_catch {A} (body body' : Comp store A) (handler handler' : exn -> Comp store A) :
  refines body body' -> (forall e, refines (handler e) (handler' e)) ->
  refines (try_catch body handler) (try_catch body' handler').
Proof.
  intros Hb Hh s r s'. unfold try_catch.
  destruct (body s) as [[a|e|] s1] eqn:E; intros H Hr.
  - rewrite (Hb _ _ _ E) by done. done.
  - rewrite (Hb _ _ _ E) by done. by apply Hh.
  - injection H as <- _. done.
Qed.

Lemma refines_try_finally {A} (body body' : Comp store A) (finalizer : Comp store unit) :
  refines body body' ->
  refines (try_finally body finalizer) (try_finally body' finalizer).
Proof.
  intros Hb s r s'. unfold try_finally.
  destruct (body s) as [[a|e|] s1] eqn:E; intros H Hr.
  - rewrite (Hb _ _ _ E) by done. done.
  - rewrite (Hb _ _ _ E) by done. done.
  - injection H as <- _. done.
Qed.

Section Operations.
Variable actionTypes : action_types.
Variables call call' : value -> list value -> Comp store value.
Hypothesis call_refines : forall f args, refines (call f args) (call' f args).

Lemma notify_refines gas gas' listeners i :
  gas <= gas' -> refines (notify call gas listeners i) (notify call' gas' listeners i).
Proof.
  revert gas' i. induction gas as [|gas IH]; intros gas' i Hgas s r s'; cbn [notify].
  - destruct gas'; cbn [notify]; destruct (i <? _)%nat; intros [= <- <-]; done.
  - destruct gas' as [|gas']; [lia|]. cbn [notify].
    destruct (i <? _)%nat; [|done].
    apply refines_bind; [apply call_refines|].
    intros _. apply refines_bind; [apply IH; lia|]. intros called. apply refines_refl.
Qed.

Local Ltac refines_steps :=
  repeat first
    [ apply refines_refl
    | apply call_refines
    | apply notify_refines; lia
    | apply refines_bind; [|intros ?]
    | apply refines_try_finally
    | apply refines_try_catch; [|intros ?]
    | match goal with
      | |- refines (if ?b then _ else _) (if ?b then _ else _) => destruct b
      end ].

Lemma notifyListeners_refines gas gas' :
  gas <= gas' -> refines (notifyListeners call gas) (notifyListeners call' gas').
Proof. intros Hgas. unfold notifyListeners. refines_steps. Qed.

Lemma applyReducer_refines action :
  refines (applyReducer call action) (applyReducer call' action).
Proof. unfold applyReducer. refines_steps. Qed.

Lemma dispatch_refines gas gas' action :
  gas <= gas' -> refines (dispatch call gas action) (dispatch call' gas' action).
Proof.
  intros Hgas. unfold dispatch. refines_steps.
Qed.

Lemma replaceReducer_refines gas gas' nextReducer :
  gas <= gas' ->
  refines (replaceReducer actionTypes call gas nextReducer)
    (replaceReducer actionTypes call' gas' nextReducer).
Proof. intros Hgas. unfold replaceReducer. refines_steps. Qed.

Lemma observeState_refines k : refines (observeState call k) (observeState call' k).
Proof. unfold observeState. refines_steps. Qed.

Lemma observable_subscribe_refines observer :
  refines (observable_subscribe call observer) (observable_subscribe call' observer).
Proof. unfold observable_subscribe. refines_steps. Qed.

Lemma run_refines gas gas' p :
  gas <= gas' -> refines (run actionTypes call gas p) (run actionTypes call' gas' p).
Proof.
  intros Hgas. induction p; cbn [run]; try apply refines_refl;
    (apply refines_bind; [|by intros ?]).
  - apply refines_refl.
  - apply call_refines.
  - apply refines_refl.
  - apply refines_refl.
  - by apply dispatch_refines.
  - by apply replaceReducer_refines.
  - apply observable_subscribe_refines.
  - apply refines_try_catch; auto.
Qed.

End Operations.

Lemma invoke_refines actionTypes code fuel fuel' f args :
  fuel <= fuel' ->
  refines (invoke actionTypes code fuel f args) (invoke actionTypes code fuel' f args).
Proof.
  revert fuel' f args. induction fuel as [|fuel IH]; intros fuel' f args Hfuel;
    destruct f as [| | | | | |[n|k|k]|[| |name]]; try (destruct fuel'; apply refines_refl).
  - destruct fuel'; intros s r s' [= <- <-]; done.
  - destruct fuel'; intros s r s' [= <- <-]; done.
  - destruct fuel' as [|fuel']; [lia|]. cbn [invoke].
    apply run_refines; [|lia]. intros f args'. apply IH. lia.
  - destruct fuel' as [|fuel']; [lia|]. cbn [invoke].
    apply observeState_refines. intros f args'. apply IH. lia.
Qed.

(** What a dispatch returns or throws with some fuel, it returns or
    throws with any more. *)
Lemma dispatch_more_fuel actionTypes code fuel fuel' action :
  fuel <= fuel' ->
  refines (dispatch (invoke actionTypes code fuel) fuel action)
    (dispatch (invoke actionTypes code fuel') fuel' action).
Proof.
  intros Hfuel. apply dispatch_refines; [|done].
  intros f args. by apply invoke_refines.
Qed.

End Fuel.

(** ** The store: the theorems on dispatch *)

Section DispatchTheorems.
Import JS Store.
Variable actionTypes : action_types.
Variable code : nat -> list value -> prog.

(** C4.  A valid action, dispatched while no dispatch is in flight, with
    a reducer and listeners that return within some fuel: with that fuel
    or more, [dispatch] returns, and what it returns is the action it
    was given.  (And whenever [dispatch] returns, it returns its
    argument.) *)
Theorem dispatch_returns_its_action fuel action s nextState s1 called s2 :
  valid_action s action ->
  isDispatching s = false ->
  invoke actionTypes code fuel (currentReducer s) [currentState s; action]
    (set_isDispatching true s) = (Returned nextState, s1) ->
  notifyListeners (invoke actionTypes code fuel) fuel
    (set_isDispatching false (set_currentState nextState s1)) = (Returned called, s2) ->
  (forall fuel', fuel <= fuel' ->
     dispatch (invoke actionTypes code fuel') fuel' action s = (Returned action, s2))
  /\ forall call gas action' s0 r s',
       dispatch call gas action' s0 = (Returned r, s') -> r = action'.
Proof.
  intros Hvalid Hs Hreduce Hnotify. split.
  - intros fuel' Hfuel.
    apply (dispatch_more_fuel actionTypes code fuel fuel' action Hfuel); [|done].
    by eapply dispatch_succeeds.
  - apply dispatch_result.
Qed.

(** C1.  When the reducer throws, [dispatch] throws the same, the state
    is the one before the dispatch, and the flag is cleared; so a later
    dispatch whose reducer and listeners return succeeds.  (And however
    a dispatch ends, by a return or by a throw of the reducer or of a
    listener, the flag is cleared.) *)
Theorem failed_dispatch_restores fuel action s e s1 :
  valid_action s action ->
  isDispatching s = false ->
  invoke actionTypes code fuel (currentReducer s) [currentState s; action]
    (set_isDispatching true s) = (Thrown e, s1) ->
  (exists s',
    dispatch (invoke actionTypes code fuel) fuel action s = (Thrown e, s')
    /\ currentState s' = currentState s
    /\ isDispatching s' = false
    /\ forall fuel' action' nextState s2 called s3,
         valid_action s' action' ->
         invoke actionTypes code fuel' (currentReducer s') [currentState s'; action']
           (set_isDispatching true s') = (Returned nextState, s2) ->
         notifyListeners (invoke actionTypes code fuel') fuel'
           (set_isDispatching false (set_currentState nextState s2)) = (Returned called, s3) ->
         dispatch (invoke actionTypes code fuel') fuel' action' s' = (Returned action', s3))
  /\ forall fuel' action' s0 r s0',
       isDispatching s0 = false ->
       dispatch (invoke actionTypes code fuel') fuel' action' s0 = (r, s0') ->
       r <> OutOfFuel ->
       isDispatching s0' = false.
Proof.
  intros Hvalid Hs Hthrow. split.
  - exists (set_isDispatching false s1).
    destruct (invoke_guarded _ _ _ _ _ _ _ _ Hthrow eq_refl) as (_ & Hstate & _).
    split; [|split; [exact Hstate|split; [reflexivity|]]].
    + rewrite dispatch_checked by done.
      unfold bind at 1. by rewrite applyReducer_cases, Hthrow.
    + intros fuel' action' nextState s2 called s3 Hvalid' Hreduce Hnotify.
      by eapply dispatch_succeeds.
  - intros fuel' action' s0 r s0' Hs0 Hrun Hr.
    eapply dispatch_settles; [apply invoke_settles | exact Hrun | exact Hs0 | exact Hr].
Qed.

End DispatchTheorems.

(** ** The store: subscribe, unsubscribe and the notification phase *)

Section SubscriptionTheorems.
Import JS Store.
Variable actionTypes : action_types.
Variable code : nat -> list value -> prog.

Lemma ensureCanMutateNextListeners_subscriptions s :
  subscriptions (snd (ensureCanMutateNextListeners s)) = subscriptions s.
Proof. unfold ensureCanMutateNextListeners. by destruct (bool_decide _). Qed.

Lemma unsubscribe_marks k s v s' :
  unsubscribe k s = (Returned v, s') ->
  exists listener, subscriptions s' !! k = Some (listener, false).
Proof.
  unfold unsubscribe.
  destruct (subscriptions s !! k) as [[listener isSubscribed]|] eqn:Hk; [|done].
  destruct isSubscribed; cbn [negb]; [|intros [= _ <-]; by exists listener].
  destruct (isDispatching s); [done|]. intros [= _ <-]. exists listener.
  cbn [subscriptions set_arrays]. rewrite ensureCanMutateNextListeners_subscriptions.
  cbn [subscriptions set_subscriptions]. apply list_lookup_insert_eq.
  by eapply lookup_lt_Some.
Qed.

Lemma unsubscribe_again k s listener :
  subscriptions s !! k = Some (listener, false) ->
  unsubscribe k s = (Returned VUndefined, s).
Proof. intros Hk. unfold unsubscribe. by rewrite Hk. Qed.

(** C8.  [subscribe] returns a closure that is subscribed.  A call of it
    that returns leaves it unsubscribed, and from then on a call of it
    returns at once and changes nothing, in flight or not.  While it is
    still subscribed, a call of it during a dispatch throws. *)
Theorem unsubscribe_idempotent :
  (forall listener s u s',
      subscribe listener s = (Returned u, s') ->
      u = VFun (UnsubscribeFn (length (subscriptions s)))
      /\ subscriptions s' !! length (subscriptions s) = Some (listener, true))
  /\ (forall fuel k args,
        invoke actionTypes code fuel (VFun (UnsubscribeFn k)) args = unsubscribe k)
  /\ (forall k s v s',
        unsubscribe k s = (Returned v, s') ->
        unsubscribe k s' = (Returned VUndefined, s'))
  /\ (forall k s listener,
        subscriptions s !! k = Some (listener, false) ->
        unsubscribe k s = (Returned VUndefined, s))
  /\ (forall k s listener,
        subscriptions s !! k = Some (listener, true) ->
        isDispatching s = true ->
        unsubscribe k s = (Thrown ReentrantUnsubscribe, s)).
Proof.
  split; [|split; [|split; [|split]]].
  - intros listener s u s'. unfold subscribe.
    destruct (negb _); [done|]. destruct (isDispatching s); [done|].
    intros [= <- <-]. split; [done|].
    cbn [subscriptions set_arrays]. rewrite ensureCanMutateNextListeners_subscriptions.
    cbn [subscriptions set_subscriptions]. by apply list_lookup_middle.
  - by destruct fuel.
  - intros k s v s' H. destruct (unsubscribe_marks _ _ _ _ H) as [listener Hk].
    by eapply unsubscribe_again.
  - apply unsubscribe_again.
  - intros k s listener Hk Hs. unfold unsubscribe. by rewrite Hk, Hs.
Qed.

(** *** The notification phase *)






(** How [subscribe] and [unsubscribe] change the registered listeners. *)
Lemma subscribe_registered listener s u s' :
  valid s ->
  subscribe listener s = (Returned u, s') ->
  registered s' = registered s ++ [listener].
Proof.
  intros Hs. unfold subscribe.
  destruct (negb _); [done|]. destruct (isDispatching s); [done|].
  set (s1 := set_subscriptions _ s).
  destruct (ensureCanMutateNextListeners_spec s1 Hs)
    as (_ & Hv & _ & Hreg & _).
  intros [= _ <-]. unfold registered, array in *.
  cbn [arrays nextListeners set_arrays]. rewrite list_lookup_alter_eq.
  change (registered s1) with (registered s) in Hreg. unfold registered, array in Hreg.
  unfold valid in Hv. destruct (lookup_lt_is_Some_2 _ _ Hv) as [a Ha].
  rewrite Ha in *. cbn in *. by rewrite Hreg.
Qed.

Lemma unsubscribe_registered k s listener :
  valid s ->
  subscriptions s !! k = Some (listener, true) ->
  isDispatching s = false ->
  exists s',
    unsubscribe k s = (Returned VUndefined, s')
    /\ registered s' = splice1 (indexOf listener (registered s)) (registered s).
Proof.
  intros Hs Hk Hflag. unfold unsubscribe. rewrite Hk, Hflag. cbn [negb].
  set (s1 := set_subscriptions _ s).
  destruct (ensureCanMutateNextListeners_spec s1 Hs)
    as (_ & Hv & _ & Hreg & _).
  eexists. split; [reflexivity|]. unfold registered, array in *.
  cbn [arrays nextListeners set_arrays]. rewrite list_lookup_alter_eq.
  change (registered s1) with (registered s) in Hreg. unfold registered, array in Hreg.
  unfold valid in Hv. destruct (lookup_lt_is_Some_2 _ _ Hv) as [a Ha].
  rewrite Ha in *. cbn in *. by rewrite Hreg.
Qed.

Lemma indexOf_from_first i x l1 l2 :
  x ∉ l1 -> indexOf_from i x (l1 ++ x :: l2) = (i + Z.of_nat (length l1))%Z.
Proof.
  revert i. induction l1 as [|y l1 IH]; intros i Hx; cbn.
  - unfold strict_eq. rewrite bool_decide_eq_true_2 by done. lia.
  - apply not_elem_of_cons in Hx as [Hne Hx]. unfold strict_eq.
    rewrite bool_decide_eq_false_2 by congruence. rewrite IH by done. lia.
Qed.

(** Removing by [indexOf] and [splice] removes the first occurrence. *)
Lemma splice1_indexOf x l1 l2 :
  x ∉ l1 -> splice1 (indexOf x (l1 ++ x :: l2)) (l1 ++ x :: l2) = l1 ++ l2.
Proof.
  intros Hx. unfold indexOf, splice1. rewrite indexOf_from_first by done.
  rewrite length_app. cbn [length].
  destruct (Z.ltb_spec (0 + Z.of_nat (length l1)) 0) as [?|_]; [lia|].
  rewrite Z.min_l by lia. rewrite Z.add_0_l, Nat2Z.id.
  rewrite take_app_length. replace (S (length l1)) with (length l1 + 1) by lia.
  by rewrite drop_app_add.
Qed.



(** The store [createStore] makes has its listener arrays in order, and
    every operation keeps them so. *)
Lemma createStore_valid fuel reducer preloadedState m s m' :
  createStore actionTypes (invoke actionTypes code fuel) fuel reducer preloadedState m
  = (Returned s, m') ->
  valid s.
Proof.
  unfold createStore. destruct (negb _); [done|].
  set (s0 := MkStore _ _ _ _ _ _ _ _ _).
  destruct (bind _ _ s0) as [[v|e|] s1] eqn:Hrun; [|done..]. intros [= <- _].
  assert (Hstable : stable s0 s1).
  { revert Hrun. apply (preserves_bind stable); [apply lift_mem_stable|].
    intros action. apply dispatch_stable, invoke_stable. }
  assert (Hs0 : valid s0) by (unfold valid, s0; cbn; lia).
  exact (proj1 (Hstable Hs0)).
Qed.


(** *** The observable *)

(** C9, at the input [null].  [typeof null] is ['object']: the check of
    [observer] lets [null] through, and what throws is the read of
    [observer.next], a [TypeError] of the engine and not the error of the
    check. *)
Theorem observable_subscribe_null :
  forall (call : value -> list value -> Comp store value) (s : store),
    observable_subscribe call VNull s
    = (Thrown (NativeTypeError VNull),
       set_mem (mem s) (set_observers (observers s ++ [VNull]) s)).
Proof.
  intros call s. unfold observable_subscribe. cbn [typeof negb].
  rewrite bool_decide_eq_true_2 by done. cbn [negb].
  unfold bind at 1, get_world at 1. unfold bind at 1, modify at 1.
  unfold bind at 1, observeState at 1. unfold bind at 1, get_world at 1.
  cbn [observers set_observers]. rewrite list_lookup_middle by done. cbn [from_option id].
  reflexivity.
Qed.

(** Every other value that is not an object is refused with
    [InvalidObserver]. *)
Lemma observable_subscribe_not_object call observer s :
  typeof observer <> TObject ->
  observable_subscribe call observer s = (Thrown InvalidObserver, s).
Proof.
  intros Hty. unfold observable_subscribe. by rewrite bool_decide_eq_false_2.
Qed.

(** An observer object, while no dispatch is in flight: its [next], when
    it has one, is called with the current state; [observeState] is
    subscribed as a listener; the object returned has the matching
    [unsubscribe].  (What [next] does to the store is its own affair: it
    is assumed to return with no dispatch in flight.) *)
Lemma observable_subscribe_object call l o s v s1 :
  let next := default VUndefined (lookup_key "next" (props o)) in
  let s0 := set_mem (mem s) (set_observers (observers s ++ [VObj l]) s) in
  heap (mem s) !! l = Some o ->
  isDispatching s = false ->
  (if truthy next
   then call next [currentState s] s0 = (Returned v, s1)
   else s1 = s0) ->
  isDispatching s1 = false ->
  valid s1 ->
  observers s1 !! length (observers s) = Some (VObj l) ->
  exists s',
    observable_subscribe call (VObj l) s
    = (Returned (VObj (length (heap (mem s1)))), s')
    /\ get_property (heap (mem s')) (VObj (length (heap (mem s1)))) "unsubscribe"
       = Returned (VFun (UnsubscribeFn (length (subscriptions s1))))
    /\ registered s' = registered s1 ++ [VFun (ObserveStateFn (length (observers s)))]
    /\ observers s' !! length (observers s) = Some (VObj l).
Proof.
  intros next s0 Hl Hflag Hnext Hflag1 Hs1 Hobs.
  unfold observable_subscribe. cbn [typeof]. rewrite bool_decide_eq_true_2 by done.
  cbn [negb]. unfold bind at 1, get_world at 1. unfold bind at 1, modify at 1.
  assert (Hobserve : observeState call (length (observers s))
                       (set_observers (observers s ++ [VObj l]) s)
                     = (Returned VUndefined, s1)).
  { unfold observeState. unfold bind at 1, get_world at 1.
    cbn [observers set_observers]. rewrite list_lookup_middle by done.
    cbn [from_option id]. unfold bind at 1, lift_mem at 1, get at 1, get_property.
    cbn [mem set_observers]. rewrite Hl, (inherited_none o "next") by reflexivity.
    fold next. fold s0.
    destruct (truthy next).
    - unfold bind at 1, getState at 1. change (isDispatching s0) with (isDispatching s).
      rewrite Hflag. change (currentState s0) with (currentState s).
      unfold bind at 1. by rewrite Hnext.
    - by rewrite Hnext. }
  unfold bind at 1. rewrite Hobserve.
  destruct (subscribe (VFun (ObserveStateFn (length (observers s)))) s1)
    as [u s2] eqn:Hsub.
  assert (Hsub' := Hsub). unfold subscribe in Hsub'. cbn [typeof] in Hsub'.
  rewrite bool_decide_eq_true_2 in Hsub' by done. cbn [negb] in Hsub'.
  rewrite Hflag1 in Hsub'. injection Hsub' as <- Hs2.
  unfold bind at 1. rewrite Hsub.
  assert (Hmem : mem s2 = mem s1).
  { rewrite <- Hs2. cbn [mem set_arrays]. unfold ensureCanMutateNextListeners.
    by destruct (bool_decide _). }
  assert (Hobs2 : observers s2 = observers s1).
  { rewrite <- Hs2. cbn [observers set_arrays]. unfold ensureCanMutateNextListeners.
    by destruct (bool_decide _). }
  eexists. unfold lift_mem, new_object. rewrite Hmem. split; [reflexivity|].
  cbn [mem set_mem heap set_heap]. split; [|split].
  - unfold get_property. by rewrite list_lookup_middle.
  - unfold registered, array. cbn [arrays nextListeners set_mem].
    by apply (subscribe_registered _ s1 _ _ Hs1 Hsub).
  - cbn [observers set_mem]. by rewrite Hobs2.
Qed.

End SubscriptionTheorems.

(** *** Scenarios *)

Section StoreScenarios.
Import JS Store.

Lemma newStore_created :
  createStore sampleTypes sampleCall 5 (VFun (UserFn 0)) VUndefined clientMemory
  = (Returned newStore, storeMemory).
Proof. reflexivity. Qed.

Lemma sampleStore_subscribed :
  bind (subscribe L1) (fun _ => subscribe L2) newStore
  = (Returned (VFun (UnsubscribeFn 1)), sampleStore).
Proof. reflexivity. Qed.

Lemma INC_is_valid s : mem s = storeMemory -> valid_action s (VObj 0).
Proof.
  intros Hm. unfold valid_action. rewrite Hm. split; [reflexivity|].
  eexists. split; [reflexivity | discriminate].
Qed.

(** The example of C4 (and the count scenario of the specification):
    dispatching [{type: 'INC'}] returns that very action, and the state
    goes from 0 to 1. *)
Lemma dispatch_returns_its_action_witness :
  dispatch sampleCall 5 (VObj 0) sampleStore = (Returned (VObj 0), storeAfterINC).
Proof.
  refine (proj1 (dispatch_returns_its_action sampleTypes sampleCode 5 (VObj 0) sampleStore
                   (VNum 1) (set_isDispatching true sampleStore) [L1; L2] storeAfterINC
                   _ _ _ _) 5 _).
  - by apply INC_is_valid.
  - reflexivity.
  - reflexivity.
  - reflexivity.
  - lia.
Defined.

(** The example of C1: the reducer throws on [{type: 'FAIL'}]; the
    state is still 1 and the flag is cleared. *)
Lemma failed_dispatch_restores_witness :
  exists s',
    dispatch sampleCall 5 (VObj 1) storeAfterINC = (Thrown (UserError (VStr "boom")), s')
    /\ currentState s' = VNum 1
    /\ isDispatching s' = false.
Proof.
  destruct (failed_dispatch_restores sampleTypes sampleCode 5 (VObj 1) storeAfterINC
              (UserError (VStr "boom")) (set_isDispatching true storeAfterINC))
    as ((s' & Hthrow & Hstate & Hflag & _) & _).
  - split; [reflexivity|]. eexists. split; [reflexivity | discriminate].
  - reflexivity.
  - reflexivity.
  - exists s'. split; [exact Hthrow|]. split; [exact Hstate | exact Hflag].
Defined.

(** The example of C8: the second call of L2's [unsubscribe] changes
    nothing, and a first call during a dispatch throws. *)
Lemma unsubscribe_idempotent_witness :
  unsubscribe 1 (snd (unsubscribe 1 sampleStore))
  = (Returned VUndefined, snd (unsubscribe 1 sampleStore))
  /\ unsubscribe 1 (set_isDispatching true sampleStore)
     = (Thrown ReentrantUnsubscribe, set_isDispatching true sampleStore).
Proof.
  destruct (unsubscribe_idempotent sampleTypes sampleCode) as (_ & _ & Htwice & _ & Hflight).
  split.
  - apply (Htwice 1 sampleStore VUndefined). reflexivity.
  - apply (Hflight 1 (set_isDispatching true sampleStore) L2); reflexivity.
Defined.


End StoreScenarios.

Section MiddlewareScenario.
Import JS ApplyMiddleware.

(** [applyMiddleware(mid1, mid2)(createStore)(counter)], then one
    [dispatch({type: 'INC'})]: the log is ["a", "b"], the action comes
    back, and the state is 1. *)
Lemma logged_dispatch_a_then_b :
  match applyMiddleware 1 [logging "a"; logging "b"] createLoggedStore
          (VFun (UserFn 0), VUndefined) worldBefore with
  | (Returned store, w) =>
      dispatch store (VObj 0) w
      = (Returned (VObj 0),
         (["a"; "b"],
          Store.MkStore storeMemory (VFun (UserFn 0)) (VNum 1) 0 0 false [[]] [] []))
  | _ => False
  end.
Proof. reflexivity. Qed.

End MiddlewareScenario.

(** ** Further properties: errors and edge cases, invariants, round trips,
    and how the operations compose *)

(** ** The store: the listener array keeps to the subscriptions *)

Section Tracking.
Import JS Store.

Lemma tracking_preorder : PreOrder tracking.
Proof.
  split.
  - by intros s Hs.
  - intros s1 s2 s3 H12 H23 Hs. by apply H23, H12.
Qed.
#[local] Existing Instance tracking_preorder.

Lemma same_subscriptions_tracking s s' :
  arrays s' = arrays s ->
  nextListeners s' = nextListeners s ->
  subscriptions s' = subscriptions s ->
  tracking s s'.
Proof.
  intros Ha Hn Hsub [Hv Hp]. unfold tracked, valid, registered, array, subscribed in *.
  by rewrite Ha, Hn, Hsub.
Qed.

Lemma lift_mem_tracking {A} (f : Comp memory A) : preserves tracking (lift_mem f).
Proof.
  intros s r s'. unfold lift_mem. destruct (f (mem s)) as [r0 m]. intros [= _ <-].
  by apply same_subscriptions_tracking.
Qed.

Lemma getState_tracking : preserves tracking getState.
Proof.
  intros s r s'. unfold getState. destruct (isDispatching s); intros [= _ <-]; reflexivity.
Qed.

Lemma subscribe_subscriptions listener s u s' :
  subscribe listener s = (Returned u, s') ->
  subscriptions s' = subscriptions s ++ [(listener, true)] /\ isDispatching s' = false.
Proof.
  unfold subscribe. destruct (negb _); [done|].
  destruct (isDispatching s) eqn:Hflag; [done|]. intros [= _ <-].
  cbn [subscriptions isDispatching set_arrays]. unfold ensureCanMutateNextListeners.
  destruct (bool_decide _); cbn; done.
Qed.

Lemma subscribe_unchanged listener s e s' :
  subscribe listener s = (Thrown e, s') -> s' = s.
Proof.
  unfold subscribe. destruct (negb _); [by intros [= _ <-]|].
  destruct (isDispatching s); [by intros [= _ <-]|done].
Qed.

Lemma subscribe_tracking listener : preserves tracking (subscribe listener).
Proof.
  intros s r s' Hsub [Hv Hp]. destruct r as [u|e|].
  - split; [exact (proj1 (subscribe_stable _ _ _ _ Hsub Hv))|].
    rewrite (subscribe_registered _ _ _ _ Hv Hsub). unfold subscribed.
    rewrite (proj1 (subscribe_subscriptions _ _ _ _ Hsub)), omap_app. cbn.
    by apply Permutation_app.
  - by rewrite (subscribe_unchanged _ _ _ _ Hsub).
  - unfold subscribe in Hsub. destruct (negb _); [done|]. by destruct (isDispatching s).
Qed.

Lemma subscribed_insert k listener subs :
  subs !! k = Some (listener, true) ->
  exists before after,
    omap (fun sub : value * bool => if snd sub then Some (fst sub) else None) subs
    = before ++ listener :: after
    /\ omap (fun sub : value * bool => if snd sub then Some (fst sub) else None)
         (<[k := (listener, false)]> subs)
       = before ++ after.
Proof.
  intros Hk. set (f := fun sub : value * bool => if snd sub then Some (fst sub) else None).
  exists (omap f (take k subs)), (omap f (drop (S k) subs)). split.
  - replace (omap f subs)
      with (omap f (take k subs ++ (listener, true) :: drop (S k) subs))
      by (by rewrite take_drop_middle).
    by rewrite omap_app.
  - rewrite insert_take_drop by (by eapply lookup_lt_Some).
    by rewrite omap_app.
Qed.

Lemma unsubscribe_subscriptions k s listener s' :
  subscriptions s !! k = Some (listener, true) ->
  unsubscribe k s = (Returned VUndefined, s') ->
  exists before after,
    subscribed s = before ++ listener :: after /\ subscribed s' = before ++ after.
Proof.
  intros Hk. unfold unsubscribe. rewrite Hk. cbn [negb].
  destruct (isDispatching s); [done|]. intros [= <-].
  destruct (subscribed_insert _ _ _ Hk) as (before & after & Hb & Ha).
  exists before, after. split; [exact Hb|].
  unfold subscribed. cbn [subscriptions set_arrays].
  rewrite ensureCanMutateNextListeners_subscriptions. exact Ha.
Qed.

Lemma unsubscribe_tracking k : preserves tracking (unsubscribe k).
Proof.
  intros s r s' Hun [Hv Hp].
  destruct (subscriptions s !! k) as [[listener isSubscribed]|] eqn:Hk;
    [|unfold unsubscribe in Hun; rewrite Hk in Hun; by injection Hun as _ <-].
  destruct isSubscribed;
    [|unfold unsubscribe in Hun; rewrite Hk in Hun; by injection Hun as _ <-].
  destruct (isDispatching s) eqn:Hflag;
    [unfold unsubscribe in Hun; rewrite Hk, Hflag in Hun; by injection Hun as _ <-|].
  destruct (unsubscribe_registered k s listener Hv Hk Hflag) as (s1 & Hun1 & Hreg).
  rewrite Hun1 in Hun. injection Hun as _ <-.
  split; [exact (proj1 (unsubscribe_stable _ _ _ _ Hun1 Hv))|].
  destruct (unsubscribe_subscriptions _ _ _ _ Hk Hun1) as (before & after & Hb & Ha).
  assert (Hin : listener ∈ registered s).
  { rewrite Hp, Hb. apply elem_of_app. right. left. }
  apply list_elem_of_split_l in Hin as (l1 & l2 & Hl & Hfirst).
  rewrite Hreg, Hl, (splice1_indexOf _ _ _ Hfirst), Ha.
  rewrite Hl, Hb in Hp. rewrite <- !Permutation_middle in Hp.
  by apply Permutation_cons_inv in Hp.
Qed.
End Tracking.

Section TrackingOperations.
Import JS Store.
#[local] Existing Instance tracking_preorder.
Variable actionTypes : action_types.
Variable call : value -> list value -> Comp store value.
Hypothesis call_tracking : forall f args, preserves tracking (call f args).

Lemma notify_tracking gas listeners i : preserves tracking (notify call gas listeners i).
Proof.
  revert i. induction gas as [|gas IH]; intros i s r s'; cbn [notify].
  - destruct (i <? _)%nat; intros [= _ <-]; reflexivity.
  - destruct (i <? _)%nat; [|intros [= _ <-]; reflexivity].
    set (listener := default VUndefined _).
    apply (preserves_bind tracking); [apply call_tracking|].
    intros _. apply (preserves_bind tracking); [apply IH|].
    intros called. apply (preserves_ret tracking).
Qed.

Local Ltac tracking_steps :=
  repeat first
    [ apply (preserves_ret tracking) | apply (preserves_throw tracking)
    | apply (preserves_out_of_fuel tracking)
    | apply (preserves_get_world tracking) | apply lift_mem_tracking
    | apply getState_tracking | apply subscribe_tracking | apply unsubscribe_tracking
    | apply call_tracking | apply notify_tracking
    | apply (preserves_modify tracking); intros ?; by apply same_subscriptions_tracking
    | apply (preserves_bind tracking); [|intros ?]
    | apply (preserves_try_finally tracking)
    | apply (preserves_try_catch tracking); [|intros ?]
    | match goal with |- preserves _ (if ?b then _ else _) => destruct b end ].

Lemma dispatch_tracking gas action : preserves tracking (dispatch call gas action).
Proof. unfold dispatch. tracking_steps. Qed.

Lemma replaceReducer_tracking gas nextReducer :
  preserves tracking (replaceReducer actionTypes call gas nextReducer).
Proof. unfold replaceReducer. tracking_steps. Qed.

Lemma observeState_tracking k : preserves tracking (observeState call k).
Proof. unfold observeState. tracking_steps. Qed.

Lemma observable_subscribe_tracking observer :
  preserves tracking (observable_subscribe call observer).
Proof. unfold observable_subscribe. tracking_steps. Qed.

Lemma run_tracking gas p : preserves tracking (run actionTypes call gas p).
Proof.
  induction p; cbn [run]; try (tracking_steps; fail);
    (apply (preserves_bind tracking); [|by intros ?]).
  - apply lift_mem_tracking.
  - apply call_tracking.
  - apply getState_tracking.
  - apply subscribe_tracking.
  - apply dispatch_tracking.
  - apply replaceReducer_tracking.
  - apply observable_subscribe_tracking.
  - apply (preserves_try_catch tracking); auto.
Qed.

End TrackingOperations.

Section TrackingTheorem.
Import JS Store.
#[local] Existing Instance tracking_preorder.
Variable actionTypes : action_types.
Variable code : nat -> list value -> prog.

Lemma invoke_tracking fuel f args : preserves tracking (invoke actionTypes code fuel f args).
Proof.
  revert f args. induction fuel as [|fuel IH]; intros f args;
    destruct f as [| | | | | |[n|k|k]|[| |name]]; cbn [invoke];
    try apply (preserves_throw tracking); try apply (preserves_out_of_fuel tracking);
    try apply unsubscribe_tracking.
  - by apply run_tracking.
  - by apply observeState_tracking.
Qed.

(** X1.  The listener array and the subscriptions go together: in the
    store [createStore] makes, and after any program over the store's
    operations, the array holds exactly the listeners still subscribed,
    each as often as it is subscribed.  So a subscribed [unsubscribe]
    always finds its listener: [indexOf] is never -1, and [splice]
    removes the first occurrence of that listener and nothing else. *)
Theorem listeners_match_subscriptions :
  (forall fuel reducer preloadedState m s m',
      createStore actionTypes (invoke actionTypes code fuel) fuel reducer preloadedState m
      = (Returned s, m') ->
      tracked s)
  /\ (forall fuel p s r s',
        tracked s ->
        run actionTypes (invoke actionTypes code fuel) fuel p s = (r, s') ->
        tracked s')
  /\ (forall k s listener,
        tracked s ->
        subscriptions s !! k = Some (listener, true) ->
        isDispatching s = false ->
        exists s' before after,
          unsubscribe k s = (Returned VUndefined, s')
          /\ registered s = before ++ listener :: after
          /\ (listener ∉ before)
          /\ (0 <= indexOf listener (registered s))%Z
          /\ registered s' = before ++ after
          /\ tracked s').
Proof.
  split; [|split].
  - intros fuel reducer preloadedState m s m'. unfold createStore.
    destruct (negb _); [done|].
    set (s0 := MkStore _ _ _ _ _ _ _ _ _).
    destruct (bind _ _ s0) as [[v|e|] s1] eqn:Hrun; [|done..]. intros [= <- _].
    assert (Hkeeps : tracking s0 s1).
    { revert Hrun. apply (preserves_bind tracking); [apply lift_mem_tracking|].
      intros action. apply dispatch_tracking, invoke_tracking. }
    apply Hkeeps. split; [unfold valid, s0; cbn; lia|]. reflexivity.
  - intros fuel p s r s' Hs Hrun.
    exact (run_tracking actionTypes _ (invoke_tracking fuel) fuel p _ _ _ Hrun Hs).
  - intros k s listener Hs Hk Hflag. destruct Hs as [Hv Hp].
    destruct (unsubscribe_registered k s listener Hv Hk Hflag) as (s' & Hun & Hreg).
    destruct (unsubscribe_subscriptions _ _ _ _ Hk Hun) as (b & a & Hb & Ha).
    assert (Hin : listener ∈ registered s).
    { rewrite Hp, Hb. apply elem_of_app. right. left. }
    apply list_elem_of_split_l in Hin as (before & after & Hl & Hfirst).
    exists s', before, after. split; [exact Hun|]. split; [exact Hl|].
    split; [exact Hfirst|]. split.
    { rewrite Hl. unfold indexOf. rewrite indexOf_from_first by done. lia. }
    split.
    { by rewrite Hreg, Hl, splice1_indexOf. }
    exact (unsubscribe_tracking k _ _ _ Hun (conj Hv Hp)).
Qed.
End TrackingTheorem.

(** ** The store: subscribing and unsubscribing again *)

Section RoundTrip.
Import JS Store.

(** X2.  Subscribing a listener and calling the [unsubscribe] that came
    back: a listener that was not registered leaves the registered
    listeners as they were.  One that was registered already loses its
    earlier place, not the new one: [indexOf] finds the first occurrence,
    so the listener ends up last. *)
Theorem subscribe_then_unsubscribe listener s u s1 :
  valid s ->
  subscribe listener s = (Returned u, s1) ->
  exists k s2,
    u = VFun (UnsubscribeFn k)
    /\ unsubscribe k s1 = (Returned VUndefined, s2)
    /\ (listener ∉ registered s -> registered s2 = registered s)
    /\ (forall before after,
          registered s = before ++ listener :: after ->
          listener ∉ before ->
          registered s2 = before ++ after ++ [listener])
    /\ registered s2 ≡ₚ registered s
    /\ subscribed s2 = subscribed s.
Proof.
  intros Hs Hsub.
  assert (Hs1 : valid s1) by exact (proj1 (subscribe_stable _ _ _ _ Hsub Hs)).
  assert (Hreg1 := subscribe_registered _ _ _ _ Hs Hsub).
  destruct (subscribe_subscriptions _ _ _ _ Hsub) as [Hsubs1 Hflag1].
  assert (Hu : u = VFun (UnsubscribeFn (length (subscriptions s)))).
  { revert Hsub. unfold subscribe. destruct (negb _); [done|].
    destruct (isDispatching s); [done|]. by intros [= <- _]. }
  assert (Hk : subscriptions s1 !! length (subscriptions s) = Some (listener, true)).
  { rewrite Hsubs1. by apply list_lookup_middle. }
  destruct (unsubscribe_registered _ s1 listener Hs1 Hk Hflag1) as (s2 & Hun & Hreg2).
  exists (length (subscriptions s)), s2. split; [exact Hu|]. split; [exact Hun|].
  assert (Hfresh : listener ∉ registered s -> registered s2 = registered s).
  { intros Hnew. rewrite Hreg2, Hreg1.
    rewrite <- (app_nil_r (registered s)) at 3.
    by apply splice1_indexOf. }
  assert (Hagain : forall before after,
            registered s = before ++ listener :: after ->
            listener ∉ before ->
            registered s2 = before ++ after ++ [listener]).
  { intros before after Hreg Hfirst. rewrite Hreg2, Hreg1, Hreg.
    rewrite <- app_assoc. cbn [app]. by apply splice1_indexOf. }
  split; [exact Hfresh|]. split; [exact Hagain|]. split.
  - destruct (decide (listener ∈ registered s)) as [Hin|Hnew]; [|by rewrite Hfresh].
    apply list_elem_of_split_l in Hin as (before & after & Hreg & Hfirst).
    rewrite (Hagain _ _ Hreg Hfirst), Hreg.
    f_equiv. apply (Permutation_app_comm after [listener]).
  - unfold subscribed.
    assert (Hsubs2 : subscriptions s2
                     = <[length (subscriptions s) := (listener, false)]> (subscriptions s1)).
    { revert Hun. unfold unsubscribe. rewrite Hk, Hflag1. cbn [negb]. intros [= <-].
      cbn [subscriptions set_arrays]. by rewrite ensureCanMutateNextListeners_subscriptions. }
    rewrite Hsubs2, Hsubs1.
    rewrite insert_app_r_alt by lia. rewrite Nat.sub_diag. cbn [insert list_insert].
    rewrite omap_app. cbn. by rewrite app_nil_r.
Qed.

End RoundTrip.

(** ** The store: what is refused, and when *)

Section Refusals.
Import JS Store.
Variable actionTypes : action_types.
Variable code : nat -> list value -> prog.

Lemma set_isDispatching_back s :
  isDispatching s = false -> set_isDispatching false (set_isDispatching true s) = s.
Proof. destruct s. cbn. by intros ->. Qed.

Lemma dispatch_refused_in_flight call gas action s :
  valid_action s action ->
  isDispatching s = true ->
  dispatch call gas action s = (Thrown ReentrantDispatch, s).
Proof.
  intros (Hplain & t & Ht & Hdef) Hs.
  unfold dispatch. unfold bind at 1, get_world at 1. rewrite Hplain. cbn [negb].
  unfold bind at 1, lift_mem at 1, get at 1. rewrite Ht, set_mem_id.
  rewrite bool_decide_eq_false_2 by (by rewrite typeof_undefined).
  by rewrite Hs.
Qed.

(** X3.  While a dispatch is in flight, [getState], [subscribe] and
    [dispatch] throw their own error and change nothing.  So a reducer
    that starts by reading the state, by subscribing or by dispatching
    makes the dispatch it runs in fail with that error, and the store is
    as it was before.  The checks of the arguments come first, in flight
    or not: a listener that is not a function, an action that is not a
    plain object or that has no type is refused with its own error, and
    nothing is called or changed. *)
Theorem calls_in_flight_are_refused :
  (forall call gas s,
      isDispatching s = true ->
      getState s = (Thrown ReentrantRead, s)
      /\ (forall listener,
            typeof listener = TFunction ->
            subscribe listener s = (Thrown ReentrantSubscribe, s))
      /\ (forall action,
            valid_action s action ->
            dispatch call gas action s = (Thrown ReentrantDispatch, s)))
  /\ (forall fuel n action s p e,
        valid_action s action ->
        isDispatching s = false ->
        currentReducer s = VFun (UserFn n) ->
        code n [currentState s; action] = p ->
        (exists k, p = GetState k /\ e = ReentrantRead)
        \/ (exists listener k,
              p = Subscribe listener k /\ typeof listener = TFunction
              /\ e = ReentrantSubscribe)
        \/ (exists nested k,
              p = Dispatch nested k /\ valid_action s nested /\ e = ReentrantDispatch) ->
        dispatch (invoke actionTypes code (S fuel)) (S fuel) action s = (Thrown e, s))
  /\ (forall call gas s,
        (forall listener,
            typeof listener <> TFunction ->
            subscribe listener s = (Thrown InvalidListener, s))
        /\ (forall action,
              isPlainObject (heap (mem s)) action = false ->
              dispatch call gas action s = (Thrown InvalidAction, s))
        /\ (forall action,
              isPlainObject (heap (mem s)) action = true ->
              get_property (heap (mem s)) action "type" = Returned VUndefined ->
              dispatch call gas action s = (Thrown MissingActionType, s))).
Proof.
  assert (Hflight : forall call gas s,
      isDispatching s = true ->
      getState s = (Thrown ReentrantRead, s)
      /\ (forall listener,
            typeof listener = TFunction ->
            subscribe listener s = (Thrown ReentrantSubscribe, s))
      /\ (forall action,
            valid_action s action ->
            dispatch call gas action s = (Thrown ReentrantDispatch, s))).
  { intros call gas s Hs. split; [|split].
    - unfold getState. by rewrite Hs.
    - intros listener Hfn. unfold subscribe.
      rewrite bool_decide_eq_true_2 by done. cbn [negb]. by rewrite Hs.
    - intros action Hvalid. by apply dispatch_refused_in_flight. }
  split; [exact Hflight|]. split.
  - intros fuel n action s p e Hvalid Hs Hreducer Hcode Hp.
    rewrite dispatch_checked by done. unfold bind at 1.
    rewrite applyReducer_cases, Hreducer. cbn [invoke]. rewrite Hcode.
    set (s1 := set_isDispatching true s).
    destruct (Hflight (invoke actionTypes code fuel) fuel s1 eq_refl)
      as (Hread & Hsubscribe & Hdispatch).
    destruct Hp as [(k & -> & ->)|[(listener & k & -> & Hfn & ->)|(nested & k & -> & Hn & ->)]];
      cbn [run]; unfold bind at 1.
    + rewrite Hread. subst s1. by rewrite set_isDispatching_back.
    + rewrite (Hsubscribe listener Hfn). subst s1. by rewrite set_isDispatching_back.
    + rewrite (Hdispatch nested Hn). subst s1. by rewrite set_isDispatching_back.
  - intros call gas s. split; [|split].
    + intros listener Hty. unfold subscribe. by rewrite bool_decide_eq_false_2.
    + intros action Hplain. unfold dispatch, bind at 1, get_world at 1.
      by rewrite Hplain.
    + intros action Hplain Htype. unfold dispatch, bind at 1, get_world at 1.
      rewrite Hplain. cbn [negb]. unfold bind at 1, lift_mem at 1, get at 1.
      by rewrite Htype, set_mem_id.
Qed.

End Refusals.


(** ** The store: replaceReducer *)

Section Replacing.
Import JS Store.
Variable actionTypes : action_types.
Variable code : nat -> list value -> prog.

Lemma fresh_action_valid (s : store) t ps :
  heap (mem s) = ps ++ [Object true [("type", VStr t)]] ->
  valid_action s (VObj (length ps)) /\ has_type (mem s) (VObj (length ps)) t.
Proof.
  intros Hheap. unfold valid_action, has_type, isPlainObject, get_property.
  rewrite Hheap, list_lookup_middle by done.
  split; [|reflexivity]. split; [reflexivity|]. by eexists.
Qed.

Lemma replaceReducer_dispatches call gas nextReducer s :
  typeof nextReducer = TFunction ->
  replaceReducer actionTypes call gas nextReducer s
  = bind (dispatch call gas (VObj (length (heap (mem s))))) (fun _ => ret VUndefined)
      (replacing actionTypes nextReducer s).
Proof.
  intros Hfn. unfold replaceReducer. rewrite bool_decide_eq_true_2 by done. cbn [negb].
  reflexivity.
Qed.

(** X4.  [replaceReducer] refuses what is not a function and changes
    nothing.  A function it puts in place as the reducer, and then it
    dispatches a fresh action of type [REPLACE]; it does not test for a
    dispatch in flight itself.  Called from a reducer it throws, as the
    dispatch does, but the reducer has been replaced.  Otherwise the new
    reducer is called with the current state and that action: when it
    returns, its result is the state and the listeners are notified;
    when it throws, the call throws the same. *)
Theorem replaceReducer_installs_then_dispatches call gas nextReducer s :
  (typeof nextReducer <> TFunction ->
   replaceReducer actionTypes call gas nextReducer s = (Thrown InvalidReducer, s))
  /\ (typeof nextReducer = TFunction ->
      let action := VObj (length (heap (mem s))) in
      let s0 := replacing actionTypes nextReducer s in
      has_type (mem s0) action (REPLACE actionTypes)
      /\ currentReducer s0 = nextReducer
      /\ (isDispatching s = true ->
            replaceReducer actionTypes call gas nextReducer s
            = (Thrown ReentrantDispatch, s0))
      /\ (forall nextState s1 called s2,
            isDispatching s = false ->
            call nextReducer [currentState s; action] (set_isDispatching true s0)
            = (Returned nextState, s1) ->
            notifyListeners call gas (set_isDispatching false (set_currentState nextState s1))
            = (Returned called, s2) ->
            replaceReducer actionTypes call gas nextReducer s = (Returned VUndefined, s2))
      /\ (forall e s1,
            isDispatching s = false ->
            call nextReducer [currentState s; action] (set_isDispatching true s0)
            = (Thrown e, s1) ->
            replaceReducer actionTypes call gas nextReducer s
            = (Thrown e, set_isDispatching false s1))).
Proof.
  split.
  { intros Hty. unfold replaceReducer. by rewrite bool_decide_eq_false_2. }
  intros Hfn action s0.
  destruct (fresh_action_valid s0 (REPLACE actionTypes) (heap (mem s)) eq_refl)
    as [Hvalid Htype].
  split; [exact Htype|]. split; [reflexivity|]. split; [|split].
  - intros Hs. rewrite replaceReducer_dispatches by done. fold s0. unfold bind at 1.
    by rewrite (dispatch_refused_in_flight call gas _ s0 Hvalid Hs).
  - intros nextState s1 called s2 Hs Hreduce Hnotify.
    rewrite replaceReducer_dispatches by done. fold s0. unfold bind at 1.
    by rewrite (dispatch_succeeds call gas _ s0 nextState s1 called s2 Hvalid Hs Hreduce Hnotify).
  - intros e s1 Hs Hthrow.
    rewrite replaceReducer_dispatches by done. fold s0. unfold bind at 1.
    rewrite dispatch_checked by done. unfold bind at 1.
    rewrite applyReducer_cases.
    change (currentReducer s0) with nextReducer.
    change (currentState s0) with (currentState s).
    subst action. by rewrite Hthrow.
Qed.
End Replacing.

(** ** The store: the first state, and a listener that throws *)

Section FirstDispatches.
Import JS Store.
Variable actionTypes : action_types.
Variable code : nat -> list value -> prog.

Lemma createStore_dispatches call gas reducer preloadedState m :
  typeof reducer = TFunction ->
  createStore actionTypes call gas reducer preloadedState m
  = match dispatch call gas (VObj (length (heap m)))
            (initializing actionTypes reducer preloadedState m) with
    | (Returned _, s) => (Returned s, mem s)
    | (Thrown e, s) => (Thrown e, mem s)
    | (OutOfFuel, s) => (OutOfFuel, mem s)
    end.
Proof.
  intros Hfn. unfold createStore. rewrite bool_decide_eq_true_2 by done. reflexivity.
Qed.

(** With no listener registered, the notification calls nobody. *)
Lemma notifyListeners_nobody call gas s :
  registered s = [] ->
  notifyListeners call gas s = (Returned [], set_currentListeners (nextListeners s) s).
Proof.
  intros Hreg. unfold notifyListeners, bind at 1, modify at 1.
  unfold bind at 1, get_world at 1. cbn [currentListeners set_currentListeners].
  destruct gas; cbn [notify];
    change (array (set_currentListeners (nextListeners s) s) (nextListeners s))
      with (registered s); by rewrite Hreg.
Qed.

(** X5.  [createStore] refuses a reducer that is not a function.  To a
    function it dispatches a fresh action of type [INIT], with the
    preloaded state: what the reducer returns is the first state of the
    store, which has no listener and no dispatch in flight; when the
    reducer throws, [createStore] throws the same and there is no
    store. *)
Theorem createStore_initial_state fuel reducer preloadedState m :
  (typeof reducer <> TFunction ->
   createStore actionTypes (invoke actionTypes code fuel) fuel reducer preloadedState m
   = (Thrown InvalidReducer, m))
  /\ (typeof reducer = TFunction ->
      let action := VObj (length (heap m)) in
      let s0 := initializing actionTypes reducer preloadedState m in
      has_type (mem s0) action (INIT actionTypes)
      /\ (forall init s1,
            invoke actionTypes code fuel reducer [preloadedState; action]
              (set_isDispatching true s0) = (Returned init, s1) ->
            exists s,
              createStore actionTypes (invoke actionTypes code fuel) fuel reducer
                preloadedState m
              = (Returned s, mem s)
              /\ currentState s = init
              /\ getState s = (Returned init, s)
              /\ registered s = []
              /\ subscriptions s = []
              /\ isDispatching s = false)
      /\ (forall e s1,
            invoke actionTypes code fuel reducer [preloadedState; action]
              (set_isDispatching true s0) = (Thrown e, s1) ->
            createStore actionTypes (invoke actionTypes code fuel) fuel reducer
              preloadedState m
            = (Thrown e, mem s1))).
Proof.
  split.
  { intros Hty. unfold createStore. by rewrite bool_decide_eq_false_2. }
  intros Hfn action s0.
  destruct (fresh_action_valid s0 (INIT actionTypes) (heap m) eq_refl) as [Hvalid Htype].
  split; [exact Htype|]. split.
  - intros init s1 Hreduce.
    destruct (invoke_guarded _ _ _ _ _ _ _ _ Hreduce eq_refl)
      as (_ & _ & Harrays & Hnext & _ & Hsubs).
    set (s1' := set_isDispatching false (set_currentState init s1)).
    assert (Hreg : registered s1' = []).
    { unfold registered, array, s1'. cbn. by rewrite Harrays, Hnext. }
    eexists. rewrite createStore_dispatches by done. fold s0.
    rewrite (dispatch_succeeds _ fuel _ s0 init s1 [] _ Hvalid eq_refl Hreduce
               (notifyListeners_nobody _ fuel s1' Hreg)).
    split; [reflexivity|]. split; [reflexivity|]. split; [reflexivity|].
    split; [exact Hreg|]. split; [exact Hsubs | reflexivity].
  - intros e s1 Hthrow.
    rewrite createStore_dispatches by done. fold s0.
    rewrite dispatch_checked by done. unfold bind at 1.
    rewrite applyReducer_cases.
    change (currentReducer s0) with reducer.
    change (currentState s0) with preloadedState.
    subst action. by rewrite Hthrow.
Qed.

(** X6.  When a listener throws, [dispatch] throws the same, from the
    store the notification left: the state the reducer returned has been
    assigned and stays, and the flag is cleared.  When it is the first
    listener that throws, no other listener has been called. *)
Theorem listener_failure_keeps_the_state fuel action s nextState s1 :
  valid_action s action ->
  isDispatching s = false ->
  invoke actionTypes code fuel (currentReducer s) [currentState s; action]
    (set_isDispatching true s) = (Returned nextState, s1) ->
  let updated := set_isDispatching false (set_currentState nextState s1) in
  getState updated = (Returned nextState, updated)
  /\ (forall e s2,
        notifyListeners (invoke actionTypes code fuel) fuel updated = (Thrown e, s2) ->
        dispatch (invoke actionTypes code fuel) fuel action s = (Thrown e, s2)
        /\ isDispatching s2 = false)
  /\ (forall listener rest e s2,
        registered s = listener :: rest ->
        invoke actionTypes code fuel listener []
          (set_currentListeners (nextListeners updated) updated) = (Thrown e, s2) ->
        0 < fuel ->
        dispatch (invoke actionTypes code fuel) fuel action s = (Thrown e, s2)).
Proof.
  intros Hvalid Hs Hreduce updated.
  assert (Hfail : forall e s2,
            notifyListeners (invoke actionTypes code fuel) fuel updated = (Thrown e, s2) ->
            dispatch (invoke actionTypes code fuel) fuel action s = (Thrown e, s2)).
  { intros e s2 Hnotify. rewrite dispatch_checked by done. unfold bind at 1.
    rewrite applyReducer_cases, Hreduce. fold updated. unfold bind at 1.
    by rewrite Hnotify. }
  split; [reflexivity|]. split.
  - intros e s2 Hnotify. split; [by apply Hfail|].
    eapply (notifyListeners_settles (invoke actionTypes code fuel)
              (invoke_settles actionTypes code fuel) fuel); [exact Hnotify|done..].
  - intros listener rest e s2 Hreg Hthrow Hfuel. apply Hfail.
    destruct (invoke_guarded _ _ _ _ _ _ _ _ Hreduce eq_refl)
      as (_ & _ & Harrays & Hnext & _).
    assert (Hreg' : registered updated = listener :: rest).
    { rewrite <- Hreg. unfold registered, array, updated. cbn. by rewrite Harrays, Hnext. }
    unfold notifyListeners, bind at 1, modify at 1.
    unfold bind at 1, get_world at 1. cbn [currentListeners set_currentListeners].
    destruct fuel as [|gas]; [lia|]. cbn [notify].
    change (array (set_currentListeners (nextListeners updated) updated)
              (nextListeners updated)) with (registered updated).
    rewrite Hreg'. cbn [length Nat.ltb Nat.leb lookup list_lookup from_option id].
    unfold bind at 1. by rewrite Hthrow.
Qed.

End FirstDispatches.

(** ** The store: what an observer is told *)

Section Observer.
Import JS Store.
Variable actionTypes : action_types.
Variable code : nat -> list value -> prog.

(** X7.  The [subscribe] of the observable refuses, with
    [InvalidObserver] and without a change, every observer whose
    [typeof] is not ['object']: a primitive, a function, [undefined].
    An observer that is an object, while no dispatch is in flight, has
    its [next] (when it has one) called with the current state at once;
    then [observeState] is registered as the last listener, and the
    object returned holds the [unsubscribe] of that registration. *)
Theorem observable_subscribe_checks_then_registers call :
  (forall observer s,
      typeof observer <> TObject ->
      observable_subscribe call observer s = (Thrown InvalidObserver, s))
  /\ (forall l o s v s1,
        heap (mem s) !! l = Some o ->
        isDispatching s = false ->
        (if truthy (default VUndefined (lookup_key "next" (props o)))
         then call (default VUndefined (lookup_key "next" (props o))) [currentState s]
                (set_mem (mem s) (set_observers (observers s ++ [VObj l]) s))
              = (Returned v, s1)
         else s1 = set_mem (mem s) (set_observers (observers s ++ [VObj l]) s)) ->
        isDispatching s1 = false ->
        valid s1 ->
        observers s1 !! length (observers s) = Some (VObj l) ->
        exists s' subscription,
          observable_subscribe call (VObj l) s = (Returned subscription, s')
          /\ typeof subscription = TObject
          /\ get_property (heap (mem s')) subscription "unsubscribe"
             = Returned (VFun (UnsubscribeFn (length (subscriptions s1))))
          /\ registered s' = registered s1 ++ [VFun (ObserveStateFn (length (observers s)))]
          /\ observers s' !! length (observers s) = Some (VObj l)).
Proof.
  split.
  - intros observer s Hty. by apply observable_subscribe_not_object.
  - intros l o s v s1 Hl Hflag Hnext Hflag1 Hs1 Hobs.
    destruct (observable_subscribe_object call l o s v s1 Hl Hflag Hnext Hflag1 Hs1 Hobs)
      as (s' & Hrun & Hunsubscribe & Hreg & Hobs').
    exists s', (VObj (length (heap (mem s1)))).
    split; [exact Hrun|]. split; [reflexivity|]. split; [exact Hunsubscribe|].
    split; [exact Hreg | exact Hobs'].
Qed.

(** X8.  A store whose one listener is the [observeState] of an
    observer: a dispatch whose reducer returns calls the observer's
    [next] with the state the reducer returned, once the state is
    assigned and the flag cleared, and returns when [next] returns; an
    observer that has no [next] is not called. *)
Theorem observer_is_told_the_new_state fuel action s nextState s1 k l o :
  valid s ->
  valid_action s action ->
  isDispatching s = false ->
  registered s = [VFun (ObserveStateFn k)] ->
  invoke actionTypes code (S fuel) (currentReducer s) [currentState s; action]
    (set_isDispatching true s) = (Returned nextState, s1) ->
  observers s1 !! k = Some (VObj l) ->
  heap (mem s1) !! l = Some o ->
  let next := default VUndefined (lookup_key "next" (props o)) in
  let notified :=
    set_currentListeners (nextListeners s1)
      (set_isDispatching false (set_currentState nextState s1)) in
  (forall v s2,
      truthy next = true ->
      invoke actionTypes code fuel next [nextState] notified = (Returned v, s2) ->
      dispatch (invoke actionTypes code (S fuel)) (S fuel) action s = (Returned action, s2))
  /\ (truthy next = false ->
      dispatch (invoke actionTypes code (S fuel)) (S fuel) action s
      = (Returned action, notified)).
Proof.
  intros Hs Hvalid Hflag Hreg Hreduce Hobs Hheap next notified.
  destruct (invoke_guarded _ _ _ _ _ _ _ _ Hreduce eq_refl)
    as (_ & _ & Harrays & Hnext & _).
  assert (Hlisteners : array notified (nextListeners s1) = [VFun (ObserveStateFn k)]).
  { rewrite <- Hreg. unfold registered, array, notified. cbn. by rewrite Harrays, Hnext. }
  assert (Hnotified : valid notified).
  { unfold valid, notified in *. cbn in *. by rewrite Harrays, Hnext. }
  assert (Hobserve : forall res,
            observeState (invoke actionTypes code fuel) k notified = res ->
            res = if truthy next
                  then bind (invoke actionTypes code fuel next [nextState])
                         (fun _ => ret VUndefined) notified
                  else (Returned VUndefined, notified)).
  { intros res <-. unfold observeState. unfold bind at 1, get_world at 1.
    change (observers notified) with (observers s1). rewrite Hobs. cbn [from_option id].
    unfold bind at 1, lift_mem at 1, get at 1, get_property.
    change (mem notified) with (mem s1).
    rewrite Hheap, (inherited_none o "next") by reflexivity. fold next.
    change (set_mem (mem s1) notified) with (set_mem (mem notified) notified).
    rewrite set_mem_id. destruct (truthy next); reflexivity. }
  assert (Hrun : forall s2,
            observeState (invoke actionTypes code fuel) k notified = (Returned VUndefined, s2) ->
            stable notified s2 ->
            dispatch (invoke actionTypes code (S fuel)) (S fuel) action s
            = (Returned action, s2)).
  { intros s2 Hcalled Hstable.
    eapply (dispatch_succeeds _ _ _ _ _ _ [VFun (ObserveStateFn k)]);
      [exact Hvalid | exact Hflag | exact Hreduce |].
    unfold notifyListeners, bind at 1, modify at 1. unfold bind at 1, get_world at 1.
    cbn [currentListeners set_currentListeners nextListeners set_isDispatching
         set_currentState].
    fold notified. cbn [notify]. rewrite Hlisteners.
    cbn [length Nat.ltb Nat.leb lookup list_lookup from_option id].
    unfold bind at 1. cbn [invoke]. rewrite Hcalled. unfold bind at 1.
    destruct (Hstable Hnotified) as [_ Hkeep].
    destruct (Hkeep (nextListeners s1)) as [_ Hsame].
    { split; [exact Hnotified | by right]. }
    assert (Harray : array s2 (nextListeners s1) = [VFun (ObserveStateFn k)]).
    { unfold array. rewrite Hsame. exact Hlisteners. }
    destruct fuel; cbn [notify]; by rewrite Harray. }
  split.
  - intros v s2 Htruthy Hcalled.
    assert (Hobserved := Hobserve _ eq_refl). rewrite Htruthy in Hobserved.
    unfold bind in Hobserved. rewrite Hcalled in Hobserved.
    apply Hrun; [exact Hobserved|].
    exact (invoke_stable actionTypes code fuel _ _ _ _ _ Hcalled).
  - intros Hfalsy. assert (Hobserved := Hobserve _ eq_refl). rewrite Hfalsy in Hobserved.
    apply Hrun; [exact Hobserved | reflexivity].
Qed.

End Observer.


(** ** The store: the state after a run of dispatches *)

Section Fold.
Import JS Store.
Variable actionTypes : action_types.
Variable code : nat -> list value -> prog.

Lemma valid_action_later s s' action :
  extends (mem s) (mem s') -> valid_action s action -> valid_action s' action.
Proof.
  intros Hext (Hplain & t & Ht & Hdef). unfold valid_action, isPlainObject, get_property in *.
  destruct action; try done.
  destruct (heap (mem s) !! l) as [o|] eqn:Hl; [|done].
  rewrite (prefix_lookup_Some _ _ _ _ Hl Hext). split; [done|]. by exists t.
Qed.

(** Quiet listeners: the loop calls them all and the store is as it
    was. *)
Lemma notify_quiet call gas listeners i s :
  isDispatching s = false ->
  (forall l, l ∈ array s listeners -> quiet call l) ->
  length (array s listeners) - i <= gas ->
  notify call gas listeners i s = (Returned (drop i (array s listeners)), s).
Proof.
  intros Hflag. revert i. induction gas as [|gas IH]; intros i Hquiet Hgas; cbn [notify].
  - destruct (Nat.ltb_spec i (length (array s listeners))); [lia|]. by rewrite drop_ge.
  - destruct (Nat.ltb_spec i (length (array s listeners))) as [Hlt|Hge];
      [|by rewrite drop_ge].
    destruct (lookup_lt_is_Some_2 _ _ Hlt) as [listener Hi]. rewrite Hi.
    cbn [from_option id].
    destruct (Hquiet listener (list_elem_of_lookup_2 _ _ _ Hi) s Hflag) as (v & Hcalled).
    unfold bind at 1. rewrite Hcalled. unfold bind at 1.
    rewrite IH by (done || lia). unfold ret. by rewrite (drop_S _ _ _ Hi).
Qed.

Lemma notifyListeners_quiet call gas s :
  isDispatching s = false ->
  (forall l, l ∈ registered s -> quiet call l) ->
  length (registered s) <= gas ->
  notifyListeners call gas s
  = (Returned (registered s), set_currentListeners (nextListeners s) s).
Proof.
  intros Hflag Hquiet Hgas. unfold notifyListeners, bind at 1, modify at 1.
  unfold bind at 1, get_world at 1. cbn [currentListeners set_currentListeners].
  rewrite notify_quiet; [done|exact Hflag|exact Hquiet|].
  change (array (set_currentListeners (nextListeners s) s) (nextListeners s))
    with (registered s). lia.
Qed.

(** X9.  A store whose reducer is a function of the state and the
    action that writes to no existing object, and whose listeners, called
    between dispatches, return and leave the store alone (they may read
    its state).  When the reducer, applied to the actions in turn from
    the state of the store on, returns at every step, dispatching these
    actions one after the other returns as well, and leaves the state
    and the memory the reducer gave, with the same listeners. *)
Theorem state_is_the_fold_of_the_reducer fuel n r actions s v m' :
  (forall args,
      code n args = Mem (r (nth 0 args VUndefined) (nth 1 args VUndefined)) Ret) ->
  writes_nothing r ->
  reduced r actions (currentState s) (mem s) = (Returned v, m') ->
  currentReducer s = VFun (UserFn n) ->
  isDispatching s = false ->
  (forall l, l ∈ registered s -> quiet (invoke actionTypes code (S fuel)) l) ->
  length (registered s) <= S fuel ->
  Forall (valid_action s) actions ->
  exists s',
    forEach (fun action =>
               bind (dispatch (invoke actionTypes code (S fuel)) (S fuel) action)
                 (fun _ => ret tt)) actions s
    = (Returned tt, s')
    /\ currentState s' = v
    /\ mem s' = m'
    /\ registered s' = registered s
    /\ isDispatching s' = false.
Proof.
  intros Hcode Hframe. revert s.
  induction actions as [|action actions IH];
    intros s Hfold Hreducer Hflag Hquiet Hgas Hvalid.
  { exists s. cbn in Hfold. by injection Hfold as <- <-. }
  apply Forall_cons in Hvalid as [Haction Hvalid].
  cbn [reduced] in Hfold. unfold bind in Hfold.
  destruct (r (currentState s) action (mem s)) as [[v1|e|] m1] eqn:Hr; [|done..].
  assert (Hext : extends (mem s) m1) by (by eapply Hframe).
  set (s1 := set_mem m1 (set_isDispatching true s)).
  assert (Hreduce : invoke actionTypes code (S fuel) (currentReducer s)
                      [currentState s; action] (set_isDispatching true s)
                    = (Returned v1, s1)).
  { rewrite Hreducer. cbn [invoke]. rewrite Hcode. cbn [run nth].
    unfold bind, lift_mem. cbn [mem set_isDispatching]. by rewrite Hr. }
  set (s2 := set_isDispatching false (set_currentState v1 s1)).
  assert (Hreg2 : registered s2 = registered s) by reflexivity.
  assert (Hnotify : notifyListeners (invoke actionTypes code (S fuel)) (S fuel) s2
                    = (Returned (registered s2), set_currentListeners (nextListeners s2) s2)).
  { apply notifyListeners_quiet; [reflexivity|by rewrite Hreg2..]. }
  set (s3 := set_currentListeners (nextListeners s2) s2) in Hnotify.
  destruct (IH s3) as (s' & Hrest & Hstate & Hmem & Hreg & Hflag').
  - exact Hfold.
  - exact Hreducer.
  - reflexivity.
  - exact Hquiet.
  - exact Hgas.
  - eapply Forall_impl; [exact Hvalid|]. intros a Ha. by apply (valid_action_later s).
  - exists s'. cbn [forEach]. unfold bind at 1. unfold bind at 1.
    rewrite (dispatch_succeeds _ _ _ _ _ _ _ _ Haction Hflag Hreduce Hnotify).
    unfold ret at 1. done.
Qed.

End Fold.

(** ** combineReducers: which entries are kept *)

Section Collecting.
Import JS CombineReducers.
Variable production : bool.
Variable actionTypes : action_types.
Variable random_suffix : nat -> string.

Lemma lookup_key_app {V} k (l1 l2 : list (string * V)) :
  k ∉ keys l1 -> lookup_key k (l1 ++ l2) = lookup_key k l2.
Proof.
  induction l1 as [|[k' v] l1 IH]; [done|]. cbn. intros Hk.
  apply not_elem_of_cons in Hk as [Hne Hk].
  rewrite bool_decide_eq_false_2 by congruence. by apply IH.
Qed.

Lemma keys_callables reducers k : k ∈ keys (callables reducers) -> k ∈ keys reducers.
Proof.
  induction reducers as [|[k' [r|v]] reducers IH]; cbn; [done|..].
  - rewrite !elem_of_cons. intros [?|?]; [by left | right; by apply IH].
  - intros Hin. right. by apply IH.
Qed.

Lemma callables_app l1 l2 : callables (l1 ++ l2) = callables l1 ++ callables l2.
Proof. apply omap_app. Qed.

Lemma missing_app l1 l2 : missing (l1 ++ l2) = missing l1 ++ missing l2.
Proof. apply omap_app. Qed.

(** The first loop of [combineReducers], from any point of it on. *)
Lemma collect_from reducers :
  NoDup (keys reducers) ->
  forall todo seen m,
    reducers = seen ++ todo ->
    collect production reducers (keys todo) (callables seen) m
    = (Returned (callables reducers),
       Memory (heap m) (console m ++ (if production then [] else missing todo))
         (keyCaches m) (draws m)).
Proof.
  intros Hnd. induction todo as [|[key cand] todo IH]; intros seen m Hsplit.
  - rewrite Hsplit, app_nil_r. cbn. destruct production; rewrite app_nil_r; by destruct m.
  - assert (Hkey : key ∉ keys seen).
    { rewrite Hsplit in Hnd. unfold keys in Hnd. rewrite map_app in Hnd.
      apply NoDup_app in Hnd as (_ & Hdisjoint & _). intros Hin.
      apply (Hdisjoint key Hin). cbn. left. }
    assert (Hlookup : lookup_key key reducers = Some cand).
    { rewrite Hsplit, lookup_key_app by done. cbn. by rewrite bool_decide_eq_true_2. }
    assert (Hnext : reducers = (seen ++ [(key, cand)]) ++ todo).
    { by rewrite <- app_assoc. }
    change (keys ((key, cand) :: todo)) with (key :: keys todo).
    cbn [collect]. rewrite Hlookup. unfold bind at 1.
    destruct cand as [r|v].
    + assert (Hassign : assign key r (callables seen) = callables (seen ++ [(key, Callable r)])).
      { rewrite callables_app. cbn. apply assign_new. intros Hin.
        by apply Hkey, keys_callables. }
      rewrite Hassign.
      destruct production; cbn [negb]; cbv beta iota delta [ret];
        rewrite (IH _ _ Hnext); cbn; done.
    + assert (Hsame : callables seen = callables (seen ++ [(key, NotCallable v)])).
      { rewrite callables_app. cbn. by rewrite app_nil_r. }
      rewrite Hsame.
      destruct production; cbn [negb].
      * cbv beta iota delta [ret]. rewrite (IH _ _ Hnext). cbn. by destruct v.
      * destruct v; cbv beta iota delta [ret warning]; rewrite (IH _ _ Hnext); cbn;
          rewrite <- ?app_assoc; done.
Qed.

Lemma collect_exact reducers m :
  NoDup (keys reducers) ->
  collect production reducers (keys reducers) [] m
  = (Returned (callables reducers),
     Memory (heap m) (console m ++ (if production then [] else missing reducers))
       (keyCaches m) (draws m)).
Proof. intros Hnd. by apply (collect_from reducers Hnd reducers [] m). Qed.



End Collecting.

(** ** combineReducers: the shape check, passed or failed *)

Section ShapeCheck.
Import JS CombineReducers.
Variable production : bool.
Variable actionTypes : action_types.
Variable random_suffix : nat -> string.

Lemma defined_when_probed_probes r :
  defined_when_probed r -> defined_for_init actionTypes r /\ defined_for_probe r.
Proof.
  intros Hdef. split; intros m action; [|intros suffix];
    intros Hprobe; eapply Hdef, probe_action_has_type, Hprobe.
Qed.

Lemma assertReducerShape_key_passes final key r m :
  lookup_key key final = Some r ->
  defined_for_init actionTypes r /\ defined_for_probe r ->
  exists m', assertReducerShape_key actionTypes random_suffix final key m = (Returned tt, m').
Proof.
  intros Hr [Hdef Hdef']. unfold assertReducerShape_key. rewrite Hr.
  destruct (new_probe_action (INIT actionTypes) m) as (m1 & Hnew & Hty).
  unfold bind at 1. rewrite Hnew.
  destruct (Hdef _ _ Hty) as (v & m2 & Hv & Hne). unfold bind at 1. rewrite Hv.
  rewrite bool_decide_eq_false_2 by (by rewrite typeof_undefined).
  unfold bind at 1. unfold probe_type at 1.
  set (m3 := Memory _ _ _ _).
  destruct (new_probe_action
              ("@@redux/PROBE_UNKNOWN_ACTION_" +:+ random_suffix (draws m2)) m3)
    as (m4 & Hnew' & Hty').
  unfold bind at 1. rewrite Hnew'.
  destruct (Hdef' _ _ _ Hty') as (v' & m5 & Hv' & Hne'). unfold bind at 1. rewrite Hv'.
  rewrite bool_decide_eq_false_2 by (by rewrite typeof_undefined).
  by eexists.
Qed.

(** A reducer that returns [undefined] for one of the two probes: the
    check throws, and says for which. *)
Lemma assertReducerShape_key_undefined final key r m :
  lookup_key key final = Some r ->
  undefined_for_init actionTypes r
  \/ (defined_for_init actionTypes r /\ undefined_for_probe r) ->
  exists when m',
    assertReducerShape_key actionTypes random_suffix final key m
    = (Thrown (ReducerReturnedUndefined when key), m')
    /\ (undefined_for_init actionTypes r -> when = DuringInitialization)
    /\ (defined_for_init actionTypes r -> when = DuringRandomProbe).
Proof.
  intros Hr Hbad. unfold assertReducerShape_key. rewrite Hr.
  destruct (new_probe_action (INIT actionTypes) m) as (m1 & Hnew & Hty).
  unfold bind at 1. rewrite Hnew.
  assert (Hnot : undefined_for_init actionTypes r -> defined_for_init actionTypes r -> False).
  { intros Hinit Hdef. destruct (Hinit _ _ Hty) as (m2 & Hv).
    destruct (Hdef _ _ Hty) as (v & m2' & Hv' & Hne). congruence. }
  destruct Hbad as [Hinit|[Hdef Hprobe]].
  - destruct (Hinit _ _ Hty) as (m2 & Hv). unfold bind at 1. rewrite Hv. cbn.
    eexists _, _. split; [reflexivity|]. split; [done|]. intros Hdef. by destruct Hnot.
  - destruct (Hdef _ _ Hty) as (v & m2 & Hv & Hne). unfold bind at 1. rewrite Hv.
    rewrite bool_decide_eq_false_2 by (by rewrite typeof_undefined).
    unfold bind at 1. unfold probe_type at 1.
    set (m3 := Memory _ _ _ _).
    destruct (new_probe_action
                ("@@redux/PROBE_UNKNOWN_ACTION_" +:+ random_suffix (draws m2)) m3)
      as (m4 & Hnew' & Hty').
    unfold bind at 1. rewrite Hnew'.
    destruct (Hprobe _ _ _ Hty') as (m5 & Hv'). unfold bind at 1. rewrite Hv'. cbn.
    eexists _, _. split; [reflexivity|]. split; [|done]. intros Hinit. by destruct Hnot.
Qed.


(** The check passes the keys whose reducers return defined values. *)
Lemma assertReducerShape_passes final ks rest m :
  (forall k, k ∈ ks ->
     exists r, lookup_key k final = Some r
               /\ defined_for_init actionTypes r /\ defined_for_probe r) ->
  exists m1,
    forEach (assertReducerShape_key actionTypes random_suffix final) (ks ++ rest) m
    = forEach (assertReducerShape_key actionTypes random_suffix final) rest m1.
Proof.
  revert m. induction ks as [|key ks IH]; intros m Hall; [by exists m|].
  destruct (Hall key) as (r & Hr & Hdef); [by left|].
  destruct (assertReducerShape_key_passes final key r m Hr Hdef) as (m' & Hpass).
  destruct (IH m') as (m1 & Hrest).
  { intros k Hk. apply Hall. by right. }
  exists m1. cbn [app forEach]. unfold bind at 1. by rewrite Hpass.
Qed.

(** [combineReducers] is the shape check run on the entries that are
    functions. *)
Lemma combineReducers_checks reducers m :
  NoDup (keys reducers) ->
  exists cache m1,
    combineReducers production actionTypes random_suffix reducers m
    = match assertReducerShape actionTypes random_suffix (callables reducers) m1 with
      | (Returned _, m2) =>
          (Returned (Composed (callables reducers) (keys (callables reducers)) cache None), m2)
      | (Thrown e, m2) =>
          (Returned (Composed (callables reducers) (keys (callables reducers)) cache (Some e)),
           m2)
      | (OutOfFuel, m2) => (OutOfFuel, m2)
      end.
Proof.
  intros Hnd. unfold combineReducers, bind at 1. rewrite collect_exact by done.
  set (m0 := Memory _ _ _ _).
  destruct production; cbn [negb]; unfold bind at 1.
  - exists None, m0. unfold bind, try_catch, ret.
    destruct (assertReducerShape _ _ _ _) as [[[]|e|] m2]; reflexivity.
  - exists (Some (length (keyCaches m0))),
      (Memory (heap m0) (console m0) (keyCaches m0 ++ [[]]) (draws m0)).
    unfold new_key_cache at 1. unfold bind, try_catch, ret.
    destruct (assertReducerShape _ _ _ _) as [[[]|e|] m2]; reflexivity.
Qed.

Lemma lookup_key_callables reducers k r :
  NoDup (keys reducers) ->
  lookup_key k (callables reducers) = Some r ->
  lookup_key k reducers = Some (Callable r).
Proof.
  induction reducers as [|[k' cand] reducers IH]; [done|].
  cbn [keys map fst]. intros Hnd. apply NoDup_cons in Hnd as [Hnew Hnd].
  destruct cand as [r'|v]; cbn.
  - destruct (bool_decide (k' = k)); [congruence | by apply IH].
  - intros Hk. destruct (bool_decide_reflect (k' = k)) as [->|_]; [|by apply IH].
    destruct Hnew. by eapply keys_callables, lookup_key_Some_keys.
Qed.

(** X11.  When every function of the mapping returns a value other than
    [undefined] for an action with a type and no state, the shape check
    passes: [combineReducers] returns a reducer that keeps no error. *)
Theorem shape_check_passes reducers m :
  (forall k r, lookup_key k reducers = Some (Callable r) -> defined_when_probed r) ->
  exists c m',
    combineReducers production actionTypes random_suffix reducers m = (Returned c, m')
    /\ shapeAssertionError c = None
    /\ forall k r, lookup_key k (finalReducers c) = Some r -> defined_when_probed r.
Proof.
  intros Hdef.
  destruct (combineReducers_run production actionTypes random_suffix reducers m)
    as (final & cache & m2 & Hnd & Hlook & Hc & ->).
  assert (Hfinal : forall k r, lookup_key k final = Some r -> defined_when_probed r).
  { intros k r. rewrite Hlook. unfold callable_at.
    destruct (lookup_key k reducers) as [[r'|v]|] eqn:Hk; [|done..].
    intros [= <-]. by eapply Hdef. }
  destruct (assertReducerShape_passes final (keys final) [] m2) as (m3 & Hpass).
  { intros k Hk. destruct (keys_lookup_key _ _ Hk) as [r Hr]. exists r.
    split; [exact Hr | by eapply defined_when_probed_probes, Hfinal]. }
  rewrite app_nil_r in Hpass. unfold assertReducerShape. rewrite Hpass. cbn [forEach].
  eexists _, _. split; [reflexivity|]. split; [reflexivity | exact Hfinal].
Qed.


(** Probing a reducer that returns when probed: the check passes, or
    throws [ReducerReturnedUndefined] for its key. *)
Lemma assertReducerShape_key_returns final key r m :
  lookup_key key final = Some r ->
  returns_for_init actionTypes r /\ returns_for_probe r ->
  exists res m',
    assertReducerShape_key actionTypes random_suffix final key m = (res, m')
    /\ (res = Returned tt \/ exists when, res = Thrown (ReducerReturnedUndefined when key)).
Proof.
  intros Hr [Hinit Hprobe]. unfold assertReducerShape_key. rewrite Hr.
  destruct (new_probe_action (INIT actionTypes) m) as (m1 & Hnew & Hty).
  unfold bind at 1. rewrite Hnew.
  destruct (Hinit _ _ Hty) as (v & m2 & Hv). unfold bind at 1. rewrite Hv.
  destruct (bool_decide (typeof v = TUndefined)); [by eexists _, _; eauto|].
  unfold bind at 1. unfold probe_type at 1.
  set (m3 := Memory _ _ _ _).
  destruct (new_probe_action
              ("@@redux/PROBE_UNKNOWN_ACTION_" +:+ random_suffix (draws m2)) m3)
    as (m4 & Hnew' & Hty').
  unfold bind at 1. rewrite Hnew'.
  destruct (Hprobe _ _ _ Hty') as (v' & m5 & Hv'). unfold bind at 1. rewrite Hv'.
  destruct (bool_decide (typeof v' = TUndefined)); eexists _, _; eauto.
Qed.

(** The check goes through keys whose reducers return when probed until
    one of them returns [undefined]. *)
Lemma assertReducerShape_until final ks rest m :
  (forall k, k ∈ ks ->
     exists r, lookup_key k final = Some r
               /\ returns_for_init actionTypes r /\ returns_for_probe r) ->
  (exists k when m',
      k ∈ ks
      /\ forEach (assertReducerShape_key actionTypes random_suffix final) (ks ++ rest) m
         = (Thrown (ReducerReturnedUndefined when k), m'))
  \/ (exists m1,
        forEach (assertReducerShape_key actionTypes random_suffix final) (ks ++ rest) m
        = forEach (assertReducerShape_key actionTypes random_suffix final) rest m1).
Proof.
  revert m. induction ks as [|key ks IH]; intros m Hall; [right; by exists m|].
  destruct (Hall key) as (r & Hr & Hret); [by left|].
  destruct (assertReducerShape_key_returns final key r m Hr Hret)
    as (res & m' & Hrun & [->|[when ->]]).
  - destruct (IH m') as [(k & when & m1 & Hk & Hthrown)|(m1 & Hrest)].
    { intros k Hk. apply Hall. by right. }
    + left. exists k, when, m1. split; [by right|].
      cbn [app forEach]. unfold bind at 1. by rewrite Hrun.
    + right. exists m1. cbn [app forEach]. unfold bind at 1. by rewrite Hrun.
  - left. exists key, when, m'. split; [by left|].
    cbn [app forEach]. unfold bind at 1. by rewrite Hrun.
Qed.

(** C7.  A function of the mapping returns [undefined] for the
    initialization probe, or passes that probe and returns [undefined]
    for the probe with a random type; the functions before it in the
    mapping return when they are probed.  Then the call of
    [combineReducers] returns: it does not throw.  It keeps the error of
    the first function that returns [undefined] for a probe, in the
    composed reducer, which throws it at its first call and at every
    later one, whatever the state, the action and the memory.  When the
    functions before pass their probes, the error is the one for the key
    of that function, and says for which of the probes.  (The mapping is
    an object: no key occurs twice in it; no function is under
    [__proto__].) *)
Theorem shape_error_is_deferred reducers before key r after (m : memory) :
  NoDup (keys reducers) ->
  callable_at reducers "__proto__" = None ->
  reducers = before ++ (key, Callable r) :: after ->
  (forall k r', k ∈ keys before ->
     lookup_key k reducers = Some (Callable r') ->
     returns_for_init actionTypes r' /\ returns_for_probe r') ->
  undefined_for_init actionTypes r
  \/ (defined_for_init actionTypes r /\ undefined_for_probe r) ->
  exists c m' when failed,
    combineReducers production actionTypes random_suffix reducers m = (Returned c, m')
    /\ shapeAssertionError c = Some (ReducerReturnedUndefined when failed)
    /\ (failed = key \/ failed ∈ keys (callables before))
    /\ ((forall k r', k ∈ keys before ->
           lookup_key k reducers = Some (Callable r') ->
           defined_for_init actionTypes r' /\ defined_for_probe r') ->
        failed = key
        /\ (undefined_for_init actionTypes r -> when = DuringInitialization)
        /\ (defined_for_init actionTypes r -> when = DuringRandomProbe))
    /\ forall state action m1, exists m1',
         combination production actionTypes c state action m1
         = (Thrown (ReducerReturnedUndefined when failed), m1').
Proof.
  intros Hnd _ Hsplit Hbefore Hbad.
  destruct (combineReducers_checks reducers m Hnd) as (cache & m1 & ->).
  assert (Hkeys : keys (callables reducers)
                  = keys (callables before) ++ key :: keys (callables after)).
  { rewrite Hsplit, callables_app. unfold keys. by rewrite map_app. }
  assert (Hlookup : forall k, k ∈ keys (callables before) ->
            exists r0, lookup_key k (callables reducers) = Some r0
                       /\ k ∈ keys before
                       /\ lookup_key k reducers = Some (Callable r0)).
  { intros k Hk. destruct (keys_lookup_key (callables reducers) k) as [r0 Hr0].
    { rewrite Hkeys. apply elem_of_app. by left. }
    exists r0. split; [exact Hr0|]. split; [by apply keys_callables|].
    by apply lookup_key_callables. }
  assert (Hkey : lookup_key key (callables reducers) = Some r).
  { rewrite Hsplit, callables_app, lookup_key_app.
    - cbn. by rewrite bool_decide_eq_true_2.
    - intros Hin. apply keys_callables in Hin.
      rewrite Hsplit in Hnd. unfold keys in Hnd. rewrite map_app in Hnd.
      apply NoDup_app in Hnd as (_ & Hdisjoint & _).
      apply (Hdisjoint key Hin). cbn. left. }
  assert (Hthrows : forall when failed c,
            shapeAssertionError c = Some (ReducerReturnedUndefined when failed) ->
            forall state action m0, exists m0',
              combination production actionTypes c state action m0
              = (Thrown (ReducerReturnedUndefined when failed), m0')).
  { intros when failed c Hkept state action m0. unfold combination. rewrite Hkept.
    cbn [exn_truthy]. unfold bind at 1.
    destruct (strict_eq state VUndefined); cbn; eexists; reflexivity. }
  assert (Hpass : (forall k r', k ∈ keys before ->
                     lookup_key k reducers = Some (Callable r') ->
                     defined_for_init actionTypes r' /\ defined_for_probe r') ->
            exists when m2,
              assertReducerShape actionTypes random_suffix (callables reducers) m1
              = (Thrown (ReducerReturnedUndefined when key), m2)
              /\ (undefined_for_init actionTypes r -> when = DuringInitialization)
              /\ (defined_for_init actionTypes r -> when = DuringRandomProbe)).
  { intros Hdefined. unfold assertReducerShape. rewrite Hkeys.
    destruct (assertReducerShape_passes (callables reducers)
                (keys (callables before)) (key :: keys (callables after)) m1)
      as (m2 & ->).
    { intros k Hk. destruct (Hlookup k Hk) as (r0 & Hr0 & Hin & Hcall).
      exists r0. split; [exact Hr0|]. by apply (Hdefined k). }
    cbn [forEach]. unfold bind at 1.
    destruct (assertReducerShape_key_undefined (callables reducers) key r m2 Hkey Hbad)
      as (when & m3 & -> & Hinit & Hprobe).
    by exists when, m3. }
  unfold assertReducerShape in *. rewrite Hkeys in *.
  destruct (assertReducerShape_until (callables reducers)
              (keys (callables before)) (key :: keys (callables after)) m1)
    as [(failed & when & m2 & Hfailed & Hrun)|(m2 & Hrun)].
  { intros k Hk. destruct (Hlookup k Hk) as (r0 & Hr0 & Hin & Hcall).
    exists r0. split; [exact Hr0|]. by apply (Hbefore k). }
  - rewrite Hrun in *. eexists _, m2, when, failed. split; [reflexivity|].
    split; [reflexivity|]. split; [by right|]. split; [|by eapply Hthrows].
    intros Hdefined. destruct (Hpass Hdefined) as (when' & m3 & [= -> -> _] & Hwhen).
    by split.
  - rewrite Hrun in *. cbn [forEach] in *. unfold bind at 1 in Hpass. unfold bind at 1.
    destruct (assertReducerShape_key_undefined (callables reducers) key r m2 Hkey Hbad)
      as (when & m3 & Hthrown & Hinit & Hprobe).
    rewrite Hthrown in *. eexists _, m3, when, key. split; [reflexivity|].
    split; [reflexivity|]. split; [by left|]. split; [|by eapply Hthrows].
    intros _. by split.
Qed.

End ShapeCheck.

(** ** combineReducers: no state, no reducer *)

Section CombinationEdges.
Import JS CombineReducers.
Variable production : bool.
Variable actionTypes : action_types.
Variable random_suffix : nat -> string.

Lemma combination_defaults c action m :
  combination production actionTypes c VUndefined action m
  = combination production actionTypes c (VObj (length (heap m))) action
      (set_heap (heap m ++ [Object true []]) m).
Proof. reflexivity. Qed.

Lemma keeps_contract_later m m1 r s a :
  extends m m1 -> keeps_contract m r s a -> keeps_contract m1 r s a.
Proof.
  intros Hext Hcontract m2 Hext2. apply Hcontract. unfold extends in *. by etrans.
Qed.

Lemma result_of_earlier m m1 r s a v :
  extends m m1 -> result_of m1 r s a v -> result_of m r s a v.
Proof.
  intros Hext (m2 & m3 & Hext2 & Hcall). exists m2, m3. split; [|done].
  unfold extends in *. by etrans.
Qed.

(** A read of the empty object finds what it inherits. *)
Lemma previous_empty m l k :
  heap m !! l = Some (Object true []) ->
  previous m (VObj l) k = inherited (Object true []) k.
Proof. intros Hl. unfold previous, get_property. by rewrite Hl. Qed.

(** What [combination] returns when it is called with no state: a fresh
    object, which holds for every key what its reducer makes of what
    the empty object has under that key. *)
Lemma combination_from_nothing reducers m_c c m_c' m action :
  combineReducers production actionTypes random_suffix reducers m_c = (Returned c, m_c') ->
  ordinary production reducers ->
  shapeAssertionError c = None ->
  (forall k r, lookup_key k (finalReducers c) = Some r ->
     keeps_contract m r (inherited (Object true []) k) action) ->
  exists l m' results,
    combination production actionTypes c VUndefined action m = (Returned (VObj l), m')
    /\ length (heap m) <= l
    /\ extends m m'
    /\ (forall k r, lookup_key k (finalReducers c) = Some r ->
          result_for results k <> VUndefined
          /\ result_of m r (inherited (Object true []) k) action (result_for results k))
    /\ (forall k, k ∈ finalReducerKeys c -> previous m' (VObj l) k = result_for results k)
    /\ ((exists k, k ∈ finalReducerKeys c
                   /\ result_for results k <> inherited (Object true []) k) ->
          object_keys (heap m') (VObj l) = finalReducerKeys c)
    /\ ((forall k, k ∈ finalReducerKeys c ->
            result_for results k = inherited (Object true []) k) ->
          object_keys (heap m') (VObj l) = [])
    /\ ((forall k, k ∈ finalReducerKeys c -> lookup_key k object_prototype = None) ->
          object_keys (heap m') (VObj l) = finalReducerKeys c).
Proof.
  intros Hc Hord Hshape Hred.
  enough (Hmain : exists l m' results,
    combination production actionTypes c VUndefined action m = (Returned (VObj l), m')
    /\ length (heap m) <= l
    /\ extends m m'
    /\ (forall k r, lookup_key k (finalReducers c) = Some r ->
          result_for results k <> VUndefined
          /\ result_of m r (inherited (Object true []) k) action (result_for results k))
    /\ (forall k, k ∈ finalReducerKeys c -> previous m' (VObj l) k = result_for results k)
    /\ ((exists k, k ∈ finalReducerKeys c
                   /\ result_for results k <> inherited (Object true []) k) ->
          object_keys (heap m') (VObj l) = finalReducerKeys c)
    /\ ((forall k, k ∈ finalReducerKeys c ->
            result_for results k = inherited (Object true []) k) ->
          object_keys (heap m') (VObj l) = [])).
  { destruct Hmain as (l & m' & results & Hrun & Hfresh & Hext & Hcalls & Hreads & Hdiff & Hsame).
    exists l, m', results. do 6 (split; [done|]). split; [done|].
    destruct (combineReducers_inv _ _ _ _ _ _ _ Hc) as (Hfinal & _).
    intros Hplain. destruct (finalReducerKeys c) as [|k ks] eqn:Hkeys.
    - apply Hsame. intros k Hk. by apply elem_of_nil in Hk.
    - apply Hdiff. exists k. split; [by left|].
      rewrite (inherited_none _ k) by (apply Hplain; by left).
      assert (Hin : k ∈ keys (finalReducers c)) by (rewrite <- Hfinal, ?Hkeys; by left).
      destruct (keys_lookup_key _ _ Hin) as [r Hr]. by apply (Hcalls k r). }
  rewrite combination_defaults.
  set (m1 := set_heap (heap m ++ [Object true []]) m).
  assert (Hext1 : extends m m1) by (unfold extends, m1; cbn; by apply prefix_app_r).
  assert (Hstate : heap m1 !! length (heap m) = Some (Object true []))
    by (unfold m1; cbn; by apply list_lookup_middle).
  assert (Hprev := fun k => previous_empty m1 (length (heap m)) k Hstate).
  destruct (combination_results production actionTypes random_suffix reducers m_c c m_c' m1
              (length (heap m)) (Object true []) action Hc Hord Hshape Hstate)
    as (m' & results & Hrun & Hkeys & Hnd & Hext & Hnew & Hcalls & Hreads).
  { intros k r Hr. rewrite Hprev. by apply (keeps_contract_later m), Hred. }
  assert (Hlen : length (heap m1) = S (length (heap m)))
    by (unfold m1; cbn; rewrite length_app; cbn; lia).
  assert (Hext' : extends m m') by (unfold extends in *; by etrans).
  assert (Hstate' : heap m' !! length (heap m) = Some (Object true []))
    by (by eapply prefix_lookup_Some).
  rewrite Hrun.
  assert (Hcalls' : forall k r, lookup_key k (finalReducers c) = Some r ->
            result_for results k <> VUndefined
            /\ result_of m r (inherited (Object true []) k) action (result_for results k)).
  { intros k r Hr. destruct (Hcalls k r Hr) as [Hdef Hcall]. split; [exact Hdef|].
    apply (result_of_earlier m m1); [done|]. by rewrite <- Hprev. }
  destruct (existsb (changed m1 (VObj (length (heap m)))) results) eqn:E.
  - exists (length (heap m1)), m', results. split; [done|]. split; [lia|].
    split; [done|]. split; [exact Hcalls'|].
    split; [intros k Hk; exact (proj2 (Hreads k Hk))|].
    unfold object_keys. rewrite Hnew. cbn [props]. split; [done|].
    intros Hsame. apply (existsb_changed _ _ _ Hnd) in E as (k & Hk & Hne).
    destruct Hne. rewrite Hprev. apply Hsame. by rewrite <- Hkeys.
  - exists (length (heap m)), m', results. split; [done|]. split; [lia|].
    split; [done|]. split; [exact Hcalls'|].
    split; [intros k Hk; exact (proj2 (Hreads k Hk))|].
    unfold object_keys. rewrite Hstate'. cbn [props keys map]. split; [|done].
    intros (k & Hk & Hne). destruct Hne. rewrite <- Hprev.
    apply (existsb_changed_false _ _ _ _ Hnd E). by rewrite Hkeys.
Qed.


Lemma action_is_heap action t m m1 b :
  heap m1 = heap m ->
  action_is action t m = (Returned b, m) ->
  action_is action t m1 = (Returned b, m1).
Proof.
  intros Hheap. unfold action_is. destruct (truthy action); [|by intros [= <-]].
  unfold bind, get. rewrite Hheap.
  destruct (get_property (heap m) action "type"); [|done..]. by intros [= <-].
Qed.

(** X14.  A mapping with no function in it: the shape check has nothing
    to probe, and the reducer [combineReducers] returns gives back the
    state it is given, whatever value that is; in development it warns
    at every call that the store has no valid reducer. *)
Theorem combination_with_no_reducer reducers m_c c m_c' :
  combineReducers production actionTypes random_suffix reducers m_c = (Returned c, m_c') ->
  (forall k r, lookup_key k reducers <> Some (Callable r)) ->
  finalReducerKeys c = []
  /\ shapeAssertionError c = None
  /\ forall state action m,
       state <> VUndefined ->
       exists m',
         combination production actionTypes c state action m = (Returned state, m')
         /\ console m' = console m ++ (if production then [] else [NoValidReducer]).
Proof.
  intros Hc Hnone.
  destruct (combineReducers_inv _ _ _ _ _ _ _ Hc) as (Hkeys & _ & Hlook & Hcache).
  assert (Hfinal : finalReducers c = []).
  { destruct (finalReducers c) as [|[k r] final] eqn:E; [done|].
    specialize (Hlook k). cbn in Hlook. rewrite bool_decide_eq_true_2 in Hlook by done.
    unfold callable_at in Hlook.
    destruct (lookup_key k reducers) as [[r'|v]|] eqn:Hk; [|done..].
    by destruct (Hnone k r'). }
  assert (Hshape : shapeAssertionError c = None).
  { revert Hc.
    destruct (combineReducers_run production actionTypes random_suffix reducers m_c)
      as (final & cache & m2 & _ & Hlook' & _ & ->).
    assert (final = []) as ->.
    { destruct final as [|[k r] final]; [done|].
      specialize (Hlook' k). cbn in Hlook'. rewrite bool_decide_eq_true_2 in Hlook' by done.
      unfold callable_at in Hlook'.
      destruct (lookup_key k reducers) as [[r'|v]|] eqn:Hk; [|done..].
      by destruct (Hnone k r'). }
    cbn. by intros [= <- _]. }
  split; [by rewrite Hkeys, Hfinal|]. split; [exact Hshape|].
  intros state action m Hstate. unfold combination.
  unfold strict_eq. rewrite bool_decide_eq_false_2 by done.
  unfold bind at 1, ret at 1. rewrite Hshape. unfold bind at 1, ret at 1.
  rewrite Hkeys, Hfinal. unfold bind at 1.
  destruct production; cbn [negb].
  - cbn. eexists. split; [reflexivity|]. cbn. by rewrite app_nil_r.
  - unfold getUnexpectedStateShapeWarningMessage.
    destruct (action_is_returns action (INIT actionTypes) m) as (b & Hb).
    unfold bind at 1. unfold bind at 1. rewrite Hb. cbn.
    eexists. split; reflexivity.
Qed.

End CombinationEdges.


(** ** combineReducers: a reducer that returns undefined for an action *)

Section UndefinedResults.
Import JS CombineReducers.
Variable production : bool.
Variable actionTypes : action_types.
Variable random_suffix : nat -> string.

Lemma has_type_later m m1 action t : extends m m1 -> has_type m action t -> has_type m1 action t.
Proof.
  unfold has_type, get_property. intros Hext. destruct action; try done.
  destruct (heap m !! l) as [ob|] eqn:Hl; [|done].
  by rewrite (prefix_lookup_Some _ _ _ _ Hl Hext).
Qed.

Lemma getUndefinedStateErrorMessage_typed key action t m :
  has_type m action t ->
  getUndefinedStateErrorMessage key action m
  = (Returned (ReducerReturnedUndefined
                 (DuringDispatch (if truthy (VStr t) then Some (VStr t) else None)) key), m).
Proof.
  intros Hty. unfold getUndefinedStateErrorMessage, bind, get.
  assert (Htruthy : truthy action = true).
  { unfold has_type, get_property in Hty. by destruct action. }
  rewrite Htruthy. unfold has_type in Hty. by rewrite Hty.
Qed.

(** The loop of [combination] up to a reducer that returns
    [undefined]: the memory it leaves is the one that reducer left. *)
Lemma combination_loop_undefined (c : composed) m0 l o action t n key r after before :
  heap m0 !! l = Some o ->
  length (heap m0) <= n ->
  has_type m0 action t ->
  (forall k, k ∈ before ->
     exists r', lookup_key k (finalReducers c) = Some r'
                /\ keeps_contract m0 r' (previous m0 (VObj l) k) action) ->
  lookup_key key (finalReducers c) = Some r ->
  forgets m0 r (previous m0 (VObj l) key) action ->
  forall hasChanged m,
    extends m0 m ->
    exists m1 m',
      combination_loop c (VObj l) action (VObj n) (before ++ key :: after) hasChanged m
      = (Thrown (ReducerReturnedUndefined
                   (DuringDispatch (if truthy (VStr t) then Some (VStr t) else None)) key), m')
      /\ extends m0 m1
      /\ r (previous m0 (VObj l) key) action m1 = (Returned VUndefined, m')
      /\ extends m0 m'.
Proof.
  intros Hl Hn Hty Hred Hr Hundef.
  induction before as [|k before IH]; intros hasChanged m Hext.
  - cbn [app combination_loop]. rewrite Hr.
    unfold bind at 1. rewrite (proj1 (previous_later m0 m l o key Hl Hext)).
    destruct (Hundef m Hext) as (m2 & Hrun & Hext2).
    unfold bind at 1. rewrite Hrun. cbn [typeof]. rewrite bool_decide_eq_true_2 by done.
    assert (Hext' : extends m0 m2) by (unfold extends in *; by etrans).
    unfold bind at 1.
    rewrite (getUndefinedStateErrorMessage_typed key action t m2)
      by (by apply (has_type_later m0)).
    by exists m, m2.
  - destruct (Hred k) as (r' & Hr' & Hcontract); [by left|].
    cbn [app combination_loop]. rewrite Hr'.
    unfold bind at 1. rewrite (proj1 (previous_later m0 m l o k Hl Hext)).
    destruct (Hcontract m Hext) as (v & m2 & Hrun & Hdef & Hext2).
    unfold bind at 1. rewrite Hrun.
    rewrite bool_decide_eq_false_2 by (by rewrite typeof_undefined).
    assert (Hext' : extends m0 m2) by (unfold extends in *; by etrans).
    unfold bind at 1. unfold set_property at 1.
    destruct (heap m2 !! n) as [ob|] eqn:Hob.
    + apply IH.
      * intros k' Hk'. apply Hred. by right.
      * unfold extends. cbn [heap set_heap]. by apply prefix_insert_ge.
    + apply IH; [|done]. intros k' Hk'. apply Hred. by right.
Qed.

(** X15.  When the reducer of a key returns [undefined] for an action
    (the reducers of the keys before it keep to their contract), the
    composed reducer throws [ReducerReturnedUndefined], naming that key
    and the type of the action.  The memory is then as that reducer left
    it: the reducers of the keys after it, whatever they are, are not
    called; and the state object is as it was. *)
Theorem combination_refuses_undefined
    reducers m_c c m_c' m l o action t before key r after :
  combineReducers production actionTypes random_suffix reducers m_c = (Returned c, m_c') ->
  ordinary production reducers ->
  shapeAssertionError c = None ->
  heap m !! l = Some o ->
  has_type m action t ->
  finalReducerKeys c = before ++ key :: after ->
  (forall k r', k ∈ before -> lookup_key k (finalReducers c) = Some r' ->
     keeps_contract m r' (previous m (VObj l) k) action) ->
  lookup_key key (finalReducers c) = Some r ->
  forgets m r (previous m (VObj l) key) action ->
  exists m1 m',
    combination production actionTypes c (VObj l) action m
    = (Thrown (ReducerReturnedUndefined
                 (DuringDispatch (if truthy (VStr t) then Some (VStr t) else None)) key), m')
    /\ extends m m1
    /\ r (previous m (VObj l) key) action m1 = (Returned VUndefined, m')
    /\ heap m' !! l = Some o
    /\ forall k, previous m' (VObj l) k = previous m (VObj l) k.
Proof.
  intros Hc [_ Hown] Hshape Hl Hty Hkeys Hred Hr Hundef.
  destruct (combineReducers_inv _ _ _ _ _ _ _ Hc) as (Hfinal & _ & Hlook & Hcache).
  unfold combination. change (strict_eq (VObj l) VUndefined) with false. cbv iota.
  unfold bind at 1, ret at 1. rewrite Hshape. unfold bind at 1, ret at 1.
  destruct (diagnostics_return production actionTypes c (VObj l) action m Hcache)
    as (m1 & Hdiag & Hm1).
  { intros Hdev. rewrite Hlook. by apply Hown. }
  unfold bind at 1. rewrite Hdiag.
  unfold bind at 1, new_object at 1. rewrite Hm1.
  set (m2 := set_heap _ m1).
  destruct (combination_loop_undefined c m l o action t (length (heap m)) key r after
              before Hl (le_n _) Hty) with (hasChanged := false) (m := m2)
    as (m3 & m' & Hloop & Hext3 & Hcall & Hext).
  - intros k Hk. assert (Hin : k ∈ keys (finalReducers c)).
    { rewrite <- Hfinal, Hkeys. apply elem_of_app. by left. }
    destruct (keys_lookup_key _ _ Hin) as [r' Hr']. exists r'.
    split; [exact Hr'|]. by apply Hred.
  - exact Hr.
  - exact Hundef.
  - unfold extends, m2. cbn [heap set_heap]. by apply prefix_app_r.
  - exists m3, m'. rewrite Hkeys. unfold bind at 1. rewrite Hloop.
    split; [reflexivity|]. split; [exact Hext3|]. split; [exact Hcall|].
    split; [by eapply prefix_lookup_Some|].
    intros k. exact (proj2 (previous_later m m' l o k Hl Hext)).
Qed.

End UndefinedResults.

(** ** combineReducers: the warning for keys without a reducer *)

Section KeyWarnings.
Import JS CombineReducers.
Variable actionTypes : action_types.

(** Whatever [Object.prototype] has is truthy. *)
Lemma object_prototype_truthy k :
  truthy (default VUndefined (lookup_key k object_prototype))
  = hasOwnProperty object_prototype k.
Proof.
  unfold hasOwnProperty, object_prototype. cbn [lookup_key].
  repeat (destruct (bool_decide (_ = k)); [reflexivity|]). reflexivity.
Qed.

Lemma filter_unexpected_exact final id ks m :
  lookup_key "hasOwnProperty" final = None ->
  filter_unexpected final (Some id) ks m
  = (Returned
       (List.filter
          (fun key => negb (hasOwnProperty final key)
                      && negb (bool_decide (key ∈ cached_keys m id))
                      && negb (hasOwnProperty object_prototype key)) ks), m).
Proof.
  intros Hown. induction ks as [|key rest IH]; [done|].
  cbn [filter_unexpected List.filter].
  rewrite (reducers_hasOwnProperty_own _ _ Hown).
  unfold bind at 1. unfold bind at 1, ret at 1.
  destruct (negb (hasOwnProperty final key)); cbn [andb].
  - unfold bind at 1, cache_has at 1. fold (cached_keys m id). unfold ret at 1.
    unfold bind. rewrite IH.
    destruct (bool_decide (key ∈ cached_keys m id)); cbn [truthy negb andb]; [done|].
    rewrite object_prototype_truthy. by destruct (hasOwnProperty object_prototype key).
  - unfold ret at 1. unfold bind. by rewrite IH.
Qed.

Lemma elem_of_unexpected h final cached state k :
  k ∈ unexpected h final cached state
  <-> k ∈ object_keys h state /\ (k ∉ keys final) /\ (k ∉ cached)
      /\ (k ∉ keys object_prototype).
Proof.
  assert (Hown : forall (V : Type) (ps : list (string * V)),
            hasOwnProperty ps k = false <-> k ∉ keys ps).
  { intros V ps. unfold hasOwnProperty. rewrite bool_decide_eq_false, <- lookup_key_None.
    destruct (lookup_key k ps); split; try done.
    intros Hnone. destruct Hnone. by eexists. }
  unfold unexpected. rewrite list_elem_of_In, filter_In, <- list_elem_of_In.
  rewrite !andb_true_iff, !negb_true_iff, bool_decide_eq_false, !Hown. tauto.
Qed.

Lemma cache_add_all id l m :
  is_Some (keyCaches m !! id) ->
  "__proto__" ∉ l ->
  exists m',
    forEach (cache_add (Some id)) l m = (Returned tt, m')
    /\ heap m' = heap m
    /\ console m' = console m
    /\ is_Some (keyCaches m' !! id)
    /\ forall k, k ∈ cached_keys m' id <-> k ∈ cached_keys m id \/ k ∈ l.
Proof.
  revert m. induction l as [|key rest IH]; intros m Hsome Hproto.
  { exists m. split; [done|]. split; [done|]. split; [done|]. split; [done|].
    intros k. rewrite elem_of_nil. tauto. }
  apply not_elem_of_cons in Hproto as [Hkey Hproto].
  cbn [forEach]. unfold bind, cache_add at 1.
  set (m1 := Memory _ _ _ _).
  destruct Hsome as [cache Hcache].
  assert (Hm1 : keyCaches m1 !! id
                = Some (if bool_decide (key ∈ cache) then cache else cache ++ [key])).
  { unfold m1. cbn. rewrite list_lookup_alter_eq, Hcache. cbn.
    rewrite (bool_decide_eq_false_2 (key = "__proto__")) by congruence.
    by rewrite orb_false_r. }
  destruct (IH m1) as (m' & -> & Hheap & Hconsole & Hsome' & Hkeys).
  { by rewrite Hm1. }
  { exact Hproto. }
  exists m'. split; [done|]. split; [done|]. split; [done|]. split; [done|].
  intros k. rewrite Hkeys. unfold cached_keys. rewrite Hm1, Hcache. cbn.
  rewrite elem_of_cons.
  destruct (bool_decide_reflect (key ∈ cache)) as [Hin|Hnew].
  - split; [tauto|]. intros [?|[->|?]]; tauto.
  - rewrite elem_of_app, list_elem_of_singleton. tauto.
Qed.

Lemma unexpected_all_cached h final cached state :
  (forall k, k ∈ object_keys h state -> k ∉ keys final -> k ∉ keys object_prototype ->
             k ∈ cached) ->
  unexpected h final cached state = [].
Proof.
  intros Hall. destruct (unexpected h final cached state) as [|k ks] eqn:E; [done|].
  assert (Hk : k ∈ unexpected h final cached state) by (rewrite E; by left).
  apply elem_of_unexpected in Hk as (Hin & Hfinal & Hcached & Hproto).
  destruct Hcached. by apply Hall.
Qed.

(** X16.  The warning for keys of the state that have no reducer, for a
    state that is a plain object and a mapping with a function in it
    (none under [hasOwnProperty]): it names the keys of the state that
    have no reducer, were not warned about before and are not the name
    of a property of [Object.prototype], for which a read of the cache
    finds something; and it names none when the action is the [REPLACE]
    action.  Either way these keys go to the cache, so that a second
    check of the same state, with whatever action, has nothing to warn
    about. *)
Theorem unexpected_keys_are_reported_once state final action id m preloaded replacing :
  final <> [] ->
  lookup_key "hasOwnProperty" final = None ->
  isPlainObject (heap m) state = true ->
  is_Some (keyCaches m !! id) ->
  action_is action (INIT actionTypes) m = (Returned preloaded, m) ->
  action_is action (REPLACE actionTypes) m = (Returned replacing, m) ->
  let news := unexpected (heap m) final (cached_keys m id) state in
  exists m1,
    getUnexpectedStateShapeWarningMessage actionTypes state final action (Some id) m
    = (Returned
         (if replacing then None
          else if (0 <? length news)%nat
               then Some (UnexpectedStateKeys news preloaded (keys final))
               else None), m1)
    /\ heap m1 = heap m
    /\ console m1 = console m
    /\ (forall k, k ∈ news <-> k ∈ object_keys (heap m) state /\ (k ∉ keys final)
                              /\ (k ∉ cached_keys m id) /\ (k ∉ keys object_prototype))
    /\ (forall k, k ∈ cached_keys m1 id <-> k ∈ cached_keys m id \/ k ∈ news)
    /\ forall action', exists m2,
         getUnexpectedStateShapeWarningMessage actionTypes state final action' (Some id) m1
         = (Returned None, m2).
Proof.
  intros Hfinal Hown Hplain Hsome Hinit Hreplace news.
  assert (Hlen : (length (keys final) =? 0)%nat = false).
  { destruct final; [done|]. reflexivity. }
  assert (Hcheck : forall action0 m0 preloaded0,
            isPlainObject (heap m0) state = true ->
            action_is action0 (INIT actionTypes) m0 = (Returned preloaded0, m0) ->
            getUnexpectedStateShapeWarningMessage actionTypes state final action0 (Some id) m0
            = bind (forEach (cache_add (Some id))
                      (unexpected (heap m0) final (cached_keys m0 id) state)) (fun _ =>
              bind (action_is action0 (REPLACE actionTypes)) (fun replacing0 =>
              if replacing0 then ret None
              else if (0 <? length (unexpected (heap m0) final (cached_keys m0 id) state))%nat
                   then ret (Some (UnexpectedStateKeys
                                     (unexpected (heap m0) final (cached_keys m0 id) state)
                                     preloaded0 (keys final)))
                   else ret None)) m0).
  { intros action0 m0 preloaded0 Hplain0 Hb. unfold getUnexpectedStateShapeWarningMessage.
    unfold bind at 1. rewrite Hb, Hlen. unfold bind at 1, get_world at 1.
    rewrite Hplain0. cbn [negb]. unfold bind at 1.
    rewrite filter_unexpected_exact by done. reflexivity. }
  assert (Hproto : "__proto__" ∉ news).
  { intros Hin. apply elem_of_unexpected in Hin as (_ & _ & _ & Hin). apply Hin.
    apply (bool_decide_unpack _). vm_compute. exact I. }
  destruct (cache_add_all id news m Hsome Hproto)
    as (m1 & Hadd & Hheap & Hconsole & Hsome1 & Hkeys).
  exists m1. split; [|split; [exact Hheap|split; [exact Hconsole|split; [|split; [exact Hkeys|]]]]].
  - rewrite (Hcheck action m preloaded Hplain Hinit). fold news. unfold bind at 1.
    rewrite Hadd. unfold bind at 1.
    rewrite (action_is_heap action _ m m1 replacing Hheap Hreplace).
    destruct replacing; [done|]. by destruct (0 <? length news)%nat.
  - intros k. apply elem_of_unexpected.
  - intros action'.
    destruct (action_is_returns action' (INIT actionTypes) m1) as (b & Hb).
    rewrite (Hcheck action' m1 b) by (by rewrite ?Hheap).
    assert (Hnone : unexpected (heap m1) final (cached_keys m1 id) state = []).
    { apply unexpected_all_cached. intros k Hk Hnew Hplain'. rewrite Hkeys.
      destruct (decide (k ∈ cached_keys m id)) as [|Hnot]; [by left|]. right.
      apply elem_of_unexpected. by rewrite <- Hheap. }
    rewrite Hnone. unfold bind at 1. cbn [forEach]. unfold ret at 1.
    destruct (action_is_returns action' (REPLACE actionTypes) m1) as (b' & Hb').
    unfold bind at 1. rewrite Hb'. destruct b'; by eexists.
Qed.

End KeyWarnings.

(** ** The store of a composed reducer *)

Section StateTree.
Import JS CombineReducers Store.
Variable production : bool.
Variable actionTypes : action_types.
Variable random_suffix : nat -> string.
Variable code : nat -> list value -> prog.

(** X17.  A store made with the reducer [combineReducers] returns and
    no preloaded state: its first state is a new object that holds,
    under the key of every function of the mapping, what that function
    returned for the action of type [INIT] and what the empty object
    has under its key, [undefined] unless the key is the name of a
    property of [Object.prototype]; when no key is such a name, the keys
    of the first state are the keys of the functions of the mapping. *)
Theorem initial_state_tree fuel n reducers m_c c m_c' m :
  combineReducers production actionTypes random_suffix reducers m_c = (Returned c, m_c') ->
  ordinary production reducers ->
  shapeAssertionError c = None ->
  (forall args,
      code n args
      = Mem (combination production actionTypes c (nth 0 args VUndefined)
               (nth 1 args VUndefined)) Ret) ->
  let action := VObj (length (heap m)) in
  let s0 := initializing actionTypes (VFun (UserFn n)) VUndefined m in
  (forall k r, lookup_key k (finalReducers c) = Some r ->
     keeps_contract (mem s0) r (inherited (Object true []) k) action) ->
  has_type (mem s0) action (INIT actionTypes)
  /\ exists s l (next : string -> value),
       createStore actionTypes (invoke actionTypes code (S fuel)) (S fuel)
         (VFun (UserFn n)) VUndefined m
       = (Returned s, mem s)
       /\ currentState s = VObj l
       /\ heap m !! l = None
       /\ (forall k r, lookup_key k (finalReducers c) = Some r ->
             result_of (mem s0) r (inherited (Object true []) k) action (next k))
       /\ (forall k, k ∈ finalReducerKeys c -> previous (mem s) (VObj l) k = next k)
       /\ ((forall k, k ∈ finalReducerKeys c -> lookup_key k object_prototype = None) ->
             object_keys (heap (mem s)) (VObj l) = finalReducerKeys c)
       /\ registered s = []
       /\ isDispatching s = false.
Proof.
  intros Hc Hord Hshape Hcode action s0 Hred.
  destruct (fresh_action_valid s0 (INIT actionTypes) (heap m) eq_refl) as [Hvalid Htype].
  split; [exact Htype|].
  destruct (combination_from_nothing production actionTypes random_suffix
              _ _ _ _ (mem s0) action Hc Hord Hshape Hred)
    as (l & m' & results & Hrun & Hfresh & Hext & Hcalls & Hreads & _ & _ & Hplain).
  set (s1 := set_mem m' (set_isDispatching true s0)).
  assert (Hreduce : invoke actionTypes code (S fuel) (currentReducer s0)
                      [currentState s0; action] (set_isDispatching true s0)
                    = (Returned (VObj l), s1)).
  { change (currentReducer s0) with (VFun (UserFn n)).
    change (currentState s0) with VUndefined.
    cbn [invoke]. rewrite Hcode. cbn [run nth]. unfold bind, lift_mem.
    change (mem (set_isDispatching true s0)) with (mem s0). by rewrite Hrun. }
  set (s2 := set_isDispatching false (set_currentState (VObj l) s1)).
  assert (Hreg : registered s2 = []) by reflexivity.
  exists (set_currentListeners (nextListeners s2) s2), l, (result_for results).
  rewrite createStore_dispatches by done. fold s0.
  rewrite (dispatch_succeeds _ (S fuel) _ s0 (VObj l) s1 [] _ Hvalid eq_refl Hreduce
             (notifyListeners_nobody _ (S fuel) s2 Hreg)).
  split; [reflexivity|]. split; [reflexivity|].
  split.
  { apply lookup_ge_None. cbn [mem s0 initializing heap set_heap] in Hfresh.
    rewrite length_app in Hfresh. lia. }
  split; [intros k r Hr; by apply Hcalls|].
  cbn [mem set_currentListeners s2 set_isDispatching set_currentState s1 set_mem].
  split; [exact Hreads|]. split; [exact Hplain | done].
Qed.

End StateTree.

(** ** compose: pipes of pipes *)

Section ComposeNesting.
Import JS Compose.

(** X18.  Pipes of pure functions nest: the pipe of two lists put end to
    end is the pipe of the first after the pipe of the second, and a
    pipe whose members are pipes is the pipe of all their members. *)
Theorem compose_of_composes :
  (forall (T : Type) (fs gs : list (T -> T)) (x : T),
      compose (M := fun A => A) (fs ++ gs) x
      = compose (M := fun A => A) fs (compose (M := fun A => A) gs x))
  /\ (forall (T : Type) (fs gs : list (T -> T)) (x : T),
        compose (M := fun A => A)
          [compose (M := fun A => A) fs; compose (M := fun A => A) gs] x
        = compose (M := fun A => A) (fs ++ gs) x)
  /\ (forall (T : Type) (fss : list (list (T -> T))) (x : T),
        compose (M := fun A => A) (map (compose (M := fun A => A)) fss) x
        = compose (M := fun A => A) (concat fss) x).
Proof.
  assert (Happ : forall (T : Type) (fs gs : list (T -> T)) (x : T),
            compose (M := fun A => A) (fs ++ gs) x
            = compose (M := fun A => A) fs (compose (M := fun A => A) gs x)).
  { intros T fs gs x. rewrite !compose_pure_fold. apply fold_right_app. }
  split; [exact Happ|]. split.
  - intros T fs gs x. by rewrite Happ.
  - intros T fss x. induction fss as [|fs fss IH]; [done|].
    cbn [map concat]. rewrite (compose_pure_fold (compose fs :: _)). cbn [fold_right].
    by rewrite <- compose_pure_fold, IH, <- Happ.
Qed.

Lemma comp_bind_assoc {W A B C} (c : Comp W A) (k : A -> Comp W B) (k' : B -> Comp W C) w :
  bind (bind c k) k' w = bind c (fun a => bind (k a) k') w.
Proof. unfold bind. by destruct (c w) as [[a|e|] w1]. Qed.

Lemma comp_bind_ret {W A} (c : Comp W A) w : bind c ret w = c w.
Proof. unfold bind, ret. by destruct (c w) as [[a|e|] w1]. Qed.

Lemma comp_bind_ext {W A B} (c : Comp W A) (k k' : A -> Comp W B) w :
  (forall a w1, k a w1 = k' a w1) -> bind c k w = bind c k' w.
Proof. intros Hk. unfold bind. destruct (c w) as [[a|e|] w1]; [apply Hk|done..]. Qed.

Lemma compose_app_effects {W T : Type} (fs gs : list (T -> Comp W T)) (x : T) (w : W) :
  compose (fs ++ gs) x w = bind (compose gs x) (compose fs) w.
Proof.
  revert x w. induction gs as [|g gs IH] using rev_ind; intros x w.
  { by rewrite app_nil_r. }
  rewrite app_assoc.
  destruct (fs ++ gs) as [|f0 rest] eqn:Hfront.
  - apply app_eq_nil in Hfront as [-> ->]. cbn [app compose]. symmetry. apply comp_bind_ret.
  - rewrite (compose_snoc (M := Comp W)). cbn [call_then comp_calls]. rewrite <- Hfront.
    destruct gs as [|g0 gs'].
    + rewrite app_nil_r. reflexivity.
    + rewrite (compose_snoc (M := Comp W) g0 gs' g x). cbn [call_then comp_calls].
      rewrite comp_bind_assoc. apply comp_bind_ext. intros y w1. rewrite Hfront. apply IH.
Qed.

(** X19.  Pipes of functions with effects nest in the same way, the
    effects in the order of the calls: the pipe of the second list runs
    first, and the pipe of the first runs on its result.  When a function
    throws, the functions to its left are not called. *)
Theorem compose_with_effects :
  (forall (W T : Type) (fs gs : list (T -> Comp W T)) (x : T) (w : W),
      compose (fs ++ gs) x w = bind (compose gs x) (compose fs) w)
  /\ (forall (W T : Type) (fs gs : list (T -> Comp W T)) (x : T) (w w' : W) (e : exn),
        compose gs x w = (Thrown e, w') ->
        compose (fs ++ gs) x w = (Thrown e, w'))
  /\ (forall (W T : Type) (fs gs : list (T -> Comp W T)) (x y : T) (w w' : W),
        compose gs x w = (Returned y, w') ->
        compose (fs ++ gs) x w = compose fs y w').
Proof.
  split; [|split].
  - intros W T fs gs x w. apply compose_app_effects.
  - intros W T fs gs x w w' e Hthrow. rewrite compose_app_effects. unfold bind.
    by rewrite Hthrow.
  - intros W T fs gs x y w w' Hret. rewrite compose_app_effects. unfold bind.
    by rewrite Hret.
Qed.

End ComposeNesting.

(** ** applyMiddleware: the empty chain, and a middleware that does not forward *)

Section MiddlewareChain.
Import JS ApplyMiddleware.

(** X20.  [applyMiddleware()] with no middleware changes nothing: the
    store it makes is the store [createStore] makes, its [dispatch]
    included. *)
Theorem applyMiddleware_of_nothing :
  forall (W Args : Type) (fuel : nat) (createStore : Args -> Comp W (StoreAPI W))
         (args : Args) (w : W),
    applyMiddleware fuel [] createStore args w = createStore args w
    /\ forall store : StoreAPI W, chained [] store fuel = dispatch store.
Proof.
  intros W Args fuel createStore args w. split.
  - unfold applyMiddleware, bind.
    destruct (createStore args w) as [[store|e|] w']; [|done..].
    destruct store. destruct fuel; reflexivity.
  - intros store. destruct fuel; reflexivity.
Qed.

(** X21.  A middleware that does not call the [next] it is given cuts
    off what lies behind it: with it in the chain, the enhanced
    [dispatch] is the same whatever the middleware after it and whatever
    the [dispatch] of the store, which is never reached. *)
Theorem middleware_that_does_not_forward :
  forall (W : Type) (before after after' : list (Middleware W)) (m : Middleware W)
         (store store' : StoreAPI W) (fuel : nat),
    (forall api next next', m api next = m api next') ->
    getState store = getState store' ->
    chained (before ++ m :: after) store fuel = chained (before ++ m :: after') store' fuel.
Proof.
  intros W before after after' m store store' fuel Hcut Hstate.
  induction fuel as [|fuel IH].
  - rewrite !chained_nested, !fold_right_app. cbn [fold_right].
    unfold middlewareAPI_of. rewrite Hstate.
    by rewrite (Hcut _ _ (fold_right
                 (fun (middleware : Middleware W) next =>
                    middleware (MkMiddlewareAPI (getState store') (fun _ => out_of_fuel)) next)
                 (dispatch store') after')).
  - rewrite !chained_nested, !fold_right_app. cbn [fold_right].
    unfold middlewareAPI_of. rewrite Hstate, IH.
    by rewrite (Hcut _ _ (fold_right
                 (fun (middleware : Middleware W) next =>
                    middleware
                      (MkMiddlewareAPI (getState store')
                         (chained (before ++ m :: after') store' fuel)) next)
                 (dispatch store') after')).
Qed.

End MiddlewareChain.

(** ** createStore: its arguments *)

Section CreateStoreArgumentFacts.
Import JS CreateStoreArguments.

(** X22.  The arguments of [createStore]: a function given as second
    argument, with no third, is the enhancer, exactly as if it were
    given third after [undefined]; an enhancer that is neither
    [undefined] nor a function is refused whatever the reducer is; with
    an enhancer the reducer is not looked at here; and a store is made
    here only with no enhancer and a preloaded state that is not a
    function. *)
Theorem createStore_sorts_its_arguments :
  (forall reducer f,
      typeof f = TFunction ->
      createStore_route reducer f VUndefined = HandedToEnhancer f reducer VUndefined
      /\ createStore_route reducer f VUndefined = createStore_route reducer VUndefined f)
  /\ (forall reducer preloadedState enhancer,
        typeof enhancer <> TUndefined ->
        typeof enhancer <> TFunction ->
        createStore_route reducer preloadedState enhancer = EnhancerIsNotAFunction)
  /\ (forall reducer preloadedState enhancer,
        typeof enhancer = TFunction ->
        createStore_route reducer preloadedState enhancer
        = HandedToEnhancer enhancer reducer preloadedState)
  /\ (forall reducer preloadedState enhancer r p,
        createStore_route reducer preloadedState enhancer = MadeHere r p ->
        r = reducer /\ p = preloadedState /\ enhancer = VUndefined
        /\ typeof preloadedState <> TFunction).
Proof.
  split; [|split; [|split]].
  - intros reducer f Hf. destruct f as [| | | | | | |[]]; try discriminate Hf; by split.
  - intros reducer preloadedState enhancer Hu Hf.
    destruct enhancer as [| | | | | | |[]]; try (by destruct Hu); try (by destruct Hf);
      by destruct preloadedState as [| | | | | | |[]].
  - intros reducer preloadedState enhancer Hf.
    destruct enhancer as [| | | | | | |[]]; try discriminate Hf;
      by destruct preloadedState as [| | | | | | |[]].
  - intros reducer preloadedState enhancer r p.
    destruct preloadedState as [| | | | | | |[]], enhancer as [| | | | | | |[]]; cbn;
      intros H; try discriminate H; injection H as <- <-; done.
Qed.

End CreateStoreArgumentFacts.

(** *** Further scenarios *)

Section FurtherStoreScenarios.
Import JS Store.

Lemma sampleStore_tracked : tracked sampleStore.
Proof. split; [unfold valid; cbn; lia | reflexivity]. Qed.

Lemma faultyStore_subscribed :
  subscribe (VFun (UserFn 1)) newStore = (Returned (VFun (UnsubscribeFn 0)), faultyStore).
Proof. reflexivity. Qed.

Lemma observedStore_subscribed :
  observable_subscribe sampleCall (VObj 3) unobservedStore = (Returned (VObj 4), observedStore).
Proof. reflexivity. Qed.

(** The example of X1: L2's [unsubscribe] finds L2 in the array of the
    sample store, and leaves L1 alone. *)
Lemma listeners_match_subscriptions_witness :
  exists s',
    unsubscribe 1 sampleStore = (Returned VUndefined, s')
    /\ registered s' = [L1]
    /\ tracked s'.
Proof.
  destruct (proj2 (proj2 (listeners_match_subscriptions sampleTypes sampleCode))
              1 sampleStore L2 sampleStore_tracked eq_refl eq_refl)
    as (s' & before & after & Hun & Hreg & Hfirst & _ & Hreg' & Hs').
  exists s'. split; [exact Hun|]. split; [|exact Hs'].
  injection Hun as <-. reflexivity.
Defined.

(** The example of X2: L1 subscribed a second time and that
    subscription undone: of [L1, L2] it is the first L1 that goes. *)
Lemma subscribe_then_unsubscribe_witness :
  exists k s2,
    unsubscribe k (snd (subscribe L1 sampleStore)) = (Returned VUndefined, s2)
    /\ registered s2 = [L2; L1].
Proof.
  destruct (subscribe_then_unsubscribe L1 sampleStore (VFun (UnsubscribeFn 2))
              (snd (subscribe L1 sampleStore)))
    as (k & s2 & _ & Hun & _ & Hagain & _).
  - unfold valid. cbn. lia.
  - reflexivity.
  - exists k, s2. split; [exact Hun|]. exact (Hagain [] [L2] eq_refl (not_elem_of_nil _)).
Defined.

(** The example of X3: the sample store with a dispatch in flight; a
    number as listener is refused as no listener, not as a call in
    flight. *)
Lemma calls_in_flight_are_refused_witness :
  getState (set_isDispatching true sampleStore)
  = (Thrown ReentrantRead, set_isDispatching true sampleStore)
  /\ subscribe L1 (set_isDispatching true sampleStore)
     = (Thrown ReentrantSubscribe, set_isDispatching true sampleStore)
  /\ dispatch sampleCall 5 (VObj 0) (set_isDispatching true sampleStore)
     = (Thrown ReentrantDispatch, set_isDispatching true sampleStore)
  /\ subscribe (VNum 3) (set_isDispatching true sampleStore)
     = (Thrown InvalidListener, set_isDispatching true sampleStore).
Proof.
  destruct (calls_in_flight_are_refused sampleTypes sampleCode) as (Hflight & _ & Hchecks).
  destruct (Hflight sampleCall 5 (set_isDispatching true sampleStore) eq_refl)
    as (Hread & Hsubscribe & Hdispatch).
  destruct (Hchecks sampleCall 5 (set_isDispatching true sampleStore)) as (Hlistener & _).
  split; [exact Hread|]. split; [exact (Hsubscribe L1 eq_refl)|]. split.
  - apply Hdispatch. by apply INC_is_valid.
  - apply Hlistener. discriminate.
Defined.

(** The example of X4: [replaceReducer] called while a dispatch is in
    flight throws, and the reducer is the new one. *)
Lemma replaceReducer_installs_then_dispatches_witness :
  replaceReducer sampleTypes sampleCall 5 (VFun (UserFn 2)) (set_isDispatching true sampleStore)
  = (Thrown ReentrantDispatch,
     replacing sampleTypes (VFun (UserFn 2)) (set_isDispatching true sampleStore))
  /\ currentReducer (replacing sampleTypes (VFun (UserFn 2))
                       (set_isDispatching true sampleStore))
     = VFun (UserFn 2).
Proof.
  destruct (proj2 (replaceReducer_installs_then_dispatches sampleTypes sampleCall 5
                     (VFun (UserFn 2)) (set_isDispatching true sampleStore)) eq_refl)
    as (_ & Hreducer & Hflight & _).
  split; [exact (Hflight eq_refl) | exact Hreducer].
Defined.

(** The example of X5: [createStore(counter)] starts at 0. *)
Lemma createStore_initial_state_witness :
  exists s,
    createStore sampleTypes sampleCall 5 (VFun (UserFn 0)) VUndefined clientMemory
    = (Returned s, mem s)
    /\ currentState s = VNum 0
    /\ registered s = [].
Proof.
  destruct (proj2 (createStore_initial_state sampleTypes sampleCode 5 (VFun (UserFn 0))
                     VUndefined clientMemory) eq_refl)
    as (_ & Hreturns & _).
  destruct (Hreturns (VNum 0) _ eq_refl) as (s & Hmade & Hstate & _ & Hreg & _).
  exists s. split; [exact Hmade|]. split; [exact Hstate | exact Hreg].
Defined.

(** The example of X6: the listener throws after the count went from 0
    to 1; the count stays 1. *)
Lemma listener_failure_keeps_the_state_witness :
  exists s2,
    dispatch (invoke sampleTypes faultyCode 5) 5 (VObj 0) faultyStore
    = (Thrown (UserError (VStr "late")), s2)
    /\ currentState s2 = VNum 1
    /\ isDispatching s2 = false.
Proof.
  destruct (listener_failure_keeps_the_state sampleTypes faultyCode 5 (VObj 0) faultyStore
              (VNum 1) (set_isDispatching true faultyStore))
    as (_ & _ & Hfirst).
  - by apply INC_is_valid.
  - reflexivity.
  - reflexivity.
  - eexists. split.
    + apply (Hfirst (VFun (UserFn 1)) [] (UserError (VStr "late"))); [reflexivity..|lia].
    + split; reflexivity.
Defined.

(** The example of X7: a string as observer, and an observer [{next}]
    subscribed to a new store. *)
Lemma observable_subscribe_checks_then_registers_witness :
  observable_subscribe sampleCall (VStr "observer") unobservedStore
  = (Thrown InvalidObserver, unobservedStore)
  /\ exists s' subscription,
       observable_subscribe sampleCall (VObj 3) unobservedStore = (Returned subscription, s')
       /\ get_property (heap (mem s')) subscription "unsubscribe"
          = Returned (VFun (UnsubscribeFn 0))
       /\ registered s' = [VFun (ObserveStateFn 0)].
Proof.
  destruct (observable_subscribe_checks_then_registers sampleCall) as [Hrefused Hobject].
  split.
  - apply Hrefused. discriminate.
  - destruct (Hobject 3 (Object true [("next", VFun (UserFn 2))]) unobservedStore VUndefined
                (set_observers [VObj 3] unobservedStore))
      as (s' & subscription & Hsub & _ & Hun & Hreg & _).
    + reflexivity.
    + reflexivity.
    + reflexivity.
    + reflexivity.
    + unfold valid. cbn. lia.
    + reflexivity.
    + exists s', subscription. split; [exact Hsub|]. split; [exact Hun | exact Hreg].
Defined.

(** The example of X8: the observed store counts to 1 and tells the
    observer. *)
Lemma observer_is_told_the_new_state_witness :
  exists s2,
    dispatch (invoke sampleTypes sampleCode 5) 5 (VObj 0) observedStore
    = (Returned (VObj 0), s2)
    /\ currentState s2 = VNum 1.
Proof.
  destruct (observer_is_told_the_new_state sampleTypes sampleCode 4 (VObj 0) observedStore
              (VNum 1) (set_isDispatching true observedStore) 0 3
              (Object true [("next", VFun (UserFn 2))]))
    as (Htold & _).
  - unfold valid. cbn. lia.
  - split; [reflexivity|]. eexists. split; [reflexivity | discriminate].
  - reflexivity.
  - reflexivity.
  - reflexivity.
  - reflexivity.
  - reflexivity.
  - eexists. split.
    + apply (Htold VUndefined); reflexivity.
    + reflexivity.
Defined.

Lemma counter_writes_nothing : writes_nothing counter.
Proof.
  intros state action m res m' Hrun. unfold counter, bind, get in Hrun. cbv zeta in Hrun.
  assert (m' = m) as ->; [|apply same_memory_extends].
  destruct (get_property (heap m) action "type") as [type| |]; [|by injection Hrun..].
  destruct (strict_eq type (VStr "FAIL")); [by injection Hrun|].
  destruct (strict_eq type (VStr "INC")); by injection Hrun.
Qed.

(** The example of X9: [{type: 'INC'}], the action of type [INIT] and
    [{type: 'INC'}] again, dispatched to the store of [counter], which
    reads the type of its action, with a listener that reads the state
    of the store: the state is 2. *)
Lemma state_is_the_fold_of_the_reducer_witness :
  exists s',
    forEach (fun action =>
               bind (dispatch (invoke sampleTypes pollingCode 3) 3 action) (fun _ => ret tt))
      [VObj 0; VObj 2; VObj 0] pollingStore
    = (Returned tt, s')
    /\ currentState s' = VNum 2
    /\ registered s' = [VFun (UserFn 2)].
Proof.
  destruct (state_is_the_fold_of_the_reducer sampleTypes pollingCode 2 0 counter
              [VObj 0; VObj 2; VObj 0] pollingStore (VNum 2) storeMemory)
    as (s' & Hrun & Hstate & _ & Hreg & _).
  - intros args. reflexivity.
  - exact counter_writes_nothing.
  - reflexivity.
  - reflexivity.
  - reflexivity.
  - intros l Hl s Hflag. apply list_elem_of_singleton in Hl as ->. exists VUndefined.
    cbn [invoke pollingCode run]. unfold bind, getState. by rewrite Hflag.
  - cbn. lia.
  - apply Forall_cons. split; [by apply INC_is_valid|].
    apply Forall_cons. split.
    { split; [reflexivity|]. by exists (VStr "@@redux/INIT"). }
    apply Forall_cons. split; [by apply INC_is_valid | by apply Forall_nil].
  - exists s'. split; [exact Hrun|]. split; [exact Hstate | exact Hreg].
Defined.

(** The example of X17: [createStore(combineReducers({a: ra, b: rb}))]
    starts at [{a: 0, b: 0}]. *)
Lemma initial_state_tree_witness :
  exists s l,
    createStore sampleTypes (invoke sampleTypes treeCode 3) 3 (VFun (UserFn 0)) VUndefined
      composedMemory
    = (Returned s, mem s)
    /\ currentState s = VObj l
    /\ object_keys (heap (mem s)) (VObj l) = ["a"; "b"]
    /\ previous (mem s) (VObj l) "a" = VNum 0
    /\ previous (mem s) (VObj l) "b" = VNum 0.
Proof.
  destruct (initial_state_tree false sampleTypes sampleSuffix treeCode 2 0
              [("a", CombineReducers.Callable ra); ("b", CombineReducers.Callable rb)]
              emptyMemory sampleComposed _ composedMemory
              sampleComposed_made (conj eq_refl (fun _ => eq_refl)) eq_refl)
    as (_ & s & l & next & Hmade & Hstate & _ & Hcalls & Hreads & Hkeys & _).
  - intros args. reflexivity.
  - intros k r. cbn [CombineReducers.finalReducers sampleComposed lookup_key].
    destruct (bool_decide ("a" = k)); [intros [= <-]; apply ra_keeps_contract|].
    destruct (bool_decide ("b" = k)); [intros [= <-]; apply rb_keeps_contract|done].
  - destruct (Hcalls "a" ra eq_refl) as (ma & ma' & _ & [= Ha _]).
    destruct (Hcalls "b" rb eq_refl) as (mb & mb' & _ & [= Hb _]).
    exists s, l. split; [exact Hmade|]. split; [exact Hstate|]. split.
    + apply Hkeys. intros k Hk. apply (bool_decide_unpack _).
      cbn in Hk. apply elem_of_cons in Hk as [->|Hk]; [reflexivity|].
      apply list_elem_of_singleton in Hk as ->. reflexivity.
    + rewrite !Hreads by (cbn; repeat constructor). by rewrite <- Ha, <- Hb.
Defined.

End FurtherStoreScenarios.

Section FurtherCombineReducersScenarios.
Import JS CombineReducers.

Lemma ra_defined_when_probed : defined_when_probed ra.
Proof. intros m action t _. by eexists _, _. Qed.

Lemma rb_defined_when_probed : defined_when_probed rb.
Proof. intros m action t _. by eexists _, _. Qed.


(** The example of X11: the functions of the mixed mapping pass. *)
Lemma shape_check_passes_witness :
  exists c m',
    combineReducers false sampleTypes sampleSuffix mixedReducers emptyMemory = (Returned c, m')
    /\ shapeAssertionError c = None.
Proof.
  destruct (shape_check_passes false sampleTypes sampleSuffix mixedReducers emptyMemory)
    as (c & m' & Hc & Hshape & _).
  - intros k r. unfold mixedReducers. cbn.
    repeat case_bool_decide; intros [= <-];
      [apply ra_defined_when_probed | apply rb_defined_when_probed].
  - by exists c, m'.
Defined.



(** The example of X14: [combineReducers({n: null})] gives the state
    back, here the number 7, and warns. *)
Lemma combination_with_no_reducer_witness :
  exists c m_c,
    combineReducers false sampleTypes sampleSuffix [("n", NotCallable VNull)] emptyMemory
    = (Returned c, m_c)
    /\ forall m, exists m',
         combination false sampleTypes c (VNum 7) (VObj 1) m = (Returned (VNum 7), m')
         /\ console m' = console m ++ [NoValidReducer].
Proof.
  eexists _, _. split; [vm_compute; reflexivity|]. intros m.
  refine (proj2 (proj2 (combination_with_no_reducer false sampleTypes sampleSuffix
                          [("n", NotCallable VNull)] emptyMemory _ _ eq_refl _))
            (VNum 7) (VObj 1) m _); [|discriminate].
  intros k r. cbn. by case_bool_decide.
Defined.

(** The example of C7: of [{a: ra, x: badReducer, z: throwing}], where
    [badReducer] returns [undefined] for the initialization probe,
    [combineReducers] returns; the reducer it returns throws the error
    for [x] whenever it is called, and [throwing], which comes after, is
    not probed. *)
Lemma shape_error_is_deferred_witness :
  exists c m',
    combineReducers false sampleTypes sampleSuffix
      [("a", Callable ra); ("x", Callable badReducer); ("z", Callable throwing)] emptyMemory
    = (Returned c, m')
    /\ shapeAssertionError c = Some (ReducerReturnedUndefined DuringInitialization "x")
    /\ forall state action m1, exists m1',
         combination false sampleTypes c state action m1
         = (Thrown (ReducerReturnedUndefined DuringInitialization "x"), m1').
Proof.
  assert (Hbad : undefined_for_init sampleTypes badReducer)
    by (intros m action _; by eexists).
  destruct (shape_error_is_deferred false sampleTypes sampleSuffix
              [("a", Callable ra); ("x", Callable badReducer); ("z", Callable throwing)]
              [("a", Callable ra)] "x" badReducer [("z", Callable throwing)] emptyMemory)
    as (c & m' & when & failed & Hc & Hkept & _ & Hfirst & Hthrown).
  - apply (bool_decide_unpack _). vm_compute. exact I.
  - reflexivity.
  - reflexivity.
  - intros k r' Hk. apply list_elem_of_singleton in Hk as ->. intros [= <-].
    split; [intros m action _ | intros m action suffix _]; by eexists _, _.
  - by left.
  - destruct Hfirst as (-> & Hinit & _).
    { intros k r' Hk. apply list_elem_of_singleton in Hk as ->. intros [= <-].
      apply defined_when_probed_probes, ra_defined_when_probed. }
    rewrite (Hinit Hbad) in Hkept, Hthrown. by exists c, m'.
Defined.



Lemma forgetfulComposed_made :
  exists m',
    combineReducers false sampleTypes sampleSuffix
      [("a", Callable ra); ("x", Callable forgetful); ("z", Callable late)] emptyMemory
    = (Returned forgetfulComposed, m').
Proof. eexists. vm_compute. reflexivity. Qed.

(** The example of X15: [{a: ra, x: forgetful, z: late}] called with the
    state [{a: 1, x: 5, z: 9}]: [ra] is called, [forgetful] returns
    [undefined] and the composed reducer throws the error that names
    [x]; [late], which would have thrown an error of its own, is not
    called. *)
Lemma combination_refuses_undefined_witness :
  exists m',
    combination false sampleTypes forgetfulComposed (VObj 0) (VObj 1) forgetfulMemory
    = (Thrown (ReducerReturnedUndefined (DuringDispatch (Some (VStr "INC"))) "x"), m')
    /\ previous m' (VObj 0) "x" = VNum 5.
Proof.
  destruct forgetfulComposed_made as (m_c' & Hmade).
  destruct (combination_refuses_undefined false sampleTypes sampleSuffix
              [("a", Callable ra); ("x", Callable forgetful); ("z", Callable late)]
              emptyMemory forgetfulComposed m_c' forgetfulMemory 0
              (Object true [("a", VNum 1); ("x", VNum 5); ("z", VNum 9)]) (VObj 1) "INC"
              ["a"] "x" forgetful ["z"] Hmade (conj eq_refl (fun _ => eq_refl)) eq_refl
              eq_refl eq_refl eq_refl)
    as (m1 & m' & Hthrown & _ & _ & _ & Hstate).
  - intros k r' Hk. apply list_elem_of_singleton in Hk as ->. intros [= <-].
    apply ra_keeps_contract.
  - reflexivity.
  - intros m1 _. exists m1. split; [reflexivity | apply same_memory_extends].
  - exists m'. split; [exact Hthrown|]. by rewrite Hstate.
Defined.

(** The example of X16: of the state [{a: 1, extra: true, constructor: 3}]
    and the reducers [{a: ra, b: rb}], the first check reports [extra]
    and not [constructor], which a read of the cache finds on
    [Object.prototype]; a second check reports nothing. *)
Lemma unexpected_keys_are_reported_once_witness :
  exists m1,
    getUnexpectedStateShapeWarningMessage sampleTypes (VObj 0) (finalReducers sampleComposed)
      (VObj 1) (Some 0) oddMemory
    = (Returned (Some (UnexpectedStateKeys ["extra"] false ["a"; "b"])), m1)
    /\ exists m2,
         getUnexpectedStateShapeWarningMessage sampleTypes (VObj 0)
           (finalReducers sampleComposed) (VObj 1) (Some 0) m1
         = (Returned None, m2).
Proof.
  destruct (unexpected_keys_are_reported_once sampleTypes (VObj 0)
              (finalReducers sampleComposed) (VObj 1) 0 oddMemory false false)
    as (m1 & Hfirst & _ & _ & _ & _ & Hsecond).
  - discriminate.
  - reflexivity.
  - reflexivity.
  - by eexists.
  - reflexivity.
  - reflexivity.
  - exists m1. split; [exact Hfirst | exact (Hsecond (VObj 1))].
Defined.

End FurtherCombineReducersScenarios.

Section FurtherComposeScenarios.
Import JS Compose.

(** The example of X19: the rightmost function adds its argument to the
    world and doubles it, the middle one throws, the leftmost is not
    called. *)
Lemma compose_with_effects_witness :
  compose [fun x : nat => ret (x + 1); fun x : nat => throw (UserError (VNum 0));
           fun x : nat => modify (fun w : nat => w + x) ;;; ret (2 * x)]%comp 3 10
  = (Thrown (UserError (VNum 0)), 13).
Proof.
  exact (proj1 (proj2 compose_with_effects) nat nat
           [fun x : nat => ret (x + 1)]
           [fun x : nat => throw (UserError (VNum 0));
            fun x : nat => bind (modify (fun w : nat => w + x)) (fun _ => ret (2 * x))]
           3 10 13 (UserError (VNum 0)) eq_refl).
Defined.

End FurtherComposeScenarios.

Section FurtherMiddlewareScenarios.
Import JS ApplyMiddleware.

(** The example of X21: after the middleware that swallows, neither a
    further middleware nor the store's [dispatch] matters. *)
Lemma middleware_that_does_not_forward_witness :
  chained [logging "a"; swallowing; logging "b"] loggedStoreAPI 3
  = chained [logging "a"; swallowing]
      (MkStoreAPI (fun _ => throw InvalidAction) (subscribe loggedStoreAPI)
         (getState loggedStoreAPI) (replaceReducer loggedStoreAPI)
         (observable loggedStoreAPI)) 3.
Proof.
  exact (middleware_that_does_not_forward _ [logging "a"] [logging "b"] [] swallowing
           loggedStoreAPI _ 3 (fun _ _ _ => eq_refl) eq_refl).
Defined.

End FurtherMiddlewareScenarios.

Section FurtherArgumentScenarios.
Import JS CreateStoreArguments.

(** [createStore(0, f)] with a function [f]: the enhancer is [f], and
    that the reducer is no function goes unnoticed here. *)
Lemma createStore_sorts_its_arguments_witness :
  createStore_route (VNum 0) (VFun (UserFn 7)) VUndefined
  = HandedToEnhancer (VFun (UserFn 7)) (VNum 0) VUndefined
  /\ createStore_route (VNum 0) VUndefined (VStr "enhancer") = EnhancerIsNotAFunction.
Proof.
  destruct createStore_sorts_its_arguments as (Hsecond & Hrefused & _).
  split.
  - exact (proj1 (Hsecond (VNum 0) (VFun (UserFn 7)) eq_refl)).
  - apply Hrefused; discriminate.
Defined.

End FurtherArgumentScenarios.
